(** * Outlook-Telegram-Notifier: the polling / dedup / delivery core of main.go

    A shallow embedding of the functions of [main.go] that make up the
    notification pipeline, and the properties its specification states
    about them.

    - Go strings are byte sequences ([list byte]); the conversions
      [[]rune(s)] and [string(runes)] are modelled by a UTF-8 decoder and
      encoder that follow package utf8 (an invalid byte decodes to U+FFFD
      and has width one).
    - Go [int] and [rune] values are integers ([Z]); the one product that
      can overflow, the [time.Duration] of [waitNextCheck], wraps as an int64.
    - A run-time panic is an explicit outcome ([Panics]).
    - The COM objects of Outlook are a finite tree of folders; the HTTP
      exchanges with the Telegram API are an oracle indexed by the calls made.
    - The loop of [mainLogic], the channel [semaphore] and the goroutines
      started by [safeGoNoLog] are a transition system whose steps interleave.

    The first part holds the definitions, the second the properties. *)

From Stdlib Require Import ZArith List Bool Lia ZifyBool Sorted.
From Stdlib Require Import Strings.String Strings.Byte.
From stdpp Require Import base option list gmap.
Import ListNotations.

Local Open Scope Z_scope.

(** ** Go strings *)

Module GoString.

Abbreviation gostring := (list byte).

#[global] Instance byte_eq_dec : EqDecision byte := Byte.byte_eq_dec.

(** A string literal of the source, as the bytes of its UTF-8 text. *)
Definition lit (s : string) : gostring := list_byte_of_string s.

Definition b2z (b : byte) : Z := Z.of_N (Byte.to_N b).

Definition z2b (z : Z) : byte :=
  match Byte.of_N (Z.to_N z) with
  | Some b => b
  | None => Byte.x00
  end.

(** The Go conversion [byte(x)] of an integer: the low eight bits. *)
Definition byteOf (x : Z) : byte := z2b (x mod 256).

Definition RuneError : Z := 0xFFFD.
Definition MaxRune : Z := 0x10FFFF.
Definition surrogateMin : Z := 0xD800.
Definition surrogateMax : Z := 0xDFFF.

Definition maskx : Z := 0x3F.
Definition mask2 : Z := 0x1F.
Definition mask3 : Z := 0x0F.
Definition mask4 : Z := 0x07.
Definition tx : Z := 0x80.
Definition t2 : Z := 0xC0.
Definition t3 : Z := 0xE0.
Definition t4 : Z := 0xF0.
Definition locb : Z := 0x80.
Definition hicb : Z := 0xBF.

(** The tables [first] and [acceptRanges] of package utf8, as one function:
    for a lead byte at or above 0x80, the length of the sequence it starts
    and the range accepted for the second byte; [None] for a byte that
    starts no sequence. *)
Definition leadClass (s0 : Z) : option (Z * Z * Z) :=
  if (0xC2 <=? s0) && (s0 <=? 0xDF) then Some (2, locb, hicb)
  else if s0 =? 0xE0 then Some (3, 0xA0, hicb)
  else if (0xE1 <=? s0) && (s0 <=? 0xEC) then Some (3, locb, hicb)
  else if s0 =? 0xED then Some (3, locb, 0x9F)
  else if (0xEE <=? s0) && (s0 <=? 0xEF) then Some (3, locb, hicb)
  else if s0 =? 0xF0 then Some (4, 0x90, hicb)
  else if (0xF1 <=? s0) && (s0 <=? 0xF3) then Some (4, locb, hicb)
  else if s0 =? 0xF4 then Some (4, locb, 0x8F)
  else None.

Definition byteAt (s : gostring) (i : nat) : Z := b2z (nth i s Byte.x00).

(** utf8.DecodeRuneInString: the first rune of [s] and its width in bytes. *)
Definition DecodeRune (s : gostring) : Z * nat :=
  let n := Z.of_nat (length s) in
  if n <? 1 then (RuneError, 0%nat) else
  let s0 := byteAt s 0 in
  if s0 <? 0x80 then (s0, 1%nat) else
  match leadClass s0 with
  | None => (RuneError, 1%nat)
  | Some (sz, lo, hi) =>
    if n <? sz then (RuneError, 1%nat) else
    let s1 := byteAt s 1 in
    if (s1 <? lo) || (hi <? s1) then (RuneError, 1%nat) else
    if sz <=? 2 then
      (Z.lor (Z.shiftl (Z.land s0 mask2) 6) (Z.land s1 maskx), 2%nat)
    else
    let s2 := byteAt s 2 in
    if (s2 <? locb) || (hicb <? s2) then (RuneError, 1%nat) else
    if sz <=? 3 then
      (Z.lor (Z.lor (Z.shiftl (Z.land s0 mask3) 12)
                    (Z.shiftl (Z.land s1 maskx) 6))
             (Z.land s2 maskx), 3%nat)
    else
    let s3 := byteAt s 3 in
    if (s3 <? locb) || (hicb <? s3) then (RuneError, 1%nat) else
      (Z.lor (Z.lor (Z.lor (Z.shiftl (Z.land s0 mask4) 18)
                           (Z.shiftl (Z.land s1 maskx) 12))
                    (Z.shiftl (Z.land s2 maskx) 6))
             (Z.land s3 maskx), 4%nat)
  end.

(** The runes of the bytes that remain once [skip] bytes, the rest of the
    rune decoded last, have been passed over. *)
Fixpoint runesFrom (skip : nat) (s : gostring) : list Z :=
  match s with
  | [] => []
  | _ :: t =>
    match skip with
    | S k => runesFrom k t
    | O => fst (DecodeRune s) :: runesFrom (snd (DecodeRune s) - 1) t
    end
  end.

(** The conversion [[]rune(s)]. *)
Definition runes (s : gostring) : list Z := runesFrom 0 s.

(** The number of runes of a string, [len([]rune(s))]. *)
Definition runeCount (s : gostring) : Z := Z.of_nat (length (runes s)).

(** utf8.EncodeRune, as the bytes it writes. *)
Definition EncodeRune (r : Z) : gostring :=
  let enc3 (r : Z) :=
    [byteOf (Z.lor t3 (b2z (byteOf (Z.shiftr r 12))));
     byteOf (Z.lor tx (Z.land (b2z (byteOf (Z.shiftr r 6))) maskx));
     byteOf (Z.lor tx (Z.land (b2z (byteOf r)) maskx))] in
  if (0 <=? r) && (r <=? 0x7F) then [byteOf r]
  else if (0 <=? r) && (r <=? 0x7FF) then
    [byteOf (Z.lor t2 (b2z (byteOf (Z.shiftr r 6))));
     byteOf (Z.lor tx (Z.land (b2z (byteOf r)) maskx))]
  else if (r <? 0) || (MaxRune <? r)
          || ((surrogateMin <=? r) && (r <=? surrogateMax)) then enc3 RuneError
  else if r <=? 0xFFFF then enc3 r
  else
    [byteOf (Z.lor t4 (b2z (byteOf (Z.shiftr r 18))));
     byteOf (Z.lor tx (Z.land (b2z (byteOf (Z.shiftr r 12))) maskx));
     byteOf (Z.lor tx (Z.land (b2z (byteOf (Z.shiftr r 6))) maskx));
     byteOf (Z.lor tx (Z.land (b2z (byteOf r)) maskx))].

(** The conversion [string(runes)]. *)
Definition stringOfRunes (rs : list Z) : gostring := flat_map EncodeRune rs.

(** A Unicode scalar value: what [EncodeRune] writes without substitution. *)
Definition validRune (r : Z) : Prop :=
  (0 <= r < surrogateMin) \/ (surrogateMax < r <= MaxRune).

(** utf8.ValidString: no decoding step yields [RuneError] with width one. *)
Fixpoint validFrom (skip : nat) (s : gostring) : bool :=
  match s with
  | [] => true
  | _ :: t =>
    match skip with
    | S k => validFrom k t
    | O =>
      negb ((fst (DecodeRune s) =? RuneError) && (snd (DecodeRune s) =? 1)%nat)
      && validFrom (snd (DecodeRune s) - 1) t
    end
  end.

Definition ValidString (s : gostring) : bool := validFrom 0 s.

(** A byte below [utf8.RuneSelf]: it is a rune by itself. *)
Definition isASCII (b : byte) : Prop := b2z b < 0x80.

(** A string that is empty or starts with an ASCII byte: no byte of it
    continues a sequence begun before it. *)
Definition asciiHead (s : gostring) : Prop :=
  match s with
  | [] => True
  | c :: _ => isASCII c
  end.

(** Two strings that agree on their first [n] bytes, or up to a point before
    that from which both go on with an ASCII byte or end. *)
Inductive sameLead : nat -> gostring -> gostring -> Prop :=
  | sameLead_any t t' : sameLead 0 t t'
  | sameLead_stop k t t' : asciiHead t -> asciiHead t' -> sameLead k t t'
  | sameLead_cons k c t t' :
      ~ isASCII c -> sameLead k t t' -> sameLead (S k) (c :: t) (c :: t').

End GoString.

Import GoString.

(** ** Outcomes of a call: a normal return or a run-time panic *)

Inductive panic : Type :=
  | SliceBoundsOutOfRange   (* a slice expression with a bound out of range *)
  | RegexpCompileError      (* regexp.MustCompile on a pattern that does not parse *)
  | ComCallFailed.          (* an oleutil.Must... call whose COM call failed *)

Inductive outcome (A : Type) : Type :=
  | Returns (a : A)
  | Panics (p : panic).
Arguments Returns {A} a.
Arguments Panics {A} p.

Definition bindOutcome {A B : Type} (m : outcome A) (k : A -> outcome B) : outcome B :=
  match m with
  | Returns a => k a
  | Panics p => Panics p
  end.

Notation "'let*' x ':=' m 'in' k" := (bindOutcome m (fun x => k))
  (at level 10, x name, m at level 100, k at level 200).

(** ** Configuration (the [Config] and [Folder] structs) *)

Record Folder : Type := mkFolder {
  Name : gostring;
  ChatID : gostring;
  MessageLength : Z
}.

Record Config : Type := mkConfig {
  BotToken : gostring;
  DefaultChatID : gostring;
  UseEmojis : bool;
  CheckIntervalSeconds : Z;
  CutText : gostring;
  Folders : list Folder
}.

(** ** The formatter *)

Module Formatter.

Definition nl : gostring := [Byte.x0a].

(** html.EscapeString: the five replacements of its [strings.Replacer]. *)
Definition escapeByte (b : byte) : gostring :=
  if decide (b = Byte.x26) then lit "&amp;"
  else if decide (b = Byte.x27) then lit "&#39;"
  else if decide (b = Byte.x3c) then lit "&lt;"
  else if decide (b = Byte.x3e) then lit "&gt;"
  else if decide (b = Byte.x22) then lit "&#34;"
  else [b].

Definition EscapeString (s : gostring) : gostring := flat_map escapeByte s.

(** [truncateByRunes]. The slice expression [runes[:maxRunes]] panics when
    [maxRunes] is negative; it cannot exceed [len(runes)] on this path. *)
Definition truncateByRunes (text : gostring) (maxRunes : Z) : outcome gostring :=
  let runes := runes text in
  if Z.of_nat (length runes) <=? maxRunes then Returns text
  else if maxRunes <? 0 then Panics SliceBoundsOutOfRange
  else Returns (stringOfRunes (take (Z.to_nat maxRunes) runes) ++ lit "...").

(** The value [truncateByRunes] returns for a bound that is not negative. *)
Definition truncated (text : gostring) (maxRunes : Z) : gostring :=
  if runeCount text <=? maxRunes then text
  else stringOfRunes (take (Z.to_nat maxRunes) (runes text)) ++ lit "...".

(** [html.EscapeString] seen rune by rune. *)
Definition escapeRune (r : Z) : list Z :=
  if r =? 0x26 then runes (lit "&amp;")
  else if r =? 0x27 then runes (lit "&#39;")
  else if r =? 0x3c then runes (lit "&lt;")
  else if r =? 0x3e then runes (lit "&gt;")
  else if r =? 0x22 then runes (lit "&#34;")
  else [r].

Section Regexp.

(** Membership of two runes in one orbit of [unicode.SimpleFold], the table
    by which a [(?i)] pattern compares a literal rune with a rune of the text. *)
Variable foldEq : Z -> Z -> bool.

(** [regexp.MustCompile("(?i)" + regexp.QuoteMeta(cutString))]: the quoted
    text parses as the literal sequence of the runes of [cutString], each
    compared up to case folding; the parser rejects text that is not valid
    UTF-8 and [MustCompile] panics on it. (The parser also rejects a
    pattern of tens of millions of runes; that limit is not represented.) *)
Definition MustCompileQuotedFold (cutString : gostring) : outcome (list Z) :=
  if ValidString cutString then Returns (runes cutString)
  else Panics RegexpCompileError.

(** The literal [re] matches at the start of [s]. *)
Fixpoint matchAt (re : list Z) (s : gostring) : bool :=
  match re with
  | [] => true
  | p :: re' =>
    match s with
    | [] => false
    | _ :: _ =>
      foldEq p (fst (DecodeRune s)) && matchAt re' (drop (snd (DecodeRune s)) s)
    end
  end.

(** The byte offsets at which the runes of [s] start, in increasing order:
    the positions the matcher steps through. *)
Fixpoint runeStartsFrom (skip pos : nat) (s : gostring) : list nat :=
  match s with
  | [] => []
  | _ :: t =>
    match skip with
    | S k => runeStartsFrom k (S pos) t
    | O => pos :: runeStartsFrom (snd (DecodeRune s) - 1) (S pos) t
    end
  end.

Definition runeStarts (s : gostring) : list nat := runeStartsFrom 0 0 s.

(** [re.FindStringIndex(s)], reduced to the start offset [index[0]] of the
    leftmost match of a non-empty literal. *)
Definition FindStringIndex (re : list Z) (s : gostring) : option nat :=
  List.find (fun i => matchAt re (drop i s)) (runeStarts s).

(** The three header lines of [formatMessage]. *)
Definition headerLines (cfg : Config) (folder sender subject : gostring) : gostring :=
  let folder := EscapeString folder in
  let sender := EscapeString sender in
  let subject := EscapeString subject in
  if UseEmojis cfg then
    (lit "📥 <b>Папка:</b> " ++ folder ++ nl)
    ++ (lit "👤 <b>Отправитель:</b> " ++ sender ++ nl)
    ++ (lit "📧 <b>Тема:</b> " ++ subject ++ nl)
  else
    (lit "<b>Папка:</b> " ++ folder ++ nl)
    ++ (lit "<b>Отправитель:</b> " ++ sender ++ nl)
    ++ (lit "<b>Тема:</b> " ++ subject ++ nl).

Definition bodyLabel : gostring := lit "<i>Сообщение:</i>" ++ nl.

(** The body part written to the builder: nothing when [maxLength] is 0. *)
Definition bodySection (body : gostring) (maxLength : Z) : outcome gostring :=
  if negb (maxLength =? 0) then
    let body := EscapeString body in
    let* body := (if maxLength >? 0 then truncateByRunes body maxLength
                  else Returns body) in
    Returns (bodyLabel ++ body)
  else Returns [].

(** The cut at the first occurrence of [config.CutText]. *)
Definition cutAtMarker (cutString : gostring) (fullMessage : gostring)
  : outcome gostring :=
  if negb (length cutString =? 0)%nat then
    let* re := MustCompileQuotedFold cutString in
    match FindStringIndex re fullMessage with
    | Some index0 => Returns (take index0 fullMessage)
    | None => Returns fullMessage
    end
  else Returns fullMessage.

(** The builder's content when the cut-marker check is reached. *)
Definition composeMessage (cfg : Config)
    (folder sender subject body : gostring) (maxLength : Z) : outcome gostring :=
  let* section := bodySection body maxLength in
  Returns (headerLines cfg folder sender subject ++ section).

(** The builder's content when the final length check is reached. *)
Definition messageBeforeCap (cfg : Config)
    (folder sender subject body : gostring) (maxLength : Z) : outcome gostring :=
  let* msg := composeMessage cfg folder sender subject body maxLength in
  cutAtMarker (CutText cfg) msg.

(** [formatMessage]. *)
Definition formatMessage (cfg : Config)
    (folder sender subject body : gostring) (maxLength : Z) : outcome gostring :=
  let* finalMessage :=
    messageBeforeCap cfg folder sender subject body maxLength in
  truncateByRunes finalMessage 4000.

(** The marker [re] occurs in [s] at byte offset [i]: a rune of [s] starts
    there and the runes from there on match [re] up to case folding. *)
Definition occursAt (re : list Z) (s : gostring) (i : nat) : Prop :=
  i ∈ runeStarts s /\ matchAt re (drop i s) = true.

Definition firstOccurrence (re : list Z) (s : gostring) (i : nat) : Prop :=
  occursAt re s i /\ forall j, occursAt re s j -> (i <= j)%nat.

(** The part of the message after the header, as the body policy states it. *)
Definition expectedSection (body : gostring) (maxLength : Z) : gostring :=
  if maxLength =? 0 then []
  else if 0 <? maxLength then bodyLabel ++ truncated (EscapeString body) maxLength
  else bodyLabel ++ EscapeString body.

End Regexp.

(** The orbits of [unicode.SimpleFold] that hold an ASCII rune: the two
    cases of each letter, with the Kelvin sign U+212A in the orbit of [k] and
    the long s U+017F in the orbit of [s]. [foldKey] picks the lower-case
    letter of such an orbit and leaves every other rune as it is. *)
Definition asciiLower (r : Z) : Z :=
  if (0x41 <=? r) && (r <=? 0x5A) then r + 0x20 else r.

Definition foldKey (r : Z) : Z :=
  if r =? 0x212A then 0x6B
  else if r =? 0x17F then 0x73
  else asciiLower r.

(** Membership in one orbit, exact whenever one of the two runes is ASCII;
    two other runes count as folding to each other only when they are equal,
    which leaves the folding of the letters outside ASCII out. *)
Definition asciiFoldEq (r1 r2 : Z) : bool := foldKey r1 =? foldKey r2.

(** The message with the body section that the body policy states for a
    positive [maxLength] and a body longer than it: the label, the first
    [maxLength] characters of the escaped body and the ellipsis. *)
Definition statedMessage (cfg : Config) (folder sender subject body : gostring)
    (maxLength : Z) : gostring :=
  headerLines cfg folder sender subject ++ bodyLabel
  ++ stringOfRunes (take (Z.to_nat maxLength) (runes (EscapeString body)))
  ++ lit "...".

(** Sample configurations and bodies. *)
Definition plainConfig : Config := mkConfig [] [] false 10 [] [].

Definition invoiceConfig : Config :=
  mkConfig [] [] false 10 (lit "--END--") [mkFolder (lit "Invoices") [] 50].

Definition invoiceBody : gostring := lit "Please pay before --end-- ignore this".

Definition longBody : gostring := repeat "a"%byte 4001.

End Formatter.

(** ** The folder resolver *)

Module Resolver.

(** A MAPI object that has a [Folders] collection: a folder, a store or the
    namespace. [objID] stands for the identity of the COM object. *)
#[warnings="-register-all"]
Inductive MAPIObject : Type :=
  mkObject (objID : nat) (objName : gostring) (objFolders : list MAPIObject).

Definition objID (o : MAPIObject) : nat := let 'mkObject i _ _ := o in i.
Definition objName (o : MAPIObject) : gostring := let 'mkObject _ n _ := o in n.
Definition objFolders (o : MAPIObject) : list MAPIObject :=
  let 'mkObject _ _ fs := o in fs.

(** The MAPI namespace: its own [Folders] tree and the folder that
    [GetDefaultFolder(6)] answers. *)
Record Namespace : Type := mkNamespace {
  nsObject : MAPIObject;
  nsDefaultFolder6 : MAPIObject
}.

(** The COM calls a resolution makes, in the order it makes them. *)
Inductive comCall : Type :=
  | CallGetDefaultFolder (parent : nat) (kind : Z)
  | CallFolders (parent : nat)
  | CallCount (parent : nat)
  | CallItem (parent : nat) (i : Z)
  | CallName (folder : nat)
  | ReleaseFolders (parent : nat)
  | ReleaseFolder (folder : nat).

Inductive resolveError : Type :=
  | FolderNotFound (target : gostring).

(** The loop [for i := 1; i <= count; i++] of [findFolderRecursive] over the
    children that remain, with [find] the recursive call on one child. *)
Fixpoint findFolderLoop
    (find : MAPIObject -> (MAPIObject + resolveError) * list comCall)
    (parent : nat) (target : gostring) (i : Z) (folders : list MAPIObject)
  : (MAPIObject + resolveError) * list comCall :=
  match folders with
  | [] => (inr (FolderNotFound target), [])
  | folder :: rest =>
    let calls := [CallItem parent i; CallName (objID folder)] in
    if decide (objName folder = target) then (inl folder, calls)
    else
      let '(sub, subCalls) := find folder in
      let calls := calls ++ subCalls ++ [ReleaseFolder (objID folder)] in
      match sub with
      | inl subFolder => (inl subFolder, calls)
      | inr _ =>
        let '(r, restCalls) := findFolderLoop find parent target (i + 1) rest in
        (r, calls ++ restCalls)
      end
  end.

(** [findFolderRecursive]; the deferred [folders.Release()] is the last call. *)
Fixpoint findFolderRecursive (parent : MAPIObject) (target : gostring)
  : (MAPIObject + resolveError) * list comCall :=
  match parent with
  | mkObject pid _ folders =>
    let '(r, calls) :=
      findFolderLoop (fun folder => findFolderRecursive folder target)
                     pid target 1 folders in
    (r, [CallFolders pid; CallCount pid] ++ calls ++ [ReleaseFolders pid])
  end.

(** The name the source special-cases. *)
Definition inboxName : gostring := lit "Входящие".

(** [getFolder]. *)
Definition getFolder (ns : Namespace) (name : gostring)
  : (MAPIObject + resolveError) * list comCall :=
  if decide (name = inboxName) then
    (inl (nsDefaultFolder6 ns), [CallGetDefaultFolder (objID (nsObject ns)) 6])
  else findFolderRecursive (nsObject ns) name.

(** The folders below [parent] in depth-first pre-order: each child, then
    the folders below it, before the next child. *)
Fixpoint preorderBelow (parent : MAPIObject) : list MAPIObject :=
  match parent with
  | mkObject _ _ folders =>
    (fix each (folders : list MAPIObject) : list MAPIObject :=
       match folders with
       | [] => []
       | folder :: rest => (folder :: preorderBelow folder) ++ each rest
       end) folders
  end.

Definition nameIs (target : gostring) (f : MAPIObject) : bool :=
  bool_decide (objName f = target).

(** The first folder of a list that has the name, or the error. *)
Definition firstNamed (target : gostring) (l : list MAPIObject)
  : MAPIObject + resolveError :=
  match List.find (nameIs target) l with
  | Some f => inl f
  | None => inr (FolderNotFound target)
  end.

(** A list up to and including its first element that satisfies [p]. *)
Fixpoint upToFirst {A : Type} (p : A -> bool) (l : list A) : list A :=
  match l with
  | [] => []
  | x :: rest => if p x then [x] else x :: upToFirst p rest
  end.

(** The folders whose [Name] a resolution read, in the order of the reads. *)
Definition namesRead (calls : list comCall) : list nat :=
  omap (fun c => match c with CallName folder => Some folder | _ => None end) calls.

(** A search below a parent whose folders in pre-order are [below]: it
    answers the first folder with the name and reads the names up to it. *)
Definition searchSpec (target : gostring) (below : list MAPIObject)
    (r : (MAPIObject + resolveError) * list comCall) : Prop :=
  fst r = firstNamed target below
  /\ namesRead (snd r) = map objID (upToFirst (nameIs target) below).

(** The resolution as the specification words it: the children of a level
    are all compared first, and only when none of them matches is each
    child searched in turn. *)
Fixpoint resolveLevelFirst (parent : MAPIObject) (target : gostring)
  : option MAPIObject :=
  match parent with
  | mkObject _ _ folders =>
    match List.find (fun f => bool_decide (objName f = target)) folders with
    | Some folder => Some folder
    | None =>
      (fix each (folders : list MAPIObject) : option MAPIObject :=
         match folders with
         | [] => None
         | folder :: rest =>
           match resolveLevelFirst folder target with
           | Some sub => Some sub
           | None => each rest
           end
         end) folders
    end
  end.

(** A namespace with a folder [Reports] nested in the first store and a
    folder [Reports] at the top level after it. *)
Definition sampleTree : MAPIObject :=
  mkObject 0 [] [mkObject 1 (lit "Archive") [mkObject 2 (lit "Reports") []];
                 mkObject 3 (lit "Reports") []].

Definition sampleNamespace : Namespace :=
  mkNamespace sampleTree (mkObject 9 inboxName []).

End Resolver.

(** ** The delivery client *)

Module Delivery.

#[global] Instance byte_countable : Countable byte :=
  inj_countable Byte.to_N Byte.of_N Byte.of_to_N.

(** The JSON object [sendTelegramMessage] posts. *)
Record payload : Type := mkPayload {
  chat_id : gostring;
  text : gostring;
  parse_mode : gostring
}.

Record request : Type := mkRequest {
  reqURL : gostring;
  reqData : payload
}.

(** What the library calls of one [postJSON] call do: the first of them
    that fails, or the response that [client.Do] and [io.ReadAll] deliver. *)
Inductive exchange : Type :=
  | MarshalFails                             (* json.Marshal returns an error *)
  | NewRequestFails                          (* http.NewRequest returns an error *)
  | DoFails                                  (* client.Do returns an error *)
  | ReadFails (status : Z)                   (* io.ReadAll returns an error *)
  | Responds (status : Z) (body : gostring).

(** The errors [postJSON] returns. *)
Inductive error : Type :=
  | ErrMarshal
  | ErrNewRequest
  | ErrDo
  | ErrReadBody
  | ErrStatus (status : Z) (body : gostring).

Inductive logEntry : Type :=
  | LogEntryIDError
  | LogNotified (chatID : gostring)
  | LogSendError (err : error)
  | LogSendOk (subject : gostring).

(** The history of a run. [Marked], [Unmarked] and [SendReturned] record
    the writes to [processedEmails] and the return of [sendTelegramMessage]
    for the mail item with the given [EntryID]. *)
Inductive event : Type :=
  | Marked (entryID : gostring)
  | Unmarked (entryID : gostring)
  | SendReturned (entryID : gostring) (err : option error)
  | Logged (entry : logEntry).

(** The package-level state and the world around it. *)
Record World : Type := mkWorld {
  processedEmails : gmap gostring bool;
  network : nat -> exchange;   (* the fate of the n-th [postJSON] call *)
  calls : nat;                 (* [postJSON] calls made so far *)
  posted : list request;       (* requests handed to [client.Do], oldest first *)
  history : list event
}.

Definition StatusOK : Z := 200.

(** [postJSON]. *)
Definition postJSON (url : gostring) (data : payload) (w : World)
  : (gostring + error) * World :=
  let w1 := mkWorld (processedEmails w) (network w) (S (calls w))
                    (posted w) (history w) in
  let w2 := mkWorld (processedEmails w) (network w) (S (calls w))
                    (posted w ++ [mkRequest url data]) (history w) in
  match network w (calls w) with
  | MarshalFails => (inr ErrMarshal, w1)
  | NewRequestFails => (inr ErrNewRequest, w1)
  | DoFails => (inr ErrDo, w2)
  | ReadFails _ => (inr ErrReadBody, w2)
  | Responds status body =>
    if negb (status =? StatusOK) then (inr (ErrStatus status body), w2)
    else (inl body, w2)
  end.

Definition logMessage (entry : logEntry) (w : World) : World :=
  mkWorld (processedEmails w) (network w) (calls w) (posted w)
          (history w ++ [Logged entry]).

(** [sendTelegramMessage]: [None] is the nil error. *)
Definition sendTelegramMessage (cfg : Config) (text chatID : gostring) (w : World)
  : option error * World :=
  let url := lit "https://api.telegram.org/bot" ++ BotToken cfg
             ++ lit "/sendMessage" in
  let '(r, w) := postJSON url (mkPayload chatID text (lit "HTML")) w in
  match r with
  | inl _ => (None, logMessage (LogNotified chatID) w)
  | inr err => (Some err, w)
  end.

End Delivery.

(** ** The dedup cache and [processEmail] *)

Module Dedup.
Import Formatter Delivery.

(** The properties of a mail item; [None] for a property whose COM read
    fails. *)
Record MailItem : Type := mkMailItem {
  EntryID : option gostring;
  SenderName : option gostring;
  SenderEmailAddress : option gostring;
  Subject : option gostring;
  Body : option gostring
}.

(** A computation on the world that returns or panics; the state reached
    when a panic starts is kept, as the deferred calls and the recovering
    caller find it. *)
Definition M (A : Type) : Type := World -> outcome A * World.

Definition ret {A : Type} (a : A) : M A := fun w => (Returns a, w).

Definition bind {A B : Type} (m : M A) (k : A -> M B) : M B :=
  fun w =>
    match m w with
    | (Returns a, w') => k a w'
    | (Panics p, w') => (Panics p, w')
    end.

Notation "'let!' x ':=' m 'in' k" := (bind m (fun x => k))
  (at level 10, x name, m at level 100, k at level 200).

(** [oleutil.MustGetProperty(...).ToString()]. *)
Definition must {A : Type} (o : option A) : M A :=
  fun w =>
    match o with
    | Some a => (Returns a, w)
    | None => (Panics ComCallFailed, w)
    end.

Definition liftOutcome {A : Type} (o : outcome A) : M A := fun w => (o, w).

(** The map read [processedEmails[entryID]]: false for an absent key. *)
Definition isProcessed (entryID : gostring) (w : World) : bool :=
  default false (processedEmails w !! entryID).

Definition readProcessed (entryID : gostring) : M bool :=
  fun w => (Returns (isProcessed entryID w), w).

(** The map write [processedEmails[entryID] = b]. *)
Definition writeProcessed (entryID : gostring) (b : bool) : M unit :=
  fun w =>
    (Returns tt,
     mkWorld (<[entryID := b]> (processedEmails w)) (network w) (calls w)
             (posted w)
             (history w ++ [if b then Marked entryID else Unmarked entryID])).

Definition log (entry : logEntry) : M unit :=
  fun w => (Returns tt, logMessage entry w).

Definition send (cfg : Config) (entryID message chatID : gostring)
  : M (option error) :=
  fun w =>
    let '(err, w) := sendTelegramMessage cfg message chatID w in
    (Returns err,
     mkWorld (processedEmails w) (network w) (calls w) (posted w)
             (history w ++ [SendReturned entryID err])).

(** The loop over [config.Folders] that picks the rule of the folder; the
    zero [Folder] when no rule has the name. *)
Definition folderConfigOf (cfg : Config) (folderName : gostring) : Folder :=
  match List.find (fun f => bool_decide (Name f = folderName)) (Folders cfg) with
  | Some f => f
  | None => mkFolder [] [] 0
  end.

Section ProcessEmail.

Variable foldEq : Z -> Z -> bool.

(** [processEmail]. The mutex [mutexMsg] is held from the cache read to the
    return; one call runs at a time here, so it is not represented. *)
Definition processEmail (cfg : Config) (item : MailItem) (folderName : gostring)
  : M unit :=
  match EntryID item with
  | None => log LogEntryIDError
  | Some entryID =>
    let! already := readProcessed entryID in
    if already then ret tt
    else
      let! _ := writeProcessed entryID true in
      let! senderName := must (SenderName item) in
      let! senderEmail := must (SenderEmailAddress item) in
      let sender :=
        if negb (bool_decide (senderName = []))
           && negb (bool_decide (senderName = senderEmail))
        then senderName ++ lit " <" ++ senderEmail ++ lit ">"
        else senderEmail in
      let! subject := must (Subject item) in
      let! body := must (Body item) in
      let folderConfig := folderConfigOf cfg folderName in
      let! message :=
        liftOutcome (formatMessage foldEq cfg folderName sender subject body
                                   (MessageLength folderConfig)) in
      let chatID :=
        if bool_decide (ChatID folderConfig = []) then DefaultChatID cfg
        else ChatID folderConfig in
      let! err := send cfg entryID message chatID in
      match err with
      | Some e =>
        let! _ := writeProcessed entryID false in
        log (LogSendError e)
      | None => log (LogSendOk subject)
      end
  end.

End ProcessEmail.

(** A send for [entryID] has returned the nil error. *)
Definition deliveredOK (entryID : gostring) (h : list event) : Prop :=
  SendReturned entryID None ∈ h.

(** Every property that [processEmail] reads with a [Must] call can be read. *)
Definition readable (item : MailItem) : Prop :=
  is_Some (SenderName item) /\ is_Some (SenderEmailAddress item)
  /\ is_Some (Subject item) /\ is_Some (Body item).

(** The exchange on which [postJSON] returns the nil error. *)
Definition succeeds (ex : exchange) : Prop := exists body, ex = Responds 200 body.



Definition sampleItem : MailItem :=
  mkMailItem (Some (lit "00000000A1B2")) (Some (lit "Bob"))
             (Some (lit "bob@example.org")) (Some (lit "Bill"))
             (Some (lit "Please pay")).

(** The same item with a [Subject] that cannot be read. *)
Definition brokenItem : MailItem :=
  mkMailItem (Some (lit "00000000A1B2")) (Some (lit "Bob"))
             (Some (lit "bob@example.org")) None (Some (lit "Please pay")).

(** A world with an empty cache in which every exchange goes the same way. *)
Definition quietWorld (ex : exchange) : World :=
  mkWorld ∅ (fun _ => ex) 0 [] [].

End Dedup.

(** ** The cycle scheduler *)

Module Scheduler.

Definition Second : Z := 1000000000.

(** A product of type [time.Duration], an int64: it wraps around. *)
Definition wrapInt64 (z : Z) : Z := (z + 2 ^ 63) mod 2 ^ 64 - 2 ^ 63.

(** [waitNextCheck], as the duration it passes to [time.Sleep]. *)
Definition waitNextCheck (cfg : Config) : Z :=
  let interval := CheckIntervalSeconds cfg in
  let interval := if interval <=? 0 then 10 else interval in
  wrapInt64 (interval * Second).

(** The deferred calls of a cycle goroutine. *)
Inductive deferred : Type :=
  | ReleaseSlot      (* defer func() { <-semaphore }() *)
  | ComshimDone      (* defer comshim.Done() *)
  | RecoverSilently. (* the deferred function of safeGoNoLog, which calls recover() *)

(** Where a cycle goroutine started by [safeGoNoLog] is. [pending] lists
    the deferred calls not yet run, the one to run next first. *)
Inductive task : Type :=
  | Started                   (* go func() issued; nothing has run *)
  | Entered                   (* the closure runs; before comshim.Add(1) *)
  | Working                   (* after comshim.Add(1), in the provider calls *)
  | Exiting (panicking : bool) (pending : list deferred)
  | Finished                  (* the goroutine has ended *)
  | Unrecovered.              (* a panic left the goroutine: the process dies *)

#[global] Instance deferred_eq_dec : EqDecision deferred.
Proof. solve_decision. Defined.

#[global] Instance task_eq_dec : EqDecision task.
Proof. solve_decision. Defined.

(** Where the loop of [mainLogic] is. *)
Inductive loopPoint : Type :=
  | AtAcquire    (* semaphore <- struct{}{} *)
  | AtLaunch     (* safeGoNoLog(func() {...}) *)
  | AtWait.      (* waitNextCheck() *)

Record System : Type := mkSystem {
  semaphore : nat;          (* elements in the channel, of capacity 1 *)
  loop : loopPoint;
  tasks : list task;        (* the cycle goroutines, in launch order *)
  sleeps : list Z           (* the durations [mainLogic] has slept, oldest first *)
}.

Definition semaphoreCap : nat := 1.

(** How the code of a goroutine goes on where it has a choice. *)
Inductive move : Type :=
  | Proceed    (* the next statement runs *)
  | Return     (* a return statement is reached *)
  | Panic.     (* a call panics *)

Inductive action : Type :=
  | LoopStep
  | TaskStep (i : nat) (m : move).

(** One step of a cycle goroutine; the semaphore count before and after.
    [None] when the step is not enabled. *)
Definition taskStep (m : move) (t : task) (sem : nat) : option (task * nat) :=
  match t, m with
  | Started, Proceed => Some (Entered, sem)
  | Entered, Proceed => Some (Working, sem)
  | Entered, Return => Some (Exiting false [ReleaseSlot; RecoverSilently], sem)
  | Entered, Panic => Some (Exiting true [ReleaseSlot; RecoverSilently], sem)
  | Working, Return =>
    Some (Exiting false [ComshimDone; ReleaseSlot; RecoverSilently], sem)
  | Working, Panic =>
    Some (Exiting true [ComshimDone; ReleaseSlot; RecoverSilently], sem)
  | Exiting p (ReleaseSlot :: ds), Proceed =>
    match sem with
    | S n => Some (Exiting p ds, n)
    | O => None                     (* the receive blocks on an empty channel *)
    end
  | Exiting p (ComshimDone :: ds), Proceed => Some (Exiting p ds, sem)
  | Exiting _ (RecoverSilently :: ds), Proceed => Some (Exiting false ds, sem)
  | Exiting false [], Proceed => Some (Finished, sem)
  | Exiting true [], Proceed => Some (Unrecovered, sem)
  | _, _ => None
  end.

(** One step of the system. *)
Definition exec (cfg : Config) (a : action) (s : System) : option System :=
  if bool_decide (Unrecovered ∈ tasks s) then None else
  match a with
  | LoopStep =>
    match loop s with
    | AtAcquire =>
      if (semaphore s <? semaphoreCap)%nat
      then Some (mkSystem (S (semaphore s)) AtLaunch (tasks s) (sleeps s))
      else None                     (* the send blocks on a full channel *)
    | AtLaunch =>
      Some (mkSystem (semaphore s) AtWait (tasks s ++ [Started]) (sleeps s))
    | AtWait =>
      Some (mkSystem (semaphore s) AtAcquire (tasks s)
                     (sleeps s ++ [waitNextCheck cfg]))
    end
  | TaskStep i m =>
    match tasks s !! i with
    | Some t =>
      match taskStep m t (semaphore s) with
      | Some (t', sem') =>
        Some (mkSystem sem' (loop s) (<[i := t']> (tasks s)) (sleeps s))
      | None => None
      end
    | None => None
    end
  end.

Fixpoint run (cfg : Config) (acts : list action) (s : System) : option System :=
  match acts with
  | [] => Some s
  | a :: acts' =>
    match exec cfg a s with
    | Some s' => run cfg acts' s'
    | None => None
    end
  end.

Definition initial : System := mkSystem 0 AtAcquire [] [].

Definition reachable (cfg : Config) (s : System) : Prop :=
  exists acts, run cfg acts initial = Some s.

Definition releasesSlot (d : deferred) : bool :=
  match d with
  | ReleaseSlot => true
  | _ => false
  end.

(** A cycle is in flight from its launch until its deferred receive from
    the semaphore has run. *)
Definition inFlight (t : task) : bool :=
  match t with
  | Started | Entered | Working => true
  | Exiting _ pending => existsb releasesSlot pending
  | Finished | Unrecovered => false
  end.

Definition flightCount (ts : list task) : nat :=
  length (filter (fun t => inFlight t = true) ts).

Definition cyclesInFlight (s : System) : nat := flightCount (tasks s).

(** The deferred calls a goroutine can have left, and no panic without the
    recovering call among them. *)
Definition taskOK (t : task) : Prop :=
  match t with
  | Exiting p ds =>
    ds = [ComshimDone; ReleaseSlot; RecoverSilently]
    \/ ds = [ReleaseSlot; RecoverSilently]
    \/ ds = [RecoverSilently]
    \/ (ds = [] /\ p = false)
  | Unrecovered => False
  | _ => True
  end.

(** The slot the loop has taken for a cycle it has not launched yet. *)
Definition launchPending (s : System) : nat :=
  match loop s with
  | AtLaunch => 1
  | _ => 0
  end.

Definition invariant (s : System) : Prop :=
  Forall taskOK (tasks s)
  /\ semaphore s = (cyclesInFlight s + launchPending s)%nat
  /\ (semaphore s <= semaphoreCap)%nat.

(** The loop sleeps only once the cycle it launched has completed. *)
Definition sleepsAfterCycleCompletes (cfg : Config) : Prop :=
  forall s s',
    reachable cfg s -> loop s = AtWait -> exec cfg LoopStep s = Some s' ->
    cyclesInFlight s = 0%nat.

End Scheduler.

(** ** Character boundaries and markup bytes *)

Module Boundaries.

(** The decoding step at the head of [s] is not the replacement of an
    invalid byte: the condition [ValidString] checks at each step. *)
Definition stepOK (s : gostring) : bool :=
  negb ((fst (DecodeRune s) =? RuneError) && (snd (DecodeRune s) =? 1)%nat).

(** A rune of [s] starts at byte offset [i], by the steps of the decoder. *)
Inductive isStart : gostring -> nat -> Prop :=
  | isStart_here s : s <> [] -> isStart s 0
  | isStart_later s i :
      s <> [] -> isStart (drop (snd (DecodeRune s)) s) i ->
      isStart s (snd (DecodeRune s) + i).

(** The runes [rs] begin with as many runes as [re] has, each in the
    orbit of the rune of [re] at its place, by the relation [foldEq]. *)
Definition foldedPrefix (foldEq : Z -> Z -> bool) (re rs : list Z) : Prop :=
  exists matched rest,
    rs = matched ++ rest /\ Forall2 (fun p r => foldEq p r = true) re matched.

(** The marker [re] occurs in [s] at byte offset [i] up to case folding: a
    character of [s] starts at [i], and the characters of [s] from there on
    begin with the characters of the marker, each up to folding. *)
Definition occursFolded (foldEq : Z -> Z -> bool) (re : list Z) (s : gostring)
    (i : nat) : Prop :=
  isStart s i /\ foldedPrefix foldEq re (runes (drop i s)).

(** How often a byte occurs in a text, and a rune in a list of runes. *)
Definition countByte (b : byte) (s : gostring) : nat := count_occ byte_eq_dec s b.
Definition countRune (r : Z) (rs : list Z) : nat := count_occ Z.eq_dec rs r.

(** The two bytes that delimit a tag in Telegram's HTML mode. *)
Definition tagByte (a : byte) : Prop := a = Byte.x3c \/ a = Byte.x3e.

End Boundaries.

(** ** The pass over the target folders *)

Module Mailbox.
Import Formatter Resolver Delivery Dedup.

(** [getTargetFolders]: the loop over [config.Folders]. A rule whose folder
    is not found is logged and skipped; the others are entered in the map
    under the name of the rule. The result is the map, the COM calls made
    and the errors logged, in order. *)
Fixpoint getTargetFoldersLoop (ns : Namespace) (rules : list Folder)
    (folders : gmap gostring MAPIObject)
  : gmap gostring MAPIObject * list comCall * list resolveError :=
  match rules with
  | [] => (folders, [], [])
  | folderCfg :: rest =>
    let '(r, calls) := getFolder ns (Name folderCfg) in
    match r with
    | inr err =>
      let '(folders, restCalls, logged) := getTargetFoldersLoop ns rest folders in
      (folders, calls ++ restCalls, err :: logged)
    | inl folder =>
      let '(folders, restCalls, logged) :=
        getTargetFoldersLoop ns rest (<[Name folderCfg := folder]> folders) in
      (folders, calls ++ restCalls, logged)
    end
  end.

Definition getTargetFolders (cfg : Config) (ns : Namespace)
  : gmap gostring MAPIObject * list comCall * list resolveError :=
  getTargetFoldersLoop ns (Folders cfg) ∅.

(** The error a rule's folder resolves to, if it does not resolve. *)
Definition resolveFailure (ns : Namespace) (rule : Folder) : option resolveError :=
  match fst (getFolder ns (Name rule)) with
  | inr err => Some err
  | inl _ => None
  end.

Section ProcessFolders.

Variable foldEq : Z -> Z -> bool.

(** What the calls [Items], [Restrict("[UnRead] = true")] and [Count] on a
    folder deliver: [None] when one of them fails, else the items of the
    filtered collection in its order, each [None] when the call [Item(i)]
    for it fails. *)
Variable unread : MAPIObject -> option (list (option MailItem)).

Variable cfg : Config.

(** The loop [for i := 1; i <= count; i++] of [processFolders] over the
    items that remain. The [Release] calls change nothing of the world
    modelled here and are left out. *)
Fixpoint processItems (folderName : gostring) (items : list (option MailItem))
  : M unit :=
  match items with
  | [] => ret tt
  | item :: rest =>
    let! item := must item in
    let! _ := processEmail foldEq cfg item folderName in
    processItems folderName rest
  end.

(** [processFolders], over the entries of the map in the order in which the
    [range] statement yields them. *)
Fixpoint processFolders (folders : list (gostring * MAPIObject)) : M unit :=
  match folders with
  | [] => ret tt
  | (folderName, folder) :: rest =>
    let! filtered := must (unread folder) in
    let! _ := processItems folderName filtered in
    processFolders rest
  end.

(** The items a pass meets, with the name of their folder, in order. *)
Definition itemsInOrder (folders : list (gostring * MAPIObject))
  : list (gostring * option MailItem) :=
  flat_map (fun '(folderName, folder) =>
              map (pair folderName) (default [] (unread folder))) folders.

End ProcessFolders.

(** The identity of an item of a pass, when it can be read. *)
Definition entryOf (e : gostring * option MailItem) : option gostring :=
  match snd e with
  | Some item => EntryID item
  | None => None
  end.

(** An entry of a pass whose every read succeeds: the item is delivered by
    [Item(i)], it has an identity and its other properties can be read. *)
Definition entryOK (e : gostring * option MailItem) : Prop :=
  exists item id, snd e = Some item /\ EntryID item = Some id /\ readable item.

(** Every collection of the pass can be read and every entry is readable. *)
Definition passReadable (unread : MAPIObject -> option (list (option MailItem)))
    (folders : list (gostring * MAPIObject)) : Prop :=
  Forall (fun e => is_Some (unread (snd e))) folders
  /\ Forall entryOK (itemsInOrder unread folders).

(** What a pass over [entries] from [w] leaves in [w']: one exchange for each
    entry, in order, and the entry marked exactly when its own exchange
    succeeded. *)
Definition passEffect (entries : list (gostring * option MailItem))
    (w w' : World) : Prop :=
  calls w' = (calls w + length entries)%nat
  /\ network w' = network w
  /\ (forall id, id ∉ omap entryOf entries -> isProcessed id w' = isProcessed id w)
  /\ (forall k e id,
        entries !! k = Some e -> entryOf e = Some id ->
        (isProcessed id w' = true <-> succeeds (network w (calls w + k)%nat))).

(** A pass of one folder and its unread items. *)
Definition sampleFolders : list (gostring * MAPIObject) :=
  [(lit "Invoices", mkObject 3 (lit "Invoices") [])].

Definition sampleUnread (items : list MailItem) (folder : MAPIObject)
  : option (list (option MailItem)) :=
  Some (map Some items).

(** A second item, and a world with an empty cache in which the first
    exchange fails and the later ones succeed. *)
Definition secondItem : MailItem :=
  mkMailItem (Some (lit "00000000C3D4")) (Some (lit "Eve"))
             (Some (lit "eve@example.org")) (Some (lit "Report"))
             (Some (lit "See attachment")).

Definition recoveringWorld : World :=
  mkWorld ∅ (fun n => match n with
                      | O => DoFails
                      | S _ => Responds 200 (lit "{}")
                      end) 0 [] [].

(** A world in which the sample item is marked delivered. *)
Definition markedWorld : World :=
  mkWorld {[ lit "00000000A1B2" := true ]} (fun _ => DoFails) 0 [] [].

End Mailbox.

(** ** The COM handles of a resolution *)

Module Handles.
Import Resolver.

(** The folders a resolution released with [folder.Release()]. *)
Definition releasedFolders (calls : list comCall) : list nat :=
  omap (fun c => match c with ReleaseFolder folder => Some folder | _ => None end) calls.

(** The parents whose [Folders] collection a resolution obtained. *)
Definition openedCollections (calls : list comCall) : list nat :=
  omap (fun c => match c with CallFolders parent => Some parent | _ => None end) calls.

(** The parents whose [Folders] collection a resolution released. *)
Definition releasedCollections (calls : list comCall) : list nat :=
  omap (fun c => match c with ReleaseFolders parent => Some parent | _ => None end) calls.

(** The folder handle a resolution hands to its caller. *)
Definition handedOver (r : MAPIObject + resolveError) : list nat :=
  match r with
  | inl folder => [objID folder]
  | inr _ => []
  end.

(** The handles of a log are balanced up to the result: every folder
    obtained is released or handed over, every collection is released. *)
Definition balanced (r : (MAPIObject + resolveError) * list comCall) : Prop :=
  namesRead (snd r) ≡ₚ releasedFolders (snd r) ++ handedOver (fst r)
  /\ openedCollections (snd r) ≡ₚ releasedCollections (snd r).

End Handles.

(** ** The effects of one call of [processEmail] *)

Module Effects.
Import Delivery Dedup.

(** What a step leaves alone: the network, the cache entries of the other
    identities and every key of the cache; what it may add: at most one
    exchange, at most one request, and events. *)
Definition framed (keep : option gostring) (w w' : World) : Prop :=
  network w' = network w
  /\ (calls w' = calls w \/ calls w' = S (calls w))
  /\ (exists reqs, posted w' = posted w ++ reqs
                   /\ (length reqs <= calls w' - calls w)%nat)
  /\ (forall id, keep <> Some id ->
                 processedEmails w' !! id = processedEmails w !! id)
  /\ (forall id, is_Some (processedEmails w !! id) ->
                 is_Some (processedEmails w' !! id))
  /\ exists h, history w' = history w ++ h.

(** The sender text of [processEmail]: the name with the address in angle
    brackets, or the address alone when the name is empty or equal to the
    address. *)
Definition senderText (senderName senderEmail : gostring) : gostring :=
  if negb (bool_decide (senderName = []))
     && negb (bool_decide (senderName = senderEmail))
  then senderName ++ lit " <" ++ senderEmail ++ lit ">"
  else senderEmail.

End Effects.

(** ** The pacing of the cycles *)

Module Pacing.
Import Scheduler.

(** The sleep the loop owes for the cycle it has just launched. *)
Definition sleepPending (s : System) : nat :=
  match loop s with
  | AtWait => 1
  | _ => 0
  end.

(** Launches and sleeps alternate, and every sleep is the configured one. *)
Definition paced (cfg : Config) (s : System) : Prop :=
  length (tasks s) = (length (sleeps s) + sleepPending s)%nat
  /\ Forall (fun d => d = waitNextCheck cfg) (sleeps s).

End Pacing.

(** ** The log writers *)

Module Logging.
Import Formatter.

(** [strings.TrimSuffix]. *)
Definition TrimSuffix (s suffix : gostring) : gostring :=
  if bool_decide (drop (length s - length suffix) s = suffix)
     && (length suffix <=? length s)%nat
  then take (length s - length suffix) s
  else s.

(** [strings.Join]. *)
Fixpoint Join (elems : list gostring) (sep : gostring) : gostring :=
  match elems with
  | [] => []
  | [e] => e
  | e :: rest => e ++ sep ++ Join rest sep
  end.

(** The fields of [LogWriter] that [Write] reads and writes, with the text
    it sets on the label; the scroll position is left out. *)
Record LogWriter : Type := mkLogWriter {
  maxLines : Z;
  lines : list gostring;
  entryText : gostring
}.

(** [LogWriter.Write]; the slice expression [lw.lines[1:]] panics on an
    empty buffer. The result is the count returned (the error is always
    nil) and the writer after the call. *)
Definition LogWriterWrite (lw : LogWriter) (p : gostring) : outcome (Z * LogWriter) :=
  let newLine := TrimSuffix p nl in
  let* kept :=
    (if Z.of_nat (length (lines lw)) >=? maxLines lw then
       match lines lw with
       | [] => Panics SliceBoundsOutOfRange
       | _ :: rest => Returns rest
       end
     else Returns (lines lw)) in
  let lines := kept ++ [newLine] in
  Returns (Z.of_nat (length p), mkLogWriter (maxLines lw) lines (Join lines nl)).

(** The writes of [ps] one after the other. *)
Fixpoint writeAll (lw : LogWriter) (ps : list gostring) : outcome LogWriter :=
  match ps with
  | [] => Returns lw
  | p :: rest =>
    let* r := LogWriterWrite lw p in
    writeAll (snd r) rest
  end.

(** A log file: what has been written to it, and whether a write to it
    succeeds. *)
Record File : Type := mkFile {
  written : list gostring;
  writable : bool
}.

(** The writers [initLogger] puts behind the [io.Writer] interface. Neither
    has a [Flush] method, so the flush branch of [MultiWriter.Write] is not
    taken for them. *)
Inductive Writer : Type :=
  | FileWriter (f : File)
  | GuiWriter (lw : LogWriter).

Inductive writeError : Type :=
  | ErrFileWrite.

(** [w.Write(p)] through the interface. *)
Definition writerWrite (w : Writer) (p : gostring)
  : outcome (option writeError * Writer) :=
  match w with
  | FileWriter f =>
    if writable f then Returns (None, FileWriter (mkFile (written f ++ [p]) true))
    else Returns (Some ErrFileWrite, w)
  | GuiWriter lw =>
    let* r := LogWriterWrite lw p in
    Returns (None, GuiWriter (snd r))
  end.

(** [MultiWriter.Write] over the writers that remain; [None] is a nil
    entry of the slice. The result is the count, the error and the writers
    after the call. *)
Fixpoint MultiWriterWrite (writers : list (option Writer)) (p : gostring)
  : outcome (Z * option writeError * list (option Writer)) :=
  match writers with
  | [] => Returns (Z.of_nat (length p), None, [])
  | None :: rest =>
    let* r := MultiWriterWrite rest p in
    Returns (fst r, None :: snd r)
  | Some w :: rest =>
    let* r := writerWrite w p in
    match fst r with
    | Some err => Returns (0, Some err, Some (snd r) :: rest)
    | None =>
      let* r' := MultiWriterWrite rest p in
      Returns (fst r', Some (snd r) :: snd r')
    end
  end.

(** [initLogger], for a log file that could be opened: the writers it
    installs, the file first. *)
Definition initLogger (file : File) (consoleLoggingEnabled fileLoggingEnabled : bool)
    (logWriter : option LogWriter) : list (option Writer) :=
  (if fileLoggingEnabled then [Some (FileWriter file)] else [])
  ++ (if consoleLoggingEnabled then
        match logWriter with
        | Some lw => [Some (GuiWriter lw)]
        | None => []
        end
      else []).

End Logging.

(** ** The Outlook process *)

Module Processes.

(** A process of the list [process.Processes()] returns: its id, what
    [p.Name()] answers ([None] for an error) and whether [p.Kill()] fails. *)
Record Process : Type := mkProcess {
  Pid : Z;
  procName : option gostring;
  killFails : bool
}.

Definition outlookExe : gostring := lit "OUTLOOK.EXE".

Inductive processLog : Type :=
  | LogKilling (pid : Z)
  | LogKillFailed (pid : Z)
  | LogKilled (pid : Z).

Inductive processError : Type :=
  | ErrProcessList.

Section EqualFold.

(** Membership of two different runes in one orbit of [unicode.SimpleFold]. *)
Variable foldEq : Z -> Z -> bool.

(** [strings.EqualFold] on the runes of its arguments: the texts have the
    same number of runes, and runes at the same place are equal or fold to
    each other. *)
Fixpoint equalFoldRunes (s t : list Z) : bool :=
  match s, t with
  | [], [] => true
  | sr :: s', tr :: t' => ((sr =? tr) || foldEq sr tr) && equalFoldRunes s' t'
  | _, _ => false
  end.

Definition EqualFold (s t : gostring) : bool := equalFoldRunes (runes s) (runes t).

(** [isOutlookRunning]; [None] is the error of [process.Processes()]. *)
Definition isOutlookRunning (processes : option (list Process)) : bool :=
  match processes with
  | None => false
  | Some processes =>
    existsb (fun p => match procName p with
                      | Some name => EqualFold name outlookExe
                      | None => false
                      end) processes
  end.

End EqualFold.

(** The loop of [killOutlookProcess]: the processes on which [Kill] is
    called, in order, and the lines logged. *)
Fixpoint killLoop (processes : list Process) : list Z * list processLog :=
  match processes with
  | [] => ([], [])
  | p :: rest =>
    let '(killed, logged) := killLoop rest in
    match procName p with
    | None => (killed, logged)
    | Some name =>
      if bool_decide (name = outlookExe) then
        (Pid p :: killed,
         LogKilling (Pid p)
         :: (if killFails p then LogKillFailed (Pid p) else LogKilled (Pid p))
         :: logged)
      else (killed, logged)
    end
  end.

(** [killOutlookProcess]: the error returned, the processes on which
    [Kill] was called and the lines logged. *)
Definition killOutlookProcess (processes : option (list Process))
  : option processError * list Z * list processLog :=
  match processes with
  | None => (Some ErrProcessList, [], [])
  | Some processes =>
    let '(killed, logged) := killLoop processes in
    (None, killed, logged)
  end.

End Processes.

(** ** The validation of the configuration *)

Module Validation.
Import Scheduler.

(** The regular expressions of the two validators, in the fragment they
    use. A pattern is matched against the runes of the text. *)
Inductive regex : Type :=
  | Void                          (* matches nothing *)
  | Eps                           (* the empty text *)
  | OneOf (p : Z -> bool)         (* one rune of a class *)
  | Seq (r1 r2 : regex)
  | Alt (r1 r2 : regex)
  | Star (r : regex).

Definition Plus (r : regex) : regex := Seq r (Star r).

Fixpoint nullable (r : regex) : bool :=
  match r with
  | Void => false
  | Eps => true
  | OneOf _ => false
  | Seq r1 r2 => nullable r1 && nullable r2
  | Alt r1 r2 => nullable r1 || nullable r2
  | Star _ => true
  end.

(** What is left of [r] after the rune [a]. *)
Fixpoint deriv (a : Z) (r : regex) : regex :=
  match r with
  | Void => Void
  | Eps => Void
  | OneOf p => if p a then Eps else Void
  | Seq r1 r2 =>
    Alt (Seq (deriv a r1) r2) (if nullable r1 then deriv a r2 else Void)
  | Alt r1 r2 => Alt (deriv a r1) (deriv a r2)
  | Star r => Seq (deriv a r) (Star r)
  end.

Fixpoint matchRunes (r : regex) (rs : list Z) : bool :=
  match rs with
  | [] => nullable r
  | a :: rs' => matchRunes (deriv a r) rs'
  end.

(** [re.MatchString(s)] for a pattern [^r$]: without the flag [m] the two
    anchors are the ends of the text, so the whole text matches [r]. *)
Definition MatchWhole (r : regex) (s : gostring) : bool := matchRunes r (runes s).

Definition inRange (lo hi : Z) (a : Z) : bool := (lo <=? a) && (a <=? hi).

(** [\d], [\w] and the classes written out in the patterns; without the
    flag [i] and outside [(?U)] they hold ASCII only. *)
Definition digit (a : Z) : bool := inRange 0x30 0x39 a.
Definition word (a : Z) : bool :=
  inRange 0x30 0x39 a || inRange 0x41 0x5A a || (a =? 0x5F) || inRange 0x61 0x7A a.
Definition wordOrDash (a : Z) : bool := word a || (a =? 0x2D).
Definition runeIs (c : Z) (a : Z) : bool := a =? c.

(** [^\d+:[\w-]+$] *)
Definition botTokenPattern : regex :=
  Seq (Plus (OneOf digit)) (Seq (OneOf (runeIs 0x3A)) (Plus (OneOf wordOrDash))).

(** [^@[a-zA-Z0-9_]+$] *)
Definition channelPattern : regex := Seq (OneOf (runeIs 0x40)) (Plus (OneOf word)).

(** [isValidBotToken]. *)
Definition isValidBotToken (token : gostring) : bool := MatchWhole botTokenPattern token.

(** The digits of [strconv.ParseUint(s, 10, 64)] as a number without
    bound; [None] is the syntax error, on an empty text or on a byte that is
    not a decimal digit. *)
Fixpoint parseDigits (acc : Z) (s : gostring) : option Z :=
  match s with
  | [] => Some acc
  | c :: rest =>
    if inRange 0x30 0x39 (b2z c) then parseDigits (acc * 10 + (b2z c - 0x30)) rest
    else None
  end.

Definition ParseUint10 (s : gostring) : option Z :=
  match s with
  | [] => None
  | _ :: _ => parseDigits 0 s
  end.

(** [strconv.ParseInt(s, 10, 64)]: [None] is an error, of syntax or of
    range. *)
Definition ParseInt10 (s : gostring) : option Z :=
  match s with
  | [] => None
  | c :: rest =>
    let neg := bool_decide (c = Byte.x2d) in
    let digits := if bool_decide (c = Byte.x2b) || neg then rest else s in
    match ParseUint10 digits with
    | None => None
    | Some un =>
      if negb neg && (2 ^ 63 <=? un) then None
      else if neg && (2 ^ 63 <? un) then None
      else Some (if neg then - un else un)
    end
  end.

(** [isValidChatID]. *)
Definition isValidChatID (chatID : gostring) : bool :=
  if bool_decide (chatID = []) || bool_decide (chatID = lit "0") then true
  else if bool_decide (is_Some (ParseInt10 chatID)) then true
  else MatchWhole channelPattern chatID.

(** What [http.Get] on the bot's [getMe] URL and the decoding of the body
    deliver. *)
Inductive getMe : Type :=
  | GetFails
  | GetResponds (status : Z) (decoded : option (option bool)).
    (* [decoded]: [None] when [Decode] returns an error, the body being
       neither a JSON object nor [null]; else the value the map holds under
       the key [ok] when that is a boolean. The body [null] is decoded
       without error and leaves the map nil, in which no key is found. *)

Inductive accessError : Type :=
  | ErrRequest
  | ErrStatusCode (status : Z)
  | ErrDecode
  | ErrNotOk.

(** [checkBotAccess]: [None] is the nil error. *)
Definition checkBotAccess (answer : getMe) : option accessError :=
  match answer with
  | GetFails => Some ErrRequest
  | GetResponds status decoded =>
    if negb (status =? 200) then Some (ErrStatusCode status)
    else match decoded with
         | None => Some ErrDecode
         | Some (Some true) => None
         | Some _ => Some ErrNotOk
         end
  end.

(** The configuration with the fields the notifier itself does not read. *)
Record Settings : Type := mkSettings {
  coreConfig : Config;
  LoggingEnabled : bool;
  FileLoggingEnabled : bool;
  StartMinimized : bool;
  IP : gostring;
  Port : Z
}.

Inductive validationError : Type :=
  | BadBotToken
  | NoBotAccess (err : accessError)
  | BadDefaultChatID
  | BadCheckInterval
  | BadCutText
  | BadFolderName (i : nat)
  | BadFolderChatID (i : nat)
  | BadFolderLength (i : nat)
  | BadIP
  | BadPort.

(** The loop of [validateConfig] over the folders from index [i] on. *)
Fixpoint validateFolders (i : nat) (folders : list Folder) : option validationError :=
  match folders with
  | [] => None
  | folder :: rest =>
    if (length (Name folder) =? 0)%nat || (150 <? length (Name folder))%nat
    then Some (BadFolderName i)
    else if negb (isValidChatID (ChatID folder)) then Some (BadFolderChatID i)
    else if (MessageLength folder <? 0) || (4000 <? MessageLength folder)
    then Some (BadFolderLength i)
    else validateFolders (S i) rest
  end.

(** [validateConfig]; [None] is the nil error. The checks that a boolean
    field is true or false cannot fail and are left out. *)
Definition validateConfig (st : Settings) (answer : getMe) : option validationError :=
  let config := coreConfig st in
  if negb (isValidBotToken (BotToken config)) then Some BadBotToken
  else match checkBotAccess answer with
  | Some err => Some (NoBotAccess err)
  | None =>
    if negb (isValidChatID (DefaultChatID config)) then Some BadDefaultChatID
    else if (CheckIntervalSeconds config <? 0) || (1000 <? CheckIntervalSeconds config)
    then Some BadCheckInterval
    else if negb (length (CutText config) =? 0)%nat && (length (CutText config) <? 4)%nat
    then Some BadCutText
    else match validateFolders 0 (Folders config) with
    | Some err => Some err
    | None =>
      if negb (bool_decide (IP st = lit "127.0.0.1"))
         && negb (bool_decide (IP st = lit "0.0.0.0"))
      then Some BadIP
      else if (Port st <? 1024) || (49151 <? Port st) then Some BadPort
      else None
    end
  end.

(** Every class of [r] lies within [P]. *)
Fixpoint within (P : Z -> bool) (r : regex) : Prop :=
  match r with
  | Void | Eps => True
  | OneOf p => forall a, p a = true -> P a = true
  | Seq r1 r2 | Alt r1 r2 => within P r1 /\ within P r2
  | Star r => within P r
  end.

(** A pattern that matches nothing, by its form. *)
Fixpoint dead (r : regex) : bool :=
  match r with
  | Void => true
  | Eps | OneOf _ | Star _ => false
  | Seq r1 r2 => dead r1 || dead r2
  | Alt r1 r2 => dead r1 && dead r2
  end.

(** What a bot token can hold: ASCII letters, digits and the three signs
    [_ - :]. *)
Definition tokenRune (a : Z) : bool := word a || (a =? 0x2D) || (a =? 0x3A).
Definition tokenByte (b : byte) : bool := tokenRune (b2z b).

(** What a chat id can hold: ASCII letters, digits and the four signs
    [_ - + @]. *)
Definition chatRune (a : Z) : bool :=
  word a || (a =? 0x2D) || (a =? 0x2B) || (a =? 0x40).
Definition chatByte (b : byte) : bool := chatRune (b2z b).

(** The bytes of the request URL: those of a token, the slash and the dot. *)
Definition urlByte (b : byte) : bool :=
  tokenByte b || bool_decide (b = Byte.x2f) || bool_decide (b = Byte.x2e).

(** A folder rule passes the three checks of the loop. *)
Definition folderAccepted (folder : Folder) : Prop :=
  (1 <= length (Name folder) <= 150)%nat
  /\ isValidChatID (ChatID folder) = true
  /\ 0 <= MessageLength folder <= 4000.

(** The check that [err] reports is the first of the three, in the order
    name, chat id, message length, that fails on [folder]: the checks
    before it pass. *)
Definition offends (folder : Folder) (i : nat) (err : validationError) : Prop :=
  (err = BadFolderName i
   /\ (length (Name folder) = 0%nat \/ (150 < length (Name folder))%nat))
  \/ (err = BadFolderChatID i
      /\ (1 <= length (Name folder) <= 150)%nat
      /\ isValidChatID (ChatID folder) = false)
  \/ (err = BadFolderLength i
      /\ (1 <= length (Name folder) <= 150)%nat
      /\ isValidChatID (ChatID folder) = true
      /\ (MessageLength folder < 0 \/ 4000 < MessageLength folder)).

(** A configuration that passes the validation. *)
Definition sampleSettings : Settings :=
  mkSettings
    (mkConfig (lit "123456:AB-cd_9") (lit "-1001234567890") false 30 (lit "--END--")
              [mkFolder (lit "Invoices") (lit "@invoices") 50])
    true false false (lit "127.0.0.1") 8080.

End Validation.

(** ** One cycle of [mainLogic] *)

Module Cycle.
Import Resolver Delivery Dedup Mailbox Processes.

(** What the provider calls of [initializeOutlook] deliver; [None] is the
    error of the call, and for [GetNamespace], made with [MustCallMethod],
    the panic. The handles are the identities of the objects. *)
Record Provider : Type := mkProvider {
  activeObject : option nat;        (* ole.GetActiveObject *)
  createdObject : option nat;       (* oleutil.CreateObject *)
  queryInterface : nat -> option nat;
  getNamespace : nat -> option Namespace
}.

Inductive initError : Type :=
  | ErrCreateObject
  | ErrQueryInterface.

Inductive cycleLog : Type :=
  | LogCancelled
  | LogNotRunning
  | LogStartError
  | LogNoActiveObject
  | LogInitError (err : initError)
  | LogKillError
  | LogRetry
  | LogFolderError (err : resolveError)
  | LogNoFolders
  | LogProcess (line : processLog).

(** The COM objects a cycle holds: an object with an identity (the
    application, the namespace, a folder) or an object obtained from one. *)
Inductive handle : Type :=
  | HObject (id : nat)
  | HFoldersOf (parent : nat)        (* the [Folders] collection of an object *)
  | HItemsOf (folder : nat)          (* the [Items] collection of a folder *)
  | HFilteredOf (folder : nat)       (* what [Restrict] delivers on it *)
  | HItem (folder : nat) (i : nat).  (* [Item(i)] of the filtered collection *)


(** What a cycle does besides its changes to the world, in order. The
    [Release] calls of the folder search are among the calls [EvCom]
    carries. *)
Inductive cycleEvent : Type :=
  | EvLog (line : cycleLog)
  | EvSleep (seconds : Z)
  | EvComAdd                 (* comshim.Add(1) *)
  | EvComDone                (* comshim.Done() *)
  | EvSlotReleased           (* <-semaphore *)
  | EvStartOutlook
  | EvKill (pid : Z)
  | EvCom (call : comCall)
  | EvRelease (h : handle).

(** [initializeOutlook]: the application and namespace, or the error, with
    the lines logged. *)
Definition initializeOutlook (pv : Provider)
  : outcome ((nat * Namespace) + initError) * list cycleEvent :=
  let withUnknown (unknown : nat) (logged : list cycleEvent) :=
    match queryInterface pv unknown with
    | None => (Returns (inr ErrQueryInterface), logged)
    | Some outlook =>
      match getNamespace pv outlook with
      | None => (Panics ComCallFailed, logged)
      | Some ns => (Returns (inl (outlook, ns)), logged)
      end
    end in
  match activeObject pv with
  | Some unknown => withUnknown unknown []
  | None =>
    match createdObject pv with
    | None => (Returns (inr ErrCreateObject), [EvLog LogNoActiveObject])
    | Some unknown => withUnknown unknown [EvLog LogNoActiveObject]
    end
  end.

(** [releaseObjects]. *)
Definition releaseObjects (objs : list (option nat)) : list cycleEvent :=
  omap (fun obj => match obj with
                   | Some id => Some (EvRelease (HObject id))
                   | None => None
                   end) objs.

(** What the calls of [processFolders] on a folder deliver: the call
    [Items], the call [Restrict] on its result or the read of [Count] fails,
    or the filtered collection has these items in its order, each [None]
    when the call [Item(i)] for it fails. *)
Inductive folderView : Type :=
  | ItemsFails
  | RestrictFails
  | CountFails
  | Unread (items : list (option MailItem)).

Definition unreadItems (v : folderView) : option (list (option MailItem)) :=
  match v with
  | Unread items => Some items
  | _ => None
  end.

(** What surrounds one cycle. *)
Record Surroundings : Type := mkSurroundings {
  cancelledAtStart : bool;          (* ctx.Err() != nil at the first check *)
  processes : option (list Process);      (* the list [isOutlookRunning] reads *)
  startFails : bool;                (* startOutlook returns an error *)
  cancelledAfterStart : bool;       (* ctx.Err() != nil at the second check *)
  provider : Provider;
  processesAtKill : option (list Process);(* the list [killOutlookProcess] reads *)
  viewOf : MAPIObject -> folderView;
  rangeOrder : gmap gostring MAPIObject -> list (gostring * MAPIObject)
    (* the order in which [range] yields the entries of the map *)
}.

Section CycleBody.

Variable foldEq : Z -> Z -> bool.
Variable cfg : Config.

(** The item loop of [processFolders] with its [Release] calls: an item is
    released when [processEmail] has returned for it; when [Item(i)] or
    [processEmail] panics the loop ends there and the item is not
    released. *)
Fixpoint processItemsTraced (folderName : gostring) (folder : nat) (i : nat)
    (items : list (option MailItem)) (w : World)
  : outcome unit * World * list handle :=
  match items with
  | [] => (Returns tt, w, [])
  | None :: _ => (Panics ComCallFailed, w, [])
  | Some item :: rest =>
    match processEmail foldEq cfg item folderName w with
    | (Panics p, w') => (Panics p, w', [])
    | (Returns _, w') =>
      let '(o, w'', released) := processItemsTraced folderName folder (S i) rest w' in
      (o, w'', HItem folder i :: released)
    end
  end.

(** The loop of [processFolders] over the entries that remain, with the
    [Release] calls made so far by the item loops and the calls deferred, the
    last deferred first. *)
Fixpoint processFoldersLoop (view : MAPIObject -> folderView)
    (folders : list (gostring * MAPIObject)) (w : World) (deferred : list handle)
  : outcome unit * World * list handle * list handle :=
  match folders with
  | [] => (Returns tt, w, [], deferred)
  | (folderName, folder) :: rest =>
    let f := objID folder in
    match view folder with
    | ItemsFails => (Panics ComCallFailed, w, [], deferred)
    | RestrictFails => (Panics ComCallFailed, w, [], HItemsOf f :: deferred)
    | CountFails =>
      (Panics ComCallFailed, w, [], HFilteredOf f :: HItemsOf f :: deferred)
    | Unread items =>
      let deferred := HFilteredOf f :: HItemsOf f :: deferred in
      match processItemsTraced folderName f 1 items w with
      | (Panics p, w', released) => (Panics p, w', released, deferred)
      | (Returns _, w', released) =>
        let '(o, w'', later, deferred) := processFoldersLoop view rest w' deferred in
        (o, w'', released ++ later, deferred)
      end
    end
  end.

(** [processFolders] with its [Release] calls in the order in which they are
    made: those of the item loops, then the deferred ones, which run when the
    function returns and when it panics. *)
Definition processFoldersTraced (view : MAPIObject -> folderView)
    (folders : list (gostring * MAPIObject)) (w : World)
  : outcome unit * World * list handle :=
  let '(o, w', released, deferred) := processFoldersLoop view folders w [] in
  (o, w', released ++ deferred).

(** The statements of the closure from [initializeOutlook] on; [evs] holds
    what the cycle has done before. The calls of [getTargetFolders] come
    before the lines it logs, and the lines of [killOutlookProcess] before
    its kills: their interleaving is not kept. *)
Definition sessionWork (sr : Surroundings) (w : World) (evs : list cycleEvent)
  : outcome unit * World * list cycleEvent :=
  let '(session, initLog) := initializeOutlook (provider sr) in
  let evs := evs ++ initLog in
  match session with
  | Panics p => (Panics p, w, evs)
  | Returns (inr err) =>
    let '(killErr, killed, killLog) := killOutlookProcess (processesAtKill sr) in
    (Returns tt, w,
     evs ++ [EvLog (LogInitError err)]
         ++ map (fun l => EvLog (LogProcess l)) killLog
         ++ map EvKill killed
         ++ [EvLog (match killErr with Some _ => LogKillError | None => LogRetry end)])
  | Returns (inl (outlook, ns)) =>
    let '(folders, calls, logged) := getTargetFolders cfg ns in
    let evs := evs ++ map EvCom calls ++ map (fun e => EvLog (LogFolderError e)) logged in
    if bool_decide (folders = ∅) then
      (Returns tt, w,
       evs ++ [EvLog LogNoFolders]
           ++ releaseObjects [Some outlook; Some (objID (nsObject ns))])
    else
      match processFoldersTraced (viewOf sr) (rangeOrder sr folders) w with
      | (Panics p, w', released) => (Panics p, w', evs ++ map EvRelease released)
      | (Returns _, w', released) =>
        (Returns tt, w',
         evs ++ map EvRelease released
             ++ releaseObjects [Some outlook; Some (objID (nsObject ns))])
      end
  end.

(** The statements of the closure from [isOutlookRunning] on, after
    [comshim.Add(1)]. *)
Definition cycleWork (sr : Surroundings) (w : World)
  : outcome unit * World * list cycleEvent :=
  if isOutlookRunning foldEq (processes sr) then sessionWork sr w []
  else if startFails sr then
    (Returns tt, w, [EvLog LogNotRunning; EvStartOutlook; EvLog LogStartError])
  else if cancelledAfterStart sr then
    (Returns tt, w, [EvLog LogNotRunning; EvStartOutlook; EvLog LogCancelled])
  else sessionWork sr w [EvLog LogNotRunning; EvStartOutlook; EvSleep 45].

(** The closure [mainLogic] hands to [safeGoNoLog], with its deferred calls
    run at the end, on a return as on a panic: [comshim.Done()] when it was
    deferred, then the receive from the semaphore. *)
Definition cycleBody (sr : Surroundings) (w : World)
  : outcome unit * World * list cycleEvent :=
  if cancelledAtStart sr then (Returns tt, w, [EvLog LogCancelled; EvSlotReleased])
  else
    let '(o, w', evs) := cycleWork sr w in
    (o, w', [EvSleep 1; EvComAdd] ++ evs ++ [EvComDone; EvSlotReleased]).

End CycleBody.

(** The object a call of the folder search releases. *)
Definition releaseOfCall (call : comCall) : option handle :=
  match call with
  | ReleaseFolders parent => Some (HFoldersOf parent)
  | ReleaseFolder folder => Some (HObject folder)
  | _ => None
  end.

(** Every [Release] call of a cycle, in order: those of the folder search,
    those of [processFolders] and those of [releaseObjects]. *)
Definition releases (evs : list cycleEvent) : list handle :=
  omap (fun e => match e with
                 | EvRelease h => Some h
                 | EvCom call => releaseOfCall call
                 | _ => None
                 end) evs.





(** A cycle on the sample namespace with Outlook running: the application
    has the identity 100, the rule names the folder [Reports], which holds
    one unread item. *)
Definition reportsConfig : Config :=
  mkConfig [] [] false 10 [] [mkFolder (lit "Reports") [] 50].

Definition sampleSurroundings (view : folderView) : Surroundings :=
  mkSurroundings false (Some [mkProcess 7 (Some (lit "outlook.exe")) false])
                 false false
                 (mkProvider (Some 50%nat) None (fun _ => Some 100%nat)
                             (fun _ => Some sampleNamespace))
                 None (fun _ => view) map_to_list.

End Cycle.

(** * Properties *)

(** ** UTF-8 decoding and encoding *)

Ltac split_if :=
  match goal with
  | |- context [if ?c then _ else _] => destruct c eqn:?; try lia
  end.

Ltac split_if_hyps :=
  repeat match goal with
         | H : context [if ?c then _ else _] |- _ => destruct c eqn:?
         end.

Section GoStringFacts.

#[local] Ltac Zify.zify_post_hook ::= Z.to_euclidean_division_equations.

Lemma land_shifted_low (hi lo k : Z) :
  0 <= k -> 0 <= lo < 2 ^ k -> Z.land (hi * 2 ^ k) lo = 0.
Proof.
  intros Hk Hlo. apply Z.bits_inj'. intros n Hn.
  rewrite Z.land_spec, Z.bits_0.
  destruct (Z.lt_ge_cases n k) as [Hlt|Hge].
  - rewrite Z.mul_pow2_bits_low by lia. reflexivity.
  - assert (Z.testbit lo n = false) as ->; [|apply andb_false_r].
    destruct (Z.eq_dec lo 0) as [->|Hnz]; [apply Z.bits_0|].
    apply Z.bits_above_log2; [lia|].
    apply Z.lt_le_trans with k; [|lia].
    apply Z.log2_lt_pow2; lia.
Qed.

Lemma lor_mul_add (hi lo k : Z) :
  0 <= k -> 0 <= lo < 2 ^ k -> Z.lor (hi * 2 ^ k) lo = hi * 2 ^ k + lo.
Proof.
  intros Hk Hlo.
  pose proof (land_shifted_low hi lo k Hk Hlo) as Hd.
  rewrite <- Z.lxor_lor by exact Hd.
  symmetry. apply Z.add_nocarry_lxor. exact Hd.
Qed.

Lemma land_ones_mod (x k : Z) : 0 <= k -> Z.land x (2 ^ k - 1) = x mod 2 ^ k.
Proof.
  intros Hk. replace (2 ^ k - 1) with (Z.ones k) by (rewrite Z.ones_equiv; lia).
  apply Z.land_ones. exact Hk.
Qed.

Lemma land_maskx x : Z.land x maskx = x mod 64.
Proof. apply (land_ones_mod x 6). lia. Qed.
Lemma land_mask2 x : Z.land x mask2 = x mod 32.
Proof. apply (land_ones_mod x 5). lia. Qed.
Lemma land_mask3 x : Z.land x mask3 = x mod 16.
Proof. apply (land_ones_mod x 4). lia. Qed.
Lemma land_mask4 x : Z.land x mask4 = x mod 8.
Proof. apply (land_ones_mod x 3). lia. Qed.

Lemma lor_shiftl6 (a b : Z) :
  0 <= b < 64 -> Z.lor (Z.shiftl a 6) b = a * 64 + b.
Proof.
  intros Hb. rewrite Z.shiftl_mul_pow2 by lia. apply (lor_mul_add a b 6); lia.
Qed.

Lemma lor_shiftl12 (a b c : Z) :
  0 <= b < 64 -> 0 <= c < 64 ->
  Z.lor (Z.lor (Z.shiftl a 12) (Z.shiftl b 6)) c = a * 4096 + b * 64 + c.
Proof.
  intros Hb Hc.
  replace (Z.shiftl a 12) with (Z.shiftl (Z.shiftl a 6) 6)
    by (rewrite Z.shiftl_shiftl by lia; reflexivity).
  rewrite <- Z.shiftl_lor, (lor_shiftl6 a b Hb), lor_shiftl6 by exact Hc. lia.
Qed.

Lemma lor_shiftl18 (a b c d : Z) :
  0 <= b < 64 -> 0 <= c < 64 -> 0 <= d < 64 ->
  Z.lor (Z.lor (Z.lor (Z.shiftl a 18) (Z.shiftl b 12)) (Z.shiftl c 6)) d
  = a * 262144 + b * 4096 + c * 64 + d.
Proof.
  intros Hb Hc Hd.
  replace (Z.shiftl a 18) with (Z.shiftl (Z.shiftl a 6) 12)
    by (rewrite Z.shiftl_shiftl by lia; reflexivity).
  replace (Z.shiftl b 12) with (Z.shiftl (Z.shiftl b 6) 6)
    by (rewrite Z.shiftl_shiftl by lia; reflexivity).
  replace (Z.shiftl (Z.shiftl a 6) 12) with (Z.shiftl (Z.shiftl (Z.shiftl a 6) 6) 6)
    by (rewrite (Z.shiftl_shiftl (Z.shiftl a 6)) by lia; reflexivity).
  rewrite <- !Z.shiftl_lor.
  rewrite (lor_shiftl6 a b Hb), (lor_shiftl6 _ c Hc), lor_shiftl6 by exact Hd.
  lia.
Qed.

Lemma lor_tag (tag lo k : Z) :
  0 <= k -> 0 <= lo < 2 ^ k -> tag mod 2 ^ k = 0 -> Z.lor tag lo = tag + lo.
Proof.
  intros Hk Hlo Hm.
  rewrite (Z.div_mod tag (2 ^ k)) at 1 2 by lia.
  rewrite Hm, Z.add_0_r, (Z.mul_comm (2 ^ k)).
  apply lor_mul_add; assumption.
Qed.

Lemma b2z_range (b : byte) : 0 <= b2z b < 256.
Proof. unfold b2z. pose proof (Byte.to_N_bounded b). lia. Qed.

Lemma z2b_b2z (b : byte) : z2b (b2z b) = b.
Proof. unfold z2b, b2z. rewrite N2Z.id, Byte.of_to_N. reflexivity. Qed.

Lemma b2z_z2b (z : Z) : 0 <= z < 256 -> b2z (z2b z) = z.
Proof.
  intros Hz. unfold z2b, b2z.
  destruct (Byte.of_N (Z.to_N z)) as [b|] eqn:E.
  - apply Byte.to_of_N in E. rewrite E. lia.
  - apply Byte.of_N_None_iff in E. lia.
Qed.

Lemma b2z_byteOf (x : Z) : b2z (byteOf x) = x mod 256.
Proof. unfold byteOf. apply b2z_z2b. apply Z.mod_pos_bound. lia. Qed.

Lemma shiftr_div (r k : Z) : 0 <= k -> Z.shiftr r k = r / 2 ^ k.
Proof. intros. apply Z.shiftr_div_pow2. lia. Qed.

(** [EncodeRune] in arithmetic form, by the length of the sequence. *)
Lemma EncodeRune_1 r : 0 <= r <= 0x7F -> EncodeRune r = [z2b r].
Proof.
  intros H. unfold EncodeRune.
  replace ((0 <=? r) && (r <=? 127)) with true by (symmetry; apply andb_true_iff; lia).
  unfold byteOf. rewrite Z.mod_small by lia. reflexivity.
Qed.

Lemma EncodeRune_2 r : 0x7F < r <= 0x7FF ->
  EncodeRune r = [z2b (192 + r / 64); z2b (128 + r mod 64)].
Proof.
  intros H. unfold EncodeRune.
  replace ((0 <=? r) && (r <=? 127)) with false by (symmetry; apply andb_false_iff; lia).
  replace ((0 <=? r) && (r <=? 2047)) with true by (symmetry; apply andb_true_iff; lia).
  rewrite !b2z_byteOf, !land_maskx, !shiftr_div by lia.
  rewrite (lor_tag t2 _ 6), (lor_tag tx _ 6); unfold t2, tx; try lia.
  unfold byteOf. f_equal; [|f_equal]; f_equal; lia.
Qed.

Lemma EncodeRune_3 r : 0x7FF < r <= 0xFFFF -> ~ (surrogateMin <= r <= surrogateMax) ->
  EncodeRune r = [z2b (224 + r / 4096); z2b (128 + (r / 64) mod 64); z2b (128 + r mod 64)].
Proof.
  intros H Hs. unfold surrogateMin, surrogateMax in Hs. unfold EncodeRune.
  replace ((0 <=? r) && (r <=? 127)) with false by (symmetry; apply andb_false_iff; lia).
  replace ((0 <=? r) && (r <=? 2047)) with false by (symmetry; apply andb_false_iff; lia).
  replace ((r <? 0) || (MaxRune <? r) || ((surrogateMin <=? r) && (r <=? surrogateMax)))
    with false.
  2:{ symmetry. unfold MaxRune, surrogateMin, surrogateMax.
      rewrite !orb_false_iff, andb_false_iff. lia. }
  replace (r <=? 65535) with true by (symmetry; lia).
  rewrite !b2z_byteOf, !land_maskx, !shiftr_div by lia.
  rewrite (lor_tag t3 _ 5), !(lor_tag tx _ 6); unfold t3, tx; try lia.
  unfold byteOf. f_equal; [|f_equal; [|f_equal]]; f_equal; lia.
Qed.

Lemma EncodeRune_4 r : 0xFFFF < r <= MaxRune ->
  EncodeRune r = [z2b (240 + r / 262144); z2b (128 + (r / 4096) mod 64);
                  z2b (128 + (r / 64) mod 64); z2b (128 + r mod 64)].
Proof.
  intros H. unfold MaxRune in H. unfold EncodeRune.
  replace ((0 <=? r) && (r <=? 127)) with false by (symmetry; apply andb_false_iff; lia).
  replace ((0 <=? r) && (r <=? 2047)) with false by (symmetry; apply andb_false_iff; lia).
  replace ((r <? 0) || (MaxRune <? r) || ((surrogateMin <=? r) && (r <=? surrogateMax)))
    with false.
  2:{ symmetry. unfold MaxRune, surrogateMin, surrogateMax.
      rewrite !orb_false_iff, andb_false_iff. lia. }
  replace (r <=? 65535) with false by (symmetry; lia).
  rewrite !b2z_byteOf, !land_maskx, !shiftr_div by lia.
  rewrite (lor_tag t4 _ 4), !(lor_tag tx _ 6); unfold t4, tx; try lia.
  unfold byteOf. f_equal; [|f_equal; [|f_equal; [|f_equal]]]; f_equal; lia.
Qed.

Lemma DecodeRune_1 c0 t : b2z c0 < 0x80 -> DecodeRune (c0 :: t) = (b2z c0, 1%nat).
Proof.
  intros H. unfold DecodeRune, byteAt. cbn [length nth].
  replace (Z.of_nat (S (length t)) <? 1) with false by (symmetry; lia).
  replace (b2z c0 <? 128) with true by (symmetry; lia). reflexivity.
Qed.

Lemma DecodeRune_2 c0 c1 t :
  0xC2 <= b2z c0 <= 0xDF -> 0x80 <= b2z c1 <= 0xBF ->
  DecodeRune (c0 :: c1 :: t) = ((b2z c0 mod 32) * 64 + b2z c1 mod 64, 2%nat).
Proof.
  intros H0 H1. unfold DecodeRune, byteAt. cbn [length nth].
  replace (Z.of_nat (S (S (length t))) <? 1) with false by (symmetry; lia).
  replace (b2z c0 <? 128) with false by (symmetry; lia).
  unfold leadClass.
  replace ((194 <=? b2z c0) && (b2z c0 <=? 223)) with true by (symmetry; apply andb_true_iff; lia).
  replace (Z.of_nat (S (S (length t))) <? 2) with false by (symmetry; lia).
  unfold locb, hicb.
  replace ((b2z c1 <? 128) || (191 <? b2z c1)) with false by (symmetry; apply orb_false_iff; lia).
  cbn [Z.leb Z.compare Pos.compare Pos.compare_cont].
  rewrite land_mask2, land_maskx, lor_shiftl6; [reflexivity|lia].
Qed.

Lemma leadClass_spec s0 sz lo hi :
  leadClass s0 = Some (sz, lo, hi) ->
  (sz = 2 /\ lo = 0x80 /\ hi = 0xBF /\ 0xC2 <= s0 <= 0xDF) \/
  (sz = 3 /\ 0xE0 <= s0 <= 0xEF /\
     lo = (if s0 =? 0xE0 then 0xA0 else 0x80) /\
     hi = (if s0 =? 0xED then 0x9F else 0xBF)) \/
  (sz = 4 /\ 0xF0 <= s0 <= 0xF4 /\
     lo = (if s0 =? 0xF0 then 0x90 else 0x80) /\
     hi = (if s0 =? 0xF4 then 0x8F else 0xBF)).
Proof.
  unfold leadClass, locb, hicb. intros H.
  repeat match type of H with
         | (if ?c then _ else _) = _ => destruct c eqn:?
         end; inversion H; subst; clear H;
  repeat match goal with
         | |- context [if ?c then _ else _] => destruct c eqn:?; try lia
         end; lia.
Qed.

Lemma DecodeRune_3 c0 c1 c2 t lo hi :
  leadClass (b2z c0) = Some (3, lo, hi) ->
  lo <= b2z c1 <= hi -> 0x80 <= b2z c2 <= 0xBF ->
  DecodeRune (c0 :: c1 :: c2 :: t)
  = ((b2z c0 mod 16) * 4096 + (b2z c1 mod 64) * 64 + b2z c2 mod 64, 3%nat).
Proof.
  intros Hc H1 H2. pose proof (leadClass_spec _ _ _ _ Hc) as Hs.
  unfold DecodeRune, byteAt. cbn [length nth]. rewrite Hc.
  unfold locb, hicb.
  repeat split_if.
  rewrite land_mask3, !land_maskx, lor_shiftl12; [reflexivity|lia|lia].
Qed.

Lemma DecodeRune_4 c0 c1 c2 c3 t lo hi :
  leadClass (b2z c0) = Some (4, lo, hi) ->
  lo <= b2z c1 <= hi -> 0x80 <= b2z c2 <= 0xBF -> 0x80 <= b2z c3 <= 0xBF ->
  DecodeRune (c0 :: c1 :: c2 :: c3 :: t)
  = ((b2z c0 mod 8) * 262144 + (b2z c1 mod 64) * 4096
     + (b2z c2 mod 64) * 64 + b2z c3 mod 64, 4%nat).
Proof.
  intros Hc H1 H2 H3. pose proof (leadClass_spec _ _ _ _ Hc) as Hs.
  unfold DecodeRune, byteAt. cbn [length nth]. rewrite Hc.
  unfold locb, hicb.
  repeat split_if.
  rewrite land_mask4, !land_maskx, lor_shiftl18; [reflexivity|lia|lia|lia].
Qed.

Lemma DecodeRune_width s :
  s <> [] -> (1 <= snd (DecodeRune s) <= length s)%nat.
Proof.
  destruct s as [|c0 t]; [congruence|intros _].
  unfold DecodeRune. cbn [length].
  destruct (leadClass (byteAt (c0 :: t) 0)) as [[[sz lo] hi]|] eqn:Hc.
  - apply leadClass_spec in Hc.
    repeat split_if; cbn [snd]; lia.
  - repeat split_if; cbn [snd]; lia.
Qed.

Lemma DecodeRune_valid s : s <> [] -> validRune (fst (DecodeRune s)).
Proof.
  destruct s as [|c0 t]; [congruence|intros _].
  unfold DecodeRune, validRune, RuneError, surrogateMin, surrogateMax, MaxRune.
  cbn [length].
  pose proof (b2z_range (nth 0 (c0 :: t) Byte.x00)) as R0.
  pose proof (b2z_range (nth 1 (c0 :: t) Byte.x00)) as R1.
  pose proof (b2z_range (nth 2 (c0 :: t) Byte.x00)) as R2.
  pose proof (b2z_range (nth 3 (c0 :: t) Byte.x00)) as R3.
  unfold byteAt.
  set (s0 := b2z (nth 0 (c0 :: t) Byte.x00)) in *.
  set (s1 := b2z (nth 1 (c0 :: t) Byte.x00)) in *.
  set (s2 := b2z (nth 2 (c0 :: t) Byte.x00)) in *.
  set (s3 := b2z (nth 3 (c0 :: t) Byte.x00)) in *.
  destruct (leadClass s0) as [[[sz lo] hi]|] eqn:Hc.
  - apply leadClass_spec in Hc. unfold locb, hicb.
    repeat split_if; cbn [fst]; try lia.
    + rewrite land_mask2, land_maskx, lor_shiftl6 by lia.
      destruct Hc as [Hc|[Hc|Hc]]; lia.
    + rewrite land_mask3, !land_maskx, lor_shiftl12 by lia.
      destruct Hc as [Hc|[Hc|Hc]]; try lia.
      destruct Hc as (_ & Hr & -> & ->). 
      repeat match goal with H : context [if ?c then _ else _] |- _ => destruct c eqn:? end; lia.
    + rewrite land_mask4, !land_maskx, lor_shiftl18 by lia.
      destruct Hc as [Hc|[Hc|Hc]]; try lia.
      destruct Hc as (_ & Hr & -> & ->). 
      repeat match goal with H : context [if ?c then _ else _] |- _ => destruct c eqn:? end; lia.
  - repeat split_if; cbn [fst]; lia.
Qed.

Lemma leadClass_3 s0 : 0xE0 <= s0 <= 0xEF ->
  leadClass s0 = Some (3, (if s0 =? 0xE0 then 0xA0 else 0x80), (if s0 =? 0xED then 0x9F else 0xBF)).
Proof.
  intros H. unfold leadClass, locb, hicb. repeat split_if; reflexivity.
Qed.

Lemma leadClass_4 s0 : 0xF0 <= s0 <= 0xF4 ->
  leadClass s0 = Some (4, (if s0 =? 0xF0 then 0x90 else 0x80), (if s0 =? 0xF4 then 0x8F else 0xBF)).
Proof.
  intros H. unfold leadClass, locb, hicb. repeat split_if; reflexivity.
Qed.

Lemma DecodeRune_EncodeRune r rest :
  validRune r ->
  DecodeRune (EncodeRune r ++ rest) = (r, length (EncodeRune r)).
Proof.
  unfold validRune, surrogateMin, surrogateMax, MaxRune. intros Hv.
  destruct (Z_le_gt_dec r 0x7F) as [H1|H1].
  { rewrite EncodeRune_1 by lia. cbn [app length].
    rewrite DecodeRune_1; rewrite b2z_z2b by lia; [reflexivity|lia]. }
  destruct (Z_le_gt_dec r 0x7FF) as [H2|H2].
  { rewrite EncodeRune_2 by lia. cbn [app length].
    rewrite DecodeRune_2; rewrite ?b2z_z2b by lia; [|lia|lia].
    f_equal. lia. }
  destruct (Z_le_gt_dec r 0xFFFF) as [H3|H3].
  { rewrite EncodeRune_3 by (unfold surrogateMin, surrogateMax; lia).
    cbn [app length].
    erewrite DecodeRune_3; rewrite ?b2z_z2b by lia.
    - f_equal. lia.
    - apply leadClass_3. lia.
    - repeat split_if.
    - lia. }
  rewrite EncodeRune_4 by (unfold MaxRune; lia).
  cbn [app length].
  erewrite DecodeRune_4; rewrite ?b2z_z2b by lia.
  - f_equal. lia.
  - apply leadClass_4. lia.
  - repeat split_if.
  - lia.
  - lia.
Qed.

Lemma EncodeRune_nonempty r : EncodeRune r <> [].
Proof. unfold EncodeRune. repeat split_if; discriminate. Qed.

Lemma runesFrom_skip k s :
  (k <= length s)%nat -> runesFrom k s = runes (drop k s).
Proof.
  revert k. induction s as [|c t IH]; intros k Hk.
  - destruct k; reflexivity.
  - destruct k as [|k]; [reflexivity|].
    cbn [runesFrom drop]. apply IH. cbn [length] in Hk. lia.
Qed.

Lemma runes_step s :
  s <> [] ->
  runes s = fst (DecodeRune s) :: runes (drop (snd (DecodeRune s)) s).
Proof.
  intros Hs. pose proof (DecodeRune_width s Hs) as Hw.
  destruct s as [|c t]; [congruence|].
  unfold runes at 1. cbn [runesFrom]. f_equal.
  destruct (snd (DecodeRune (c :: t))) as [|w]; [lia|].
  cbn [drop]. replace (S w - 1)%nat with w by lia.
  apply runesFrom_skip. cbn [length] in Hw. lia.
Qed.

Lemma runes_nil : runes [] = [].
Proof. reflexivity. Qed.

Lemma runes_encode_app r rest :
  validRune r -> runes (EncodeRune r ++ rest) = r :: runes rest.
Proof.
  intros Hv. rewrite runes_step.
  - rewrite DecodeRune_EncodeRune by exact Hv. cbn [fst snd].
    rewrite drop_app_length. reflexivity.
  - pose proof (EncodeRune_nonempty r). destruct (EncodeRune r); [congruence|discriminate].
Qed.

Lemma runes_stringOfRunes_app rs rest :
  Forall validRune rs -> runes (stringOfRunes rs ++ rest) = rs ++ runes rest.
Proof.
  induction 1 as [|r rs Hr _ IH]; [reflexivity|].
  unfold stringOfRunes in *. cbn [flat_map]. rewrite <- app_assoc.
  rewrite runes_encode_app by exact Hr. rewrite IH. reflexivity.
Qed.

Lemma runes_valid s : Forall validRune (runes s).
Proof.
  remember (length s) as n eqn:Hn. revert s Hn.
  induction n as [n IH] using lt_wf_ind. intros s Hn.
  destruct s as [|c t]; [constructor|].
  rewrite runes_step by discriminate.
  pose proof (DecodeRune_width (c :: t) ltac:(discriminate)) as Hw.
  constructor.
  - apply DecodeRune_valid. discriminate.
  - eapply IH; [|reflexivity]. rewrite length_drop. subst n. lia.
Qed.

(** *** HTML escaping and the decoder *)

Import Formatter.

Lemma escapeByte_cases c :
  (escapeByte c = [c] /\ b2z c <> 0x26 /\ b2z c <> 0x27 /\ b2z c <> 0x3c /\ b2z c <> 0x3e /\ b2z c <> 0x22)
  \/ (isASCII c /\ exists a rest, escapeByte c = a :: rest /\ isASCII a).
Proof.
  unfold escapeByte.
  repeat (case_decide; [subst; right; split; [vm_compute; reflexivity|];
                        eexists _, _; split; [reflexivity|vm_compute; reflexivity]|]).
  left. split; [reflexivity|].
  repeat split; intros E;
    match goal with
    | H : c <> ?x |- _ =>
      apply H; rewrite <- (z2b_b2z c), E; reflexivity
    end.
Qed.

Lemma escapeByte_nonASCII c : ~ isASCII c -> escapeByte c = [c].
Proof.
  intros H. destruct (escapeByte_cases c) as [[E _]|[Ha _]]; [exact E|contradiction].
Qed.

Lemma EscapeString_cons c t : EscapeString (c :: t) = escapeByte c ++ EscapeString t.
Proof. reflexivity. Qed.

Lemma EscapeString_asciiHead s : asciiHead s -> asciiHead (EscapeString s).
Proof.
  destruct s as [|c t]; [trivial|]. cbn [asciiHead]. intros Hc.
  rewrite EscapeString_cons.
  destruct (escapeByte_cases c) as [[E _]|[_ (a & rest & E & Ha)]]; rewrite E; cbn; assumption.
Qed.

Lemma DecodeRune_stop1 c t t' :
  ~ isASCII c -> asciiHead t -> asciiHead t' ->
  DecodeRune (c :: t) = DecodeRune (c :: t').
Proof.
  unfold isASCII. intros Hc Ht Ht'.
  assert (forall u, asciiHead u -> DecodeRune (c :: u) = (RuneError, 1%nat)) as Hu.
  { intros u Hu. unfold DecodeRune, byteAt. cbn [length nth].
    destruct (leadClass (b2z c)) as [[[sz lo] hi]|] eqn:Hl.
    - apply leadClass_spec in Hl.
      destruct u as [|c1 u]; cbn [length nth asciiHead] in *; unfold isASCII in *.
      + repeat split_if; try reflexivity.
      + repeat split_if; try reflexivity; exfalso;
        split_if_hyps; lia.
    - repeat split_if; reflexivity. }
  rewrite (Hu t Ht), (Hu t' Ht'). reflexivity.
Qed.

Lemma sameLead_EscapeString k t : sameLead k t (EscapeString t).
Proof.
  revert t. induction k as [|k IH]; intros t; [constructor|].
  destruct t as [|c t]; [apply sameLead_stop; exact I|].
  destruct (Z_lt_dec (b2z c) 0x80) as [Hc|Hc].
  - apply sameLead_stop; [exact Hc|]. apply EscapeString_asciiHead. exact Hc.
  - rewrite EscapeString_cons, escapeByte_nonASCII by exact Hc.
    apply sameLead_cons; [exact Hc|apply IH].
Qed.

Lemma DecodeRune_sameLead c t t' :
  ~ isASCII c -> sameLead 3 t t' -> DecodeRune (c :: t) = DecodeRune (c :: t').
Proof.
  intros Hc H3.
  inversion H3 as [|k0 u u' Hu Hu'|k1 c1 t1 t1' Hc1 H2]; subst.
  { apply DecodeRune_stop1; assumption. }
  inversion H2 as [|k0 u u' Hu Hu'|k2 c2 t2 t2' Hc2 H1]; subst.
  { unfold isASCII in *.
    destruct (leadClass (b2z c)) as [[[sz lo] hi]|] eqn:Hl;
      [pose proof (leadClass_spec _ _ _ _ Hl) as Hs|];
      destruct t1 as [|a u], t1' as [|a' u']; cbn [asciiHead] in *;
      unfold isASCII in *; unfold DecodeRune, byteAt; cbn [length nth]; rewrite Hl;
      try pose proof (b2z_range a); try pose proof (b2z_range a');
      unfold locb, hicb; 
      repeat split_if; try reflexivity; exfalso;
      repeat match goal with
             | H : context [if ?c then _ else _] |- _ => destruct c eqn:?
             end; lia. }
  inversion H1 as [t3 t3'|k0 u u' Hu Hu'|k3 c3 t3 t3' Hc3 H0]; subst.
  { unfold isASCII in *.
    destruct (leadClass (b2z c)) as [[[sz lo] hi]|] eqn:Hl;
      [pose proof (leadClass_spec _ _ _ _ Hl) as Hs|];
      destruct t2 as [|a u], t2' as [|a' u']; cbn [asciiHead] in *;
      unfold isASCII in *; unfold DecodeRune, byteAt; cbn [length nth]; rewrite Hl;
      try pose proof (b2z_range a); try pose proof (b2z_range a');
      unfold locb, hicb; 
      repeat split_if; try reflexivity; exfalso;
      repeat match goal with
             | H : context [if ?c then _ else _] |- _ => destruct c eqn:?
             end; lia. }
  unfold DecodeRune, byteAt; cbn [length nth].
  destruct (leadClass (b2z c)) as [[[sz lo] hi]|] eqn:Hl;
    [|repeat split_if; reflexivity].
  apply leadClass_spec in Hl.
  repeat split_if; try reflexivity.
Qed.

Lemma DecodeRune_continuation c t k :
  (S k < snd (DecodeRune (c :: t)))%nat ->
  exists b, t !! k = Some b /\ ~ isASCII b.
Proof.
  unfold DecodeRune, byteAt, isASCII. cbn [length nth].
  destruct (leadClass (b2z c)) as [[[sz lo] hi]|] eqn:Hl;
    [pose proof (leadClass_spec _ _ _ _ Hl) as Hs|].
  2:{ repeat split_if; cbn [snd]; intros; lia. }
  unfold locb, hicb.
  destruct t as [|c1 t].
  { cbn [length nth]; repeat split_if; cbn [snd]; intros; lia. }
  destruct t as [|c2 t].
  { cbn [length nth]. repeat split_if; cbn [snd]; try (intros; lia);
    intros Hk; assert (k = 0%nat) as -> by lia; eexists; (split; [reflexivity|]);
    repeat match goal with
           | H : context [if ?c then _ else _] |- _ => destruct c eqn:?
           end; lia. }
  destruct t as [|c3 t].
  { cbn [length nth]. repeat split_if; cbn [snd]; try (intros; lia);
    intros Hk; 
    (assert (k = 0 \/ k = 1)%nat as [-> | ->] by lia);
    eexists; (split; [reflexivity|]);
    repeat match goal with
           | H : context [if ?c then _ else _] |- _ => destruct c eqn:?
           end; lia. }
  cbn [length nth]. repeat split_if; cbn [snd]; try (intros; lia);
    intros Hk; 
    (assert (k = 0 \/ k = 1 \/ k = 2)%nat as [-> |[-> | ->]] by lia);
    eexists; (split; [reflexivity|]);
    repeat match goal with
           | H : context [if ?c then _ else _] |- _ => destruct c eqn:?
           end; lia.
Qed.


Lemma DecodeRune_nonASCII_ge c t :
  ~ isASCII c -> 0x80 <= fst (DecodeRune (c :: t)).
Proof.
  unfold isASCII. intros Hc.
  unfold DecodeRune, RuneError. cbn [length].
  pose proof (b2z_range (nth 0 (c :: t) Byte.x00)) as R0.
  pose proof (b2z_range (nth 1 (c :: t) Byte.x00)) as R1.
  pose proof (b2z_range (nth 2 (c :: t) Byte.x00)) as R2.
  pose proof (b2z_range (nth 3 (c :: t) Byte.x00)) as R3.
  unfold byteAt.
  assert (b2z (nth 0 (c :: t) Byte.x00) = b2z c) as E0 by reflexivity.
  set (s0 := b2z (nth 0 (c :: t) Byte.x00)) in *.
  set (s1 := b2z (nth 1 (c :: t) Byte.x00)) in *.
  set (s2 := b2z (nth 2 (c :: t) Byte.x00)) in *.
  set (s3 := b2z (nth 3 (c :: t) Byte.x00)) in *.
  destruct (leadClass s0) as [[[sz lo] hi]|] eqn:Hl.
  - apply leadClass_spec in Hl. unfold locb, hicb.
    repeat split_if; cbn [fst]; try lia.
    + rewrite land_mask2, land_maskx, lor_shiftl6 by lia.
      destruct Hl as [Hl|[Hl|Hl]]; lia.
    + rewrite land_mask3, !land_maskx, lor_shiftl12 by lia.
      destruct Hl as [Hl|[Hl|Hl]]; try lia.
      destruct Hl as (_ & Hr & -> & ->).
      split_if_hyps; lia.
    + rewrite land_mask4, !land_maskx, lor_shiftl18 by lia.
      destruct Hl as [Hl|[Hl|Hl]]; try lia.
      destruct Hl as (_ & Hr & -> & ->).
      split_if_hyps; lia.
  - repeat split_if; cbn [fst]; lia.
Qed.
Lemma runesFrom_ascii_app l rest :
  Forall isASCII l -> runesFrom 0 (l ++ rest) = map b2z l ++ runesFrom 0 rest.
Proof.
  induction 1 as [|a l Ha _ IH]; [reflexivity|].
  cbn [app runesFrom map]. rewrite DecodeRune_1 by exact Ha. cbn [fst snd].
  replace (1 - 1)%nat with 0%nat by lia. rewrite IH. reflexivity.
Qed.

Lemma runes_escapeByte_ascii c rest :
  isASCII c ->
  runesFrom 0 (escapeByte c ++ rest) = escapeRune (b2z c) ++ runesFrom 0 rest.
Proof.
  intros Hc. unfold escapeByte.
  repeat (case_decide;
          [subst c; rewrite runesFrom_ascii_app
             by (repeat constructor; vm_compute; reflexivity); reflexivity|]).
  change (runesFrom 0 ([c] ++ rest)) with (runesFrom 0 (c :: rest)).
  cbn [runesFrom]. rewrite DecodeRune_1 by exact Hc. cbn [fst snd].
  replace (1 - 1)%nat with 0%nat by lia.
  change (b2z c :: runesFrom 0 rest) with ([b2z c] ++ runesFrom 0 rest).
  f_equal. unfold escapeRune.
  repeat (split_if; [exfalso;
    match goal with
    | H : (b2z c =? ?v) = true, Hn : c <> _ |- _ =>
      apply Z.eqb_eq in H; first [ apply Hn; rewrite <- (z2b_b2z c), H; reflexivity | fail ]
    end|]).
  reflexivity.
Qed.

Lemma escapeRune_nonASCII r : 0x80 <= r -> escapeRune r = [r].
Proof. intros H. unfold escapeRune. repeat split_if. reflexivity. Qed.

Lemma escapeRune_length r : (1 <= length (escapeRune r))%nat.
Proof. unfold escapeRune. repeat split_if; cbn; lia. Qed.

Lemma runesFrom_EscapeString k s :
  Forall (fun b => ~ isASCII b) (take k s) ->
  runesFrom k (EscapeString s) = flat_map escapeRune (runesFrom k s).
Proof.
  revert k. induction s as [|c t IH]; intros k Hk.
  - destruct k; reflexivity.
  - destruct k as [|k].
    + destruct (Z_lt_dec (b2z c) 0x80) as [Hc|Hc].
      * rewrite EscapeString_cons, runes_escapeByte_ascii by exact Hc.
        cbn [runesFrom]. rewrite DecodeRune_1 by exact Hc. cbn [fst snd flat_map].
        replace (1 - 1)%nat with 0%nat by lia.
        rewrite IH by (rewrite take_0; constructor). reflexivity.
      * rewrite EscapeString_cons, escapeByte_nonASCII by exact Hc.
        cbn [app runesFrom flat_map].
        rewrite <- (DecodeRune_sameLead c t (EscapeString t) Hc (sameLead_EscapeString 3 t)).
        rewrite escapeRune_nonASCII by (apply DecodeRune_nonASCII_ge; exact Hc).
        cbn [app]. f_equal. apply IH.
        apply Forall_forall. intros b Hb.
        apply list_elem_of_lookup in Hb as [i Hi].
        apply lookup_take_Some in Hi as [Hi Hlt].
        destruct (DecodeRune_continuation c t i ltac:(lia)) as (b' & Hb' & Hn).
        congruence.
    + cbn [take] in Hk. apply Forall_cons in Hk as [Hc Hk].
      rewrite EscapeString_cons, escapeByte_nonASCII by exact Hc.
      cbn [app runesFrom]. apply IH. exact Hk.
Qed.

Lemma runes_EscapeString s :
  runes (EscapeString s) = flat_map escapeRune (runes s).
Proof. apply (runesFrom_EscapeString 0). rewrite take_0. constructor. Qed.

Lemma runeCount_EscapeString s : runeCount s <= runeCount (EscapeString s).
Proof.
  unfold runeCount. rewrite runes_EscapeString.
  induction (runes s) as [|r rs IH]; [reflexivity|].
  cbn [flat_map length]. rewrite length_app.
  pose proof (escapeRune_length r). lia.
Qed.

End GoStringFacts.

Import Formatter.

(** ** [truncateByRunes] *)

Lemma truncateByRunes_nonneg text maxRunes :
  0 <= maxRunes -> truncateByRunes text maxRunes = Returns (truncated text maxRunes).
Proof.
  intros Hn. unfold truncateByRunes, truncated, runeCount.
  destruct (Z.of_nat (length (runes text)) <=? maxRunes); [reflexivity|].
  destruct (maxRunes <? 0) eqn:E; [lia|reflexivity].
Qed.

Lemma runes_truncated_long text maxRunes :
  0 <= maxRunes < runeCount text ->
  runes (truncated text maxRunes)
  = take (Z.to_nat maxRunes) (runes text) ++ runes (lit "...").
Proof.
  intros H. unfold truncated.
  destruct (runeCount text <=? maxRunes) eqn:E; [lia|].
  apply runes_stringOfRunes_app, Forall_take, runes_valid.
Qed.

Lemma runeCount_truncated text maxRunes :
  0 <= maxRunes ->
  runeCount (truncated text maxRunes)
  = if runeCount text <=? maxRunes then runeCount text else maxRunes + 3.
Proof.
  intros H. destruct (runeCount text <=? maxRunes) eqn:E.
  - unfold truncated. rewrite E. reflexivity.
  - unfold runeCount at 1. rewrite runes_truncated_long by lia.
    rewrite length_app, length_take. unfold runeCount in E.
    change (length (runes (lit "..."))) with 3%nat. lia.
Qed.

Lemma truncated_cases text maxRunes :
  0 <= maxRunes ->
  (runeCount text <= maxRunes -> truncated text maxRunes = text)
  /\ (maxRunes < runeCount text ->
      truncated text maxRunes
      = stringOfRunes (take (Z.to_nat maxRunes) (runes text)) ++ lit "..."
      /\ runes (truncated text maxRunes)
         = take (Z.to_nat maxRunes) (runes text) ++ runes (lit "...")
      /\ Z.of_nat (length (take (Z.to_nat maxRunes) (runes text))) = maxRunes).
Proof.
  intros Hn. split.
  - intros H. unfold truncated.
    destruct (runeCount text <=? maxRunes) eqn:E; [reflexivity|lia].
  - intros H. split; [|split].
    + unfold truncated.
      destruct (runeCount text <=? maxRunes) eqn:E; [lia|reflexivity].
    + apply runes_truncated_long. lia.
    + rewrite length_take. unfold runeCount in H. lia.
Qed.

(** Claim C10, amended. For a bound that is not negative, [truncateByRunes]
    is the identity on a text of at most [maxRunes] runes, and on a longer
    text it returns the first [maxRunes] runes of the text followed by the
    three characters "...": the runes of the result are those runes and the
    three dots. *)
Theorem truncateByRunes_spec text maxRunes :
  0 <= maxRunes ->
  (runeCount text <= maxRunes -> truncateByRunes text maxRunes = Returns text)
  /\ (maxRunes < runeCount text ->
      truncateByRunes text maxRunes
      = Returns (stringOfRunes (take (Z.to_nat maxRunes) (runes text)) ++ lit "...")
      /\ runes (stringOfRunes (take (Z.to_nat maxRunes) (runes text)) ++ lit "...")
         = take (Z.to_nat maxRunes) (runes text) ++ runes (lit "...")
      /\ Z.of_nat (length (take (Z.to_nat maxRunes) (runes text))) = maxRunes).
Proof.
  intros Hn. unfold truncateByRunes. fold (runeCount text). split.
  - intros Hshort.
    destruct (runeCount text <=? maxRunes) eqn:E; [reflexivity|lia].
  - intros Hlong.
    destruct (runeCount text <=? maxRunes) eqn:E; [lia|].
    destruct (maxRunes <? 0) eqn:E0; [lia|].
    split; [reflexivity|]. split.
    + apply runes_stringOfRunes_app. apply Forall_take. apply runes_valid.
    + rewrite length_take. unfold runeCount in Hlong. lia.
Qed.

Lemma truncateByRunes_spec_witness :
  0 <= 3
  /\ (runeCount (lit "Привет") <= 3 ->
      truncateByRunes (lit "Привет") 3 = Returns (lit "Привет"))
  /\ (3 < runeCount (lit "Привет") ->
      truncateByRunes (lit "Привет") 3
      = Returns (stringOfRunes (take (Z.to_nat 3) (runes (lit "Привет"))) ++ lit "...")
      /\ runes (stringOfRunes (take (Z.to_nat 3) (runes (lit "Привет"))) ++ lit "...")
         = take (Z.to_nat 3) (runes (lit "Привет")) ++ runes (lit "...")
      /\ Z.of_nat (length (take (Z.to_nat 3) (runes (lit "Привет")))) = 3).
Proof. split; [lia|]. apply (truncateByRunes_spec (lit "Привет") 3). lia. Defined.

(** Claim C10 as stated fails for a negative bound: the text [abc] has more
    than [-1] runes, and the call panics on the slice expression instead of
    returning a truncated text. *)
Lemma truncateByRunes_negative_bound :
  -1 < runeCount (lit "abc")
  /\ truncateByRunes (lit "abc") (-1) = Panics SliceBoundsOutOfRange
  /\ truncateByRunes (lit "abc") (-1)
     <> Returns (stringOfRunes (take (Z.to_nat (-1)) (runes (lit "abc"))) ++ lit "...").
Proof.
  split; [vm_compute; reflexivity|]. split; [vm_compute; reflexivity|].
  vm_compute. discriminate.
Qed.

(** ** The search for the cut marker *)
Section FindFacts.
Variable foldEq : Z -> Z -> bool.

Lemma runeStartsFrom_bounds skip pos s i :
  i ∈ runeStartsFrom skip pos s -> (pos + skip <= i < pos + length s)%nat.
Proof.
  revert skip pos. induction s as [|c t IH]; intros skip pos Hi; cbn in Hi.
  - inversion Hi.
  - destruct skip as [|k].
    + apply elem_of_cons in Hi as [->|Hi]; [cbn [length]; lia|].
      apply IH in Hi. cbn [length]. lia.
    + apply IH in Hi. cbn [length]. lia.
Qed.

Lemma runeStartsFrom_sorted skip pos s :
  StronglySorted lt (runeStartsFrom skip pos s).
Proof.
  revert skip pos. induction s as [|c t IH]; intros skip pos; cbn.
  - constructor.
  - destruct skip as [|k]; [|apply IH].
    constructor; [apply IH|].
    apply Forall_forall. intros j Hj. apply runeStartsFrom_bounds in Hj. lia.
Qed.

Lemma find_sorted_first (f : nat -> bool) (l : list nat) (i : nat) :
  StronglySorted lt l ->
  List.find f l = Some i <->
  (i ∈ l /\ f i = true /\ forall j, j ∈ l -> f j = true -> (i <= j)%nat).
Proof.
  induction 1 as [|x l Hs IH Hx]; cbn.
  - split; [discriminate|]. intros [Hi _]. inversion Hi.
  - rewrite Forall_forall in Hx. destruct (f x) eqn:Fx.
    + split.
      * intros [= <-]. split; [left|]. split; [exact Fx|].
        intros j Hj _. apply elem_of_cons in Hj as [->|Hj]; [lia|].
        specialize (Hx j Hj). lia.
      * intros (Hi & Fi & Hmin). f_equal.
        apply elem_of_cons in Hi as [->|Hi]; [reflexivity|].
        specialize (Hmin x ltac:(left) Fx). specialize (Hx i Hi). lia.
    + rewrite IH. split.
      * intros (Hi & Fi & Hmin). split; [right; exact Hi|]. split; [exact Fi|].
        intros j Hj Fj. apply elem_of_cons in Hj as [->|Hj]; [congruence|].
        apply Hmin; assumption.
      * intros (Hi & Fi & Hmin). split.
        -- apply elem_of_cons in Hi as [->|Hi]; [congruence|exact Hi].
        -- split; [exact Fi|]. intros j Hj Fj. apply Hmin; [right; exact Hj|exact Fj].
Qed.

Lemma FindStringIndex_first re s i :
  FindStringIndex foldEq re s = Some i <-> firstOccurrence foldEq re s i.
Proof.
  unfold FindStringIndex, firstOccurrence, occursAt.
  rewrite find_sorted_first by apply runeStartsFrom_sorted.
  split.
  - intros (Hi & Fi & Hmin). split; [split; assumption|].
    intros j [Hj Fj]. apply Hmin; assumption.
  - intros ([Hi Fi] & Hmin). split; [exact Hi|]. split; [exact Fi|].
    intros j Hj Fj. apply Hmin. split; assumption.
Qed.

Lemma FindStringIndex_none re s :
  FindStringIndex foldEq re s = None <-> forall i, ~ occursAt foldEq re s i.
Proof.
  unfold FindStringIndex, occursAt. split.
  - intros Hn i [Hi Fi].
    apply list_elem_of_In in Hi.
    pose proof (List.find_none _ _ Hn i Hi) as Hf. cbv beta in Hf. congruence.
  - intros Hno. destruct (List.find _ _) as [i|] eqn:E; [|reflexivity].
    apply List.find_some in E as [Hi Fi]. exfalso. apply (Hno i).
    split; [apply list_elem_of_In; exact Hi|exact Fi].
Qed.

Lemma occursAt_lt re s i : occursAt foldEq re s i -> (i < length s)%nat.
Proof. intros [Hi _]. apply runeStartsFrom_bounds in Hi. lia. Qed.

Lemma occurs_has_first re s j :
  occursAt foldEq re s j -> exists i, firstOccurrence foldEq re s i.
Proof.
  intros Hj. destruct (FindStringIndex foldEq re s) as [i|] eqn:E.
  - exists i. apply FindStringIndex_first. exact E.
  - exfalso. exact (proj1 (FindStringIndex_none re s) E j Hj).
Qed.

(** ** [formatMessage] *)

Lemma bodySection_returns body maxLength :
  bodySection body maxLength = Returns (expectedSection body maxLength).
Proof.
  unfold bodySection, expectedSection.
  destruct (maxLength =? 0) eqn:E0; [reflexivity|]. cbn [negb].
  replace (maxLength >? 0) with (0 <? maxLength) by lia.
  destruct (0 <? maxLength) eqn:E1; [|reflexivity].
  rewrite truncateByRunes_nonneg by lia. reflexivity.
Qed.

Lemma composeMessage_returns cfg folder sender subject body maxLength :
  composeMessage cfg folder sender subject body maxLength
  = Returns (headerLines cfg folder sender subject ++ expectedSection body maxLength).
Proof. unfold composeMessage. rewrite bodySection_returns. reflexivity. Qed.

Lemma length_nil_iff (s : gostring) : (length s =? 0)%nat = true <-> s = [].
Proof. destruct s; cbn; split; intros; try reflexivity; try discriminate. Qed.

Lemma cutAtMarker_returns cutString msg :
  ValidString cutString = true ->
  cutAtMarker foldEq cutString msg
  = Returns (if (length cutString =? 0)%nat then msg else
               match FindStringIndex foldEq (runes cutString) msg with
               | Some i => take i msg
               | None => msg
               end).
Proof.
  intros Hv. unfold cutAtMarker, MustCompileQuotedFold. rewrite Hv.
  destruct (length cutString =? 0)%nat; cbn [negb bindOutcome]; [reflexivity|].
  destruct (FindStringIndex _ _ _); reflexivity.
Qed.

Lemma messageBeforeCap_returns cfg folder sender subject body maxLength :
  ValidString (CutText cfg) = true ->
  exists finalMessage,
    messageBeforeCap foldEq cfg folder sender subject body maxLength
    = Returns finalMessage.
Proof.
  intros Hv. unfold messageBeforeCap.
  rewrite composeMessage_returns. cbn [bindOutcome].
  rewrite cutAtMarker_returns by exact Hv. eexists. reflexivity.
Qed.

End FindFacts.

(** Claim C3, amended. Whatever the folder, sender, subject, body and
    [maxLength], the message [formatMessage] returns has at most 4003 runes:
    it is the message built so far when that has at most 4000 runes, and
    otherwise exactly its first 4000 runes followed by the three runes "...",
    4003 in all; the bound is the constant 4000 for every [maxLength]. *)
Theorem formatMessage_global_cap foldEq cfg folder sender subject body maxLength :
  ValidString (CutText cfg) = true ->
  exists finalMessage message,
    messageBeforeCap foldEq cfg folder sender subject body maxLength
    = Returns finalMessage
    /\ formatMessage foldEq cfg folder sender subject body maxLength = Returns message
    /\ runeCount message <= 4003
    /\ (runeCount finalMessage <= 4000 -> message = finalMessage)
    /\ (4000 < runeCount finalMessage ->
        message = stringOfRunes (take 4000 (runes finalMessage)) ++ lit "..."
        /\ runes message = take 4000 (runes finalMessage) ++ runes (lit "...")
        /\ length (take 4000 (runes finalMessage)) = 4000%nat
        /\ runeCount message = 4003).
Proof.
  intros Hv.
  destruct (messageBeforeCap_returns foldEq cfg folder sender subject body maxLength Hv)
    as [finalMessage Hm].
  exists finalMessage, (truncated finalMessage 4000). split; [exact Hm|].
  split.
  { unfold formatMessage. rewrite Hm. cbn [bindOutcome].
    apply truncateByRunes_nonneg. lia. }
  pose proof (runeCount_truncated finalMessage 4000 ltac:(lia)) as Hcount.
  destruct (truncated_cases finalMessage 4000 ltac:(lia)) as [Hshort Hlong].
  split; [destruct (runeCount finalMessage <=? 4000) eqn:E; lia|].
  split; [exact Hshort|].
  intros Hgt. destruct (Hlong Hgt) as (H1 & H2 & H3).
  change (Z.to_nat 4000) with 4000%nat in *.
  split; [exact H1|]. split; [exact H2|]. split; [lia|].
  destruct (runeCount finalMessage <=? 4000) eqn:E; lia.
Qed.

Lemma formatMessage_global_cap_witness :
  exists finalMessage message,
    messageBeforeCap asciiFoldEq plainConfig (lit "F") (lit "s") longBody (lit "b") 0
    = Returns finalMessage
    /\ 4000 < runeCount finalMessage
    /\ formatMessage asciiFoldEq plainConfig (lit "F") (lit "s") longBody (lit "b") 0
       = Returns message
    /\ message = stringOfRunes (take 4000 (runes finalMessage)) ++ lit "..."
    /\ runeCount message = 4003.
Proof.
  destruct (formatMessage_global_cap asciiFoldEq plainConfig (lit "F") (lit "s")
              longBody (lit "b") 0 eq_refl)
    as (finalMessage & message & Hm & Hout & _ & _ & Hlong).
  assert ((let* m := messageBeforeCap asciiFoldEq plainConfig (lit "F") (lit "s")
                                      longBody (lit "b") 0 in
           Returns (4000 <? runeCount m)) = Returns true) as Hc
    by (vm_compute; reflexivity).
  rewrite Hm in Hc. cbn [bindOutcome] in Hc.
  assert (4000 < runeCount finalMessage) as Hgt by (inversion Hc; lia).
  destruct (Hlong Hgt) as (H1 & _ & _ & H4).
  exists finalMessage, message. auto.
Defined.

(** Claim C3 as stated fails on its bound: a subject of 4001 characters
    gives a message of 4003 runes, the first 4000 of the message built and
    the three of the ellipsis, which is more than 4000. *)
Lemma formatMessage_exceeds_4000 :
  (let* out := formatMessage asciiFoldEq plainConfig (lit "F") (lit "s") longBody
                             (lit "b") 0 in
   Returns (runeCount out)) = Returns 4003
  /\ ~ (exists out,
          formatMessage asciiFoldEq plainConfig (lit "F") (lit "s") longBody (lit "b") 0
          = Returns out
          /\ runeCount out <= 4000).
Proof.
  assert ((let* out := formatMessage asciiFoldEq plainConfig (lit "F") (lit "s") longBody
                                    (lit "b") 0 in
           Returns (runeCount out)) = Returns 4003) as Hout by (vm_compute; reflexivity).
  split; [exact Hout|].
  intros (out & E & Hle). rewrite E in Hout. cbn [bindOutcome] in Hout.
  inversion Hout. lia.
Qed.

(** Claim C5, amended. The text [formatMessage] composes before its
    cut-marker and length stages has no body section when [maxLength] is 0.
    For any other [maxLength] it is the header followed by the label and the
    HTML-escaped body: whole when [maxLength] is negative or the escaped body
    has at most [maxLength] runes, and cut to exactly the first [maxLength]
    runes of the escaped body followed by "..." when [maxLength] is positive
    and the body has more runes than that. The returned message is this text
    after the cut at the marker and the cap at 4000 runes, and it is this
    text itself when the marker does not occur in it and it has at most 4000
    runes. *)
Theorem formatMessage_body_policy foldEq cfg folder sender subject body maxLength :
  ValidString (CutText cfg) = true ->
  exists section,
    composeMessage cfg folder sender subject body maxLength
    = Returns (headerLines cfg folder sender subject ++ section)
    /\ (maxLength = 0 -> section = [])
    /\ (maxLength <> 0 ->
        exists shown,
          section = bodyLabel ++ shown
          /\ (maxLength < 0 -> shown = EscapeString body)
          /\ (0 < maxLength -> runeCount (EscapeString body) <= maxLength ->
              shown = EscapeString body)
          /\ (0 < maxLength ->
              maxLength < runeCount body \/ maxLength < runeCount (EscapeString body) ->
              shown = stringOfRunes (take (Z.to_nat maxLength)
                                          (runes (EscapeString body))) ++ lit "..."
              /\ runes shown = take (Z.to_nat maxLength) (runes (EscapeString body))
                               ++ runes (lit "...")
              /\ Z.of_nat (length (take (Z.to_nat maxLength)
                                        (runes (EscapeString body)))) = maxLength))
    /\ formatMessage foldEq cfg folder sender subject body maxLength
       = (let* m := cutAtMarker foldEq (CutText cfg)
                      (headerLines cfg folder sender subject ++ section) in
          truncateByRunes m 4000)
    /\ ((forall i, ~ occursAt foldEq (runes (CutText cfg))
                     (headerLines cfg folder sender subject ++ section) i) ->
        runeCount (headerLines cfg folder sender subject ++ section) <= 4000 ->
        formatMessage foldEq cfg folder sender subject body maxLength
        = Returns (headerLines cfg folder sender subject ++ section)).
Proof.
  intros Hv. exists (expectedSection body maxLength).
  split; [apply composeMessage_returns|].
  split.
  { intros ->. reflexivity. }
  split.
  { intros Hnz. unfold expectedSection.
    destruct (maxLength =? 0) eqn:E0; [lia|].
    destruct (0 <? maxLength) eqn:E1.
    - exists (truncated (EscapeString body) maxLength). split; [reflexivity|].
      split; [lia|]. split.
      + intros _ Hle. unfold truncated.
        destruct (runeCount (EscapeString body) <=? maxLength) eqn:E; [reflexivity|lia].
      + intros _ Hlong.
        assert (maxLength < runeCount (EscapeString body)) as Hlt.
        { pose proof (runeCount_EscapeString body). lia. }
        destruct (truncated_cases (EscapeString body) maxLength ltac:(lia))
          as [_ Hcase].
        exact (Hcase Hlt).
    - exists (EscapeString body). split; [reflexivity|].
      split; [reflexivity|]. split; intros; lia. }
  assert (formatMessage foldEq cfg folder sender subject body maxLength
          = (let* m := cutAtMarker foldEq (CutText cfg)
                         (headerLines cfg folder sender subject
                          ++ expectedSection body maxLength) in
             truncateByRunes m 4000)) as Hf.
  { unfold formatMessage, messageBeforeCap.
    rewrite composeMessage_returns. reflexivity. }
  split; [exact Hf|].
  intros Hno Hlen. rewrite Hf, cutAtMarker_returns by exact Hv.
  cbn [bindOutcome].
  rewrite (proj2 (FindStringIndex_none foldEq _ _) Hno).
  assert (forall m : gostring,
            (if (length (CutText cfg) =? 0)%nat then m else m) = m) as Hsame
    by (intros m; destruct (length (CutText cfg) =? 0)%nat; reflexivity).
  rewrite Hsame, truncateByRunes_nonneg by lia.
  rewrite (proj1 (truncated_cases _ 4000 ltac:(lia)) Hlen). reflexivity.
Qed.

Lemma formatMessage_body_policy_witness :
  ValidString (CutText plainConfig) = true
  /\ exists section,
    composeMessage plainConfig (lit "Inbox") (lit "a@b.c") (lit "Hi")
                   (lit "Привет, мир") 6
    = Returns (headerLines plainConfig (lit "Inbox") (lit "a@b.c") (lit "Hi") ++ section)
    /\ section = bodyLabel ++ lit "Привет...".
Proof.
  split; [reflexivity|].
  destruct (formatMessage_body_policy asciiFoldEq plainConfig (lit "Inbox")
              (lit "a@b.c") (lit "Hi") (lit "Привет, мир") 6 eq_refl)
    as (section & Hc & _ & Hs & _).
  exists section. split; [exact Hc|].
  destruct (Hs ltac:(lia)) as (shown & -> & _ & _ & Hlong).
  destruct (Hlong ltac:(lia) ltac:(left; vm_compute; reflexivity)) as (-> & _).
  reflexivity.
Defined.

(** Claim C5 as stated fails when the folder's length is large: with
    [maxLength] 4000 and a body of 4001 characters the stated message, whose
    body section is 4000 characters and the ellipsis, has 4074 runes, and
    [formatMessage] returns a message of 4003 runes, cut by the 4000 cap. *)
Lemma formatMessage_body_section_capped :
  4000 < runeCount longBody
  /\ (let* out := formatMessage asciiFoldEq plainConfig (lit "F") (lit "s") (lit "t")
                                longBody 4000 in
      Returns (runeCount out)) = Returns 4003
  /\ runeCount (statedMessage plainConfig (lit "F") (lit "s") (lit "t") longBody 4000)
     = 4074
  /\ formatMessage asciiFoldEq plainConfig (lit "F") (lit "s") (lit "t") longBody 4000
     <> Returns (statedMessage plainConfig (lit "F") (lit "s") (lit "t") longBody 4000).
Proof.
  assert ((let* out := formatMessage asciiFoldEq plainConfig (lit "F") (lit "s") (lit "t")
                                longBody 4000 in
      Returns (runeCount out)) = Returns 4003) as Hout by (vm_compute; reflexivity).
  assert (runeCount (statedMessage plainConfig (lit "F") (lit "s") (lit "t") longBody 4000)
     = 4074) as Hst by (vm_compute; reflexivity).
  split; [vm_compute; reflexivity|].
  split; [exact Hout|]. split; [exact Hst|].
  intros E.
  pose proof (eq_trans (eq_sym Hout)
               (f_equal (fun o => let* out := o in Returns (runeCount out)) E)) as H1.
  pose proof (eq_trans H1 (f_equal Returns Hst)) as H2.
  discriminate H2.
Qed.

(** The scenario of the specification: the marker, written in lower case
    in the body, cuts the message before the 50-character truncation of the
    body could matter. *)
Example formatMessage_invoice_scenario :
  formatMessage asciiFoldEq invoiceConfig (lit "Invoices") (lit "Bob <bob@example.org>")
                (lit "Bill & receipt") invoiceBody 50
  = Returns (lit "<b>Папка:</b> Invoices" ++ nl
             ++ lit "<b>Отправитель:</b> Bob &lt;bob@example.org&gt;" ++ nl
             ++ lit "<b>Тема:</b> Bill &amp; receipt" ++ nl
             ++ lit "<i>Сообщение:</i>" ++ nl
             ++ lit "Please pay before ").
Proof. vm_compute. reflexivity. Qed.

(** A cut text that is not valid UTF-8 makes [formatMessage] panic. *)
Example formatMessage_invalid_marker :
  formatMessage asciiFoldEq (mkConfig [] [] false 10 [Byte.xff; Byte.xfe] [])
                (lit "Inbox") (lit "a@b.c") (lit "Hi") (lit "text") 0
  = Panics RegexpCompileError.
Proof. vm_compute. reflexivity. Qed.

(** ** The folder resolver *)

Import Resolver.

Section ResolverFacts.

Lemma MAPIObject_forall_ind (P : MAPIObject -> Prop) :
  (forall i n fs, Forall P fs -> P (mkObject i n fs)) -> forall o, P o.
Proof.
  intros H. fix IH 1. intros [i n fs]. apply H.
  induction fs as [|f fs IHfs]; constructor; [apply IH|exact IHfs].
Qed.

Lemma preorderBelow_unfold i n fs :
  preorderBelow (mkObject i n fs) = flat_map (fun f => f :: preorderBelow f) fs.
Proof.
  cbn [preorderBelow]. induction fs as [|f fs IH]; [reflexivity|].
  cbn [flat_map]. rewrite <- IH. reflexivity.
Qed.

Lemma namesRead_app c1 c2 : namesRead (c1 ++ c2) = namesRead c1 ++ namesRead c2.
Proof. unfold namesRead. apply omap_app. Qed.

Lemma firstNamed_app target l1 l2 :
  firstNamed target (l1 ++ l2)
  = match firstNamed target l1 with
    | inl f => inl f
    | inr _ => firstNamed target l2
    end.
Proof.
  unfold firstNamed. induction l1 as [|x l1 IH]; [reflexivity|].
  cbn [app List.find]. destruct (nameIs target x); [reflexivity|exact IH].
Qed.

Lemma upToFirst_app {A} (p : A -> bool) l1 l2 :
  upToFirst p (l1 ++ l2)
  = match List.find p l1 with
    | Some _ => upToFirst p l1
    | None => l1 ++ upToFirst p l2
    end.
Proof.
  induction l1 as [|x l1 IH]; [reflexivity|]. cbn.
  destruct (p x); [reflexivity|]. rewrite IH.
  destruct (List.find p l1); reflexivity.
Qed.

Lemma upToFirst_none {A} (p : A -> bool) l :
  List.find p l = None -> upToFirst p l = l.
Proof.
  induction l as [|x l IH]; [reflexivity|]. cbn.
  destruct (p x); [discriminate|]. intros H. rewrite IH by exact H. reflexivity.
Qed.

Lemma findFolderLoop_spec target pid i fs :
  Forall (fun f => searchSpec target (preorderBelow f) (findFolderRecursive f target)) fs ->
  searchSpec target (flat_map (fun f => f :: preorderBelow f) fs)
    (findFolderLoop (fun f => findFolderRecursive f target) pid target i fs).
Proof.
  intros Hall. revert i. induction Hall as [|f fs [Hf1 Hf2] _ IH]; intros i.
  - split; reflexivity.
  - cbn [findFolderLoop flat_map].
    change ((f :: preorderBelow f) ++ ?l) with (f :: (preorderBelow f ++ l)).
    unfold searchSpec, firstNamed. cbn [List.find upToFirst]. unfold nameIs at 1 3.
    case_decide as Hn.
    + rewrite bool_decide_eq_true_2 by exact Hn. split; reflexivity.
    + rewrite bool_decide_eq_false_2 by exact Hn.
      fold (firstNamed target (preorderBelow f ++ flat_map (fun f => f :: preorderBelow f) fs)).
      rewrite firstNamed_app, upToFirst_app.
      destruct (findFolderRecursive f target) as [sub subCalls].
      cbn [fst snd] in Hf1, Hf2.
      destruct sub as [subFolder|e].
      * rewrite <- Hf1. cbn [fst snd]. split; [reflexivity|].
        unfold firstNamed in Hf1.
        destruct (List.find (nameIs target) (preorderBelow f)); [|discriminate].
        cbn [namesRead omap]. rewrite !namesRead_app, Hf2.
        cbn. rewrite app_nil_r. reflexivity.
      * rewrite <- Hf1.
        specialize (IH (i + 1)).
        destruct (findFolderLoop _ pid target (i + 1) fs) as [r restCalls].
        destruct IH as [IH1 IH2]. cbn [fst snd] in *. split; [exact IH1|].
        unfold firstNamed in Hf1.
        destruct (List.find (nameIs target) (preorderBelow f)) eqn:E; [discriminate|].
        rewrite (upToFirst_none _ _ E) in Hf2.
        rewrite !namesRead_app, Hf2, IH2. cbn.
        rewrite map_app, app_nil_r. reflexivity.
Qed.

Lemma findFolderRecursive_spec target parent :
  searchSpec target (preorderBelow parent) (findFolderRecursive parent target).
Proof.
  induction parent as [pid n fs IH] using MAPIObject_forall_ind.
  rewrite preorderBelow_unfold. cbn [findFolderRecursive].
  pose proof (findFolderLoop_spec target pid 1 fs IH) as [H1 H2].
  destruct (findFolderLoop _ pid target 1 fs) as [r calls].
  cbn [fst snd] in *. split; [exact H1|]. cbn [snd].
  rewrite !namesRead_app, H2. cbn. rewrite app_nil_r. reflexivity.
Qed.

End ResolverFacts.

(** Claim C6, amended. The inbox name is answered by [GetDefaultFolder(6)]
    alone, with no enumeration. Any other name is searched below the
    namespace root depth-first in pre-order: the children are taken in the
    provider's order, each name is compared for equality of its bytes, and a
    child that does not match is searched before its next sibling is looked
    at. The answer is the first folder with the name in that order, the names
    read are those up to it, and the answer is the not-found error exactly
    when no folder below the root has the name. *)
Theorem getFolder_preorder ns name :
  (name = inboxName ->
   getFolder ns name
   = (inl (nsDefaultFolder6 ns), [CallGetDefaultFolder (objID (nsObject ns)) 6]))
  /\ (name <> inboxName ->
      fst (getFolder ns name) = firstNamed name (preorderBelow (nsObject ns))
      /\ namesRead (snd (getFolder ns name))
         = map objID (upToFirst (nameIs name) (preorderBelow (nsObject ns)))
      /\ (fst (getFolder ns name) = inr (FolderNotFound name) <->
          forall f, f ∈ preorderBelow (nsObject ns) -> objName f <> name)).
Proof.
  unfold getFolder. split.
  - intros ->. rewrite decide_True by reflexivity. reflexivity.
  - intros Hne. rewrite decide_False by exact Hne.
    destruct (findFolderRecursive_spec name (nsObject ns)) as [H1 H2].
    split; [exact H1|]. split; [exact H2|].
    rewrite H1. unfold firstNamed.
    destruct (List.find (nameIs name) (preorderBelow (nsObject ns))) as [f|] eqn:E.
    + split; [discriminate|]. intros Hno. exfalso.
      apply List.find_some in E as [Hin Hf].
      apply (Hno f); [apply list_elem_of_In; exact Hin|].
      unfold nameIs in Hf. apply bool_decide_eq_true_1 in Hf. exact Hf.
    + split; [|reflexivity]. intros _ f Hin Hname.
      apply list_elem_of_In in Hin.
      pose proof (List.find_none _ _ E f Hin) as Hf. unfold nameIs in Hf.
      apply bool_decide_eq_false_1 in Hf. contradiction.
Qed.

(** Claim C6 as stated fails on its clause that children are entered only
    when no child of the level matches: here the second top-level folder has
    the name, and the search still enters the first folder and answers the
    folder nested in it, where the level-first resolution answers the
    top-level one. *)
Lemma getFolder_not_level_first :
  lit "Reports" <> inboxName
  /\ fst (getFolder sampleNamespace (lit "Reports"))
     = inl (mkObject 2 (lit "Reports") [])
  /\ resolveLevelFirst sampleTree (lit "Reports")
     = Some (mkObject 3 (lit "Reports") [])
  /\ snd (getFolder sampleNamespace (lit "Reports"))
     = [CallFolders 0; CallCount 0;
        CallItem 0 1; CallName 1;
        CallFolders 1; CallCount 1; CallItem 1 1; CallName 2; ReleaseFolders 1;
        ReleaseFolder 1; ReleaseFolders 0].
Proof. split; [discriminate|]. repeat split; vm_compute; reflexivity. Qed.

(** The comparison of names is exact: another case is another name. *)
Example getFolder_case_sensitive :
  fst (getFolder sampleNamespace (lit "reports")) = inr (FolderNotFound (lit "reports"))
  /\ fst (getFolder sampleNamespace inboxName) = inl (mkObject 9 inboxName []).
Proof. split; vm_compute; reflexivity. Qed.

(** ** The delivery client *)

Import Delivery.

(** Claim C8. [sendTelegramMessage] returns the nil error exactly when
    the response has status 200 and its body was read; a response with
    another status gives an error that carries the status and the body, a
    transport error or an unreadable body gives an error, and in every case
    one call makes one exchange and hands at most one request to the client:
    nothing is retried. *)
Theorem sendTelegramMessage_single_post cfg text chatID w :
  let ex := network w (calls w) in
  let r := sendTelegramMessage cfg text chatID w in
  let req := mkRequest (lit "https://api.telegram.org/bot" ++ BotToken cfg
                        ++ lit "/sendMessage")
                       (mkPayload chatID text (lit "HTML")) in
  (fst r = None <-> exists body, ex = Responds 200 body)
  /\ (forall status body,
        ex = Responds status body -> status <> 200 ->
        fst r = Some (ErrStatus status body))
  /\ (ex = DoFails -> fst r = Some ErrDo)
  /\ (forall status, ex = ReadFails status -> fst r = Some ErrReadBody)
  /\ calls (snd r) = S (calls w)
  /\ (posted (snd r) = posted w \/ posted (snd r) = posted w ++ [req])
  /\ ((exists status body, ex = Responds status body) ->
      posted (snd r) = posted w ++ [req])
  /\ network (snd r) = network w
  /\ processedEmails (snd r) = processedEmails w.
Proof.
  cbv zeta. unfold sendTelegramMessage, postJSON, StatusOK.
  destruct (network w (calls w)) as [| | |status|status body]; cbn.
  1-4: (split; [split; [discriminate|intros [b Hb]; discriminate]|]);
       (split; [intros s b Hb; discriminate|]);
       (split; [intros; try reflexivity; discriminate|]);
       (split; [intros s Hs; try reflexivity; discriminate|]);
       (split; [reflexivity|]);
       (split; [auto|]);
       (split; [intros (s & b & Hb); discriminate|]);
       split; reflexivity.
  destruct (status =? 200) eqn:E; cbn.
  - apply Z.eqb_eq in E. subst status.
    split; [split; [intros _; eexists; reflexivity|reflexivity]|].
    split; [intros s b [= <- <-] Hne; contradiction|].
    split; [discriminate|]. split; [discriminate|].
    split; [reflexivity|]. split; [auto|]. split; [reflexivity|].
    split; reflexivity.
  - apply Z.eqb_neq in E.
    split; [split; [discriminate|intros [b [= Hs _]]; contradiction]|].
    split; [intros s b [= <- <-] _; reflexivity|].
    split; [discriminate|]. split; [discriminate|].
    split; [reflexivity|]. split; [auto|]. split; [reflexivity|].
    split; reflexivity.
Qed.

(** ** The dedup cache *)

Import Dedup.

Section DedupFacts.
Variable foldEq : Z -> Z -> bool.

Lemma formatMessage_returns cfg folder sender subject body maxLength :
  ValidString (CutText cfg) = true ->
  exists message,
    formatMessage foldEq cfg folder sender subject body maxLength = Returns message.
Proof.
  intros Hv.
  destruct (messageBeforeCap_returns foldEq cfg folder sender subject body maxLength Hv)
    as [m Hm].
  unfold formatMessage. rewrite Hm. cbn [bindOutcome].
  rewrite truncateByRunes_nonneg by lia. eexists. reflexivity.
Qed.

Lemma succeeds_dec ex : {succeeds ex} + {~ succeeds ex}.
Proof.
  destruct ex as [| | |s|s b]; try (right; intros [b' Hb]; discriminate).
  destruct (Z.eq_dec s 200) as [->|Hne].
  - left. eexists. reflexivity.
  - right. intros [b' [= Hs _]]. contradiction.
Qed.

Lemma sendTelegramMessage_result cfg text chatID w :
  let r := sendTelegramMessage cfg text chatID w in
  (fst r = None <-> succeeds (network w (calls w)))
  /\ calls (snd r) = S (calls w)
  /\ network (snd r) = network w
  /\ processedEmails (snd r) = processedEmails w
  /\ (exists h, history (snd r) = history w ++ h
                /\ forall e, e ∈ h -> exists l, e = Logged l).
Proof.
  cbv zeta. unfold sendTelegramMessage, postJSON, StatusOK, succeeds.
  destruct (network w (calls w)) as [| | |status|status body]; cbn.
  1-4: (split; [split; [discriminate|intros [b Hb]; discriminate]|]);
       repeat split; exists []; rewrite app_nil_r; split; [reflexivity|];
       intros e He; inversion He.
  destruct (status =? 200) eqn:E; cbn.
  - apply Z.eqb_eq in E. subst status.
    split; [split; [intros _; eexists; reflexivity|reflexivity]|].
    repeat split. eexists. split; [reflexivity|].
    intros e He. apply list_elem_of_singleton in He. subst. eexists. reflexivity.
  - apply Z.eqb_neq in E.
    split; [split; [discriminate|intros [b [= Hs _]]; contradiction]|].
    repeat split. exists []. rewrite app_nil_r. split; [reflexivity|].
    intros e He; inversion He.
Qed.

Lemma isProcessed_insert id b id' w n c p h :
  isProcessed id' (mkWorld (<[id := b]> (processedEmails w)) n c p h)
  = if decide (id = id') then b else isProcessed id' w.
Proof.
  unfold isProcessed. cbn [processedEmails].
  rewrite lookup_insert. destruct (decide (id = id')); reflexivity.
Qed.

(** What one call does for an item whose properties can all be read. *)
Lemma processEmail_readable cfg item folderName entryID w :
  EntryID item = Some entryID ->
  readable item ->
  ValidString (CutText cfg) = true ->
  isProcessed entryID w = false ->
  exists w',
    processEmail foldEq cfg item folderName w = (Returns tt, w')
    /\ calls w' = S (calls w)
    /\ network w' = network w
    /\ (forall id, id <> entryID -> isProcessed id w' = isProcessed id w)
    /\ (exists h, history w' = history w ++ h)
    /\ (succeeds (network w (calls w)) ->
        isProcessed entryID w' = true /\ deliveredOK entryID (history w'))
    /\ (~ succeeds (network w (calls w)) ->
        processedEmails w' !! entryID = Some false).
Proof.
  intros Hid (Hsn & Hse & Hsj & Hbd) Hv Hnew.
  destruct Hsn as [sn Hsn], Hse as [se Hse], Hsj as [sj Hsj], Hbd as [bd Hbd].
  unfold processEmail. rewrite Hid.
  unfold bind at 1. unfold readProcessed. rewrite Hnew.
  unfold bind at 1. unfold writeProcessed at 1.
  rewrite Hsn, Hse, Hsj, Hbd. unfold bind, must, liftOutcome.
  match goal with
  | |- context [formatMessage foldEq cfg folderName ?sender sj bd ?len] =>
    destruct (formatMessage_returns cfg folderName sender sj bd len Hv) as [message Hm];
    rewrite Hm
  end.
  unfold send.
  match goal with
  | |- context [sendTelegramMessage cfg message ?chat ?w1] =>
    pose proof (sendTelegramMessage_result cfg message chat w1) as Hsend;
    destruct (sendTelegramMessage cfg message chat w1) as [err w2]
  end.
  cbv zeta in Hsend. cbn [fst snd calls network processedEmails history] in Hsend.
  destruct Hsend as (Hok & Hcalls & Hnet & Hcache & (h & Hh & _)).
  destruct err as [e|].
  - eexists. split; [reflexivity|]. cbn [calls network history].
    unfold logMessage, writeProcessed. cbn [calls network history processedEmails].
    split; [exact Hcalls|]. split; [exact Hnet|].
    split.
    { intros id Hne. rewrite isProcessed_insert, decide_False by congruence.
      unfold isProcessed. cbn [processedEmails]. rewrite Hcache.
      rewrite lookup_insert_ne by congruence. reflexivity. }
    split.
    { rewrite Hh, <- !app_assoc. eexists. reflexivity. }
    split.
    + intros Hs. apply Hok in Hs. discriminate.
    + intros _. apply lookup_insert_eq.
  - eexists. split; [reflexivity|].
    unfold logMessage. cbn [calls network history processedEmails].
    split; [exact Hcalls|]. split; [exact Hnet|].
    split.
    { intros id Hne. unfold isProcessed. cbn [processedEmails]. rewrite Hcache.
      rewrite lookup_insert_ne by congruence. reflexivity. }
    split.
    { rewrite Hh, <- !app_assoc. eexists. reflexivity. }
    split.
    + intros _. split.
      * unfold isProcessed. cbn [processedEmails]. rewrite Hcache.
        rewrite lookup_insert_eq. reflexivity.
      * unfold deliveredOK. rewrite !elem_of_app. left. right. left.
    + intros Hn. exfalso. apply Hn, Hok. reflexivity.
Qed.

Lemma processEmail_skip cfg item folderName entryID w :
  EntryID item = Some entryID ->
  isProcessed entryID w = true ->
  processEmail foldEq cfg item folderName w = (Returns tt, w).
Proof.
  intros Hid Hp. unfold processEmail. rewrite Hid.
  unfold bind, readProcessed. rewrite Hp. reflexivity.
Qed.

End DedupFacts.

(** Claim C1. For a mail item with identity [entryID]: while the cache
    marks it delivered, [processEmail] returns without changing the world,
    so no send is made. When it is not marked, one call makes exactly one
    send; if that send fails the entry is written back to false, the next
    call makes exactly one send again, and once a send succeeds the entry is
    true and further calls do nothing. *)
Theorem processEmail_dedup_retry foldEq cfg item folderName entryID w :
  EntryID item = Some entryID ->
  readable item ->
  ValidString (CutText cfg) = true ->
  (isProcessed entryID w = true ->
   processEmail foldEq cfg item folderName w = (Returns tt, w))
  /\ (isProcessed entryID w = false ->
      exists w',
        processEmail foldEq cfg item folderName w = (Returns tt, w')
        /\ calls w' = S (calls w)
        /\ (succeeds (network w (calls w)) -> isProcessed entryID w' = true)
        /\ (~ succeeds (network w (calls w)) ->
            processedEmails w' !! entryID = Some false
            /\ isProcessed entryID w' = false
            /\ exists w'',
                 processEmail foldEq cfg item folderName w' = (Returns tt, w'')
                 /\ calls w'' = S (calls w')
                 /\ (succeeds (network w' (calls w')) ->
                     isProcessed entryID w'' = true
                     /\ processEmail foldEq cfg item folderName w''
                        = (Returns tt, w'')))).
Proof.
  intros Hid Hr Hv. split; [apply processEmail_skip; exact Hid|].
  intros Hnew.
  destruct (processEmail_readable foldEq cfg item folderName entryID w Hid Hr Hv Hnew)
    as (w' & Hrun & Hcalls & Hnet & _ & _ & Hok & Hfail).
  exists w'. split; [exact Hrun|]. split; [exact Hcalls|].
  split; [intros Hs; apply (Hok Hs)|].
  intros Hn. specialize (Hfail Hn).
  assert (isProcessed entryID w' = false) as Hnew'.
  { unfold isProcessed. rewrite Hfail. reflexivity. }
  split; [exact Hfail|]. split; [exact Hnew'|].
  destruct (processEmail_readable foldEq cfg item folderName entryID w' Hid Hr Hv Hnew')
    as (w'' & Hrun' & Hcalls' & _ & _ & _ & Hok' & _).
  exists w''. split; [exact Hrun'|]. split; [exact Hcalls'|].
  intros Hs. destruct (Hok' Hs) as [Hp _]. split; [exact Hp|].
  apply processEmail_skip with entryID; assumption.
Qed.


Section DedupInvariant.
Variable foldEq : Z -> Z -> bool.



End DedupInvariant.

Lemma processEmail_dedup_retry_witness :
  EntryID sampleItem = Some (lit "00000000A1B2")
  /\ readable sampleItem
  /\ ValidString (CutText plainConfig) = true
  /\ exists w',
       processEmail asciiFoldEq plainConfig sampleItem (lit "Invoices")
                    (quietWorld DoFails) = (Returns tt, w')
       /\ calls w' = 1%nat
       /\ processedEmails w' !! lit "00000000A1B2" = Some false.
Proof.
  assert (readable sampleItem) as Hr by (repeat split; eexists; reflexivity).
  split; [reflexivity|]. split; [exact Hr|]. split; [reflexivity|].
  destruct (processEmail_dedup_retry asciiFoldEq plainConfig sampleItem
              (lit "Invoices") (lit "00000000A1B2") (quietWorld DoFails)
              eq_refl Hr eq_refl) as [_ Hnew].
  destruct (Hnew eq_refl) as (w' & Hrun & Hcalls & _ & Hfail).
  exists w'. split; [exact Hrun|]. split; [exact Hcalls|].
  apply Hfail. intros [body Hb]. discriminate Hb.
Defined.




(** A property read that fails after the marking panics, and the identity
    stays marked although nothing was sent. *)
Example processEmail_panic_keeps_mark :
  fst (processEmail asciiFoldEq plainConfig brokenItem (lit "Invoices")
                    (quietWorld (Responds 200 (lit "{}"))))
  = Panics ComCallFailed
  /\ isProcessed (lit "00000000A1B2")
       (snd (processEmail asciiFoldEq plainConfig brokenItem (lit "Invoices")
                          (quietWorld (Responds 200 (lit "{}"))))) = true
  /\ calls (snd (processEmail asciiFoldEq plainConfig brokenItem (lit "Invoices")
                              (quietWorld (Responds 200 (lit "{}"))))) = 0%nat.
Proof. repeat split; vm_compute; reflexivity. Qed.

(** ** The cycle scheduler *)

Import Scheduler.

Section SchedulerFacts.
Variable cfg : Config.

Lemma flightCount_app ts1 ts2 :
  flightCount (ts1 ++ ts2) = (flightCount ts1 + flightCount ts2)%nat.
Proof. unfold flightCount. rewrite filter_app, length_app. reflexivity. Qed.

Lemma flightCount_cons t ts :
  flightCount (t :: ts) = ((if inFlight t then 1 else 0) + flightCount ts)%nat.
Proof.
  unfold flightCount. rewrite filter_cons.
  destruct (inFlight t); [rewrite decide_True by reflexivity|rewrite decide_False by discriminate];
    reflexivity.
Qed.

Lemma flightCount_started : flightCount [Started] = 1%nat.
Proof. reflexivity. Qed.

Lemma flightCount_insert ts i t t' :
  ts !! i = Some t ->
  (flightCount (<[i := t']> ts) + (if inFlight t then 1 else 0)
   = flightCount ts + (if inFlight t' then 1 else 0))%nat.
Proof.
  intros Hi.
  rewrite <- (take_drop_middle ts i t Hi) at 2.
  rewrite insert_take_drop by (apply lookup_lt_Some in Hi; exact Hi).
  rewrite !flightCount_app, !flightCount_cons. lia.
Qed.

Lemma taskStep_ok m t sem t' sem' :
  taskOK t -> taskStep m t sem = Some (t', sem') ->
  taskOK t'
  /\ (sem' <= sem)%nat
  /\ (sem' + (if inFlight t then 1 else 0)
      = sem + (if inFlight t' then 1 else 0))%nat.
Proof.
  intros Hok Hstep.
  destruct t as [| | |p ds| |]; cbn [taskOK] in Hok.
  - destruct m; inversion Hstep; subst. cbn. auto.
  - destruct m; inversion Hstep; subst; cbn; auto 6.
  - destruct m; inversion Hstep; subst; cbn; auto 6.
  - destruct Hok as [->|[->|[->|[-> ->]]]]; try destruct p; destruct m;
      cbn in Hstep; try discriminate;
      try (destruct sem as [|n]; [discriminate|]);
      inversion Hstep; subst; cbn; (split; [auto 6|lia]).
  - destruct m; discriminate.
  - contradiction.
Qed.

Lemma invariant_initial : invariant initial.
Proof. repeat split. constructor. cbn. unfold semaphoreCap. lia. Qed.

Lemma exec_invariant a s s' :
  invariant s -> exec cfg a s = Some s' -> invariant s'.
Proof.
  intros (Hok & Hsem & Hcap) Hexec. unfold exec in Hexec.
  case_bool_decide as Hcrash; [discriminate|].
  unfold invariant, cyclesInFlight, launchPending in *.
  unfold semaphoreCap in *.
  destruct a as [|i m].
  - destruct (loop s) eqn:Hl.
    + destruct (semaphore s <? 1)%nat eqn:E; [|discriminate].
      inversion Hexec; subst; clear Hexec. cbn. fold (flightCount (tasks s)).
      split; [exact Hok|]. lia.
    + inversion Hexec; subst; clear Hexec. cbn.
      fold (flightCount (tasks s ++ [Started])).
      rewrite flightCount_app, flightCount_started. cbn.
      split; [apply Forall_app; split; [exact Hok|repeat constructor]|]. lia.
    + inversion Hexec; subst; clear Hexec. cbn. fold (flightCount (tasks s)).
      split; [exact Hok|]. lia.
  - destruct (tasks s !! i) as [t|] eqn:Hi; [|discriminate].
    destruct (taskStep m t (semaphore s)) as [[t' sem']|] eqn:Hstep; [|discriminate].
    inversion Hexec; subst; clear Hexec. cbn.
    fold (flightCount (<[i:=t']> (tasks s))).
    assert (taskOK t) as Ht.
    { rewrite Forall_forall in Hok. apply Hok. apply list_elem_of_lookup. eauto. }
    destruct (taskStep_ok m t (semaphore s) t' sem' Ht Hstep) as (Hok' & Hle & Hbal).
    pose proof (flightCount_insert (tasks s) i t t' Hi) as Hins.
    split; [apply Forall_insert; assumption|].
    revert Hbal Hins. destruct (inFlight t), (inFlight t'); intros; split; lia.
Qed.

Lemma run_invariant acts s s' :
  invariant s -> run cfg acts s = Some s' -> invariant s'.
Proof.
  revert s. induction acts as [|a acts IH]; intros s Hinv Hrun; cbn in Hrun.
  - inversion Hrun; subst. exact Hinv.
  - destruct (exec cfg a s) as [s1|] eqn:E; [|discriminate].
    apply (IH s1); [apply (exec_invariant a s s1 Hinv E)|exact Hrun].
Qed.

Lemma reachable_invariant s : reachable cfg s -> invariant s.
Proof. intros [acts Hrun]. exact (run_invariant acts initial s invariant_initial Hrun). Qed.

Lemma invariant_no_crash s : invariant s -> Unrecovered ∉ tasks s.
Proof.
  intros (Hok & _) Hin. rewrite Forall_forall in Hok. exact (Hok _ Hin).
Qed.

Lemma flightCount_pos ts i t :
  ts !! i = Some t -> inFlight t = true -> (1 <= flightCount ts)%nat.
Proof.
  intros Hi Ht. rewrite <- (take_drop_middle ts i t Hi).
  rewrite flightCount_app, flightCount_cons, Ht. lia.
Qed.

(** An unfinished cycle goroutine can always take a step: its deferred
    receive never blocks. *)
Lemma invariant_task_progress s i t :
  invariant s -> tasks s !! i = Some t -> t <> Finished ->
  exists m s', exec cfg (TaskStep i m) s = Some s'.
Proof.
  intros Hinv Hi Hne. pose proof (invariant_no_crash s Hinv) as Hnc.
  destruct Hinv as (Hok & Hsem & Hcap).
  assert (taskOK t) as Ht.
  { rewrite Forall_forall in Hok. apply Hok. apply list_elem_of_lookup. eauto. }
  unfold exec. rewrite bool_decide_eq_false_2 by exact Hnc. rewrite Hi.
  destruct t as [| | |p ds| |]; cbn [taskOK] in Ht.
  - exists Proceed. eexists. reflexivity.
  - exists Proceed. eexists. reflexivity.
  - exists Return. eexists. reflexivity.
  - destruct Ht as [->|[->|[->|[-> ->]]]]; exists Proceed.
    + destruct p; eexists; reflexivity.
    + assert (1 <= semaphore s)%nat as Hpos.
      { rewrite Hsem. unfold cyclesInFlight. fold (flightCount (tasks s)).
        pose proof (flightCount_pos (tasks s) i _ Hi eq_refl). lia. }
      destruct (semaphore s) as [|n]; [lia|]. destruct p; eexists; reflexivity.
    + destruct p; eexists; reflexivity.
    + eexists. reflexivity.
  - congruence.
  - contradiction.
Qed.

(** With no cycle in flight the loop launches the next one. *)
Lemma invariant_next_cycle s :
  invariant s -> cyclesInFlight s = 0%nat ->
  exists acts s',
    Forall (fun a => a = LoopStep) acts
    /\ run cfg acts s = Some s'
    /\ tasks s' = tasks s ++ [Started]
    /\ cyclesInFlight s' = 1%nat.
Proof.
  intros Hinv Hzero. pose proof (invariant_no_crash s Hinv) as Hnc.
  destruct Hinv as (Hok & Hsem & Hcap).
  unfold launchPending in Hsem. rewrite Hzero in Hsem.
  assert (forall s0, tasks s0 = tasks s -> loop s0 = AtLaunch ->
            exists s', run cfg [LoopStep] s0 = Some s'
                       /\ tasks s' = tasks s ++ [Started]) as Hlaunch.
  { intros s0 Ht Hl. cbn [run]. unfold exec. rewrite Ht.
    rewrite bool_decide_eq_false_2 by exact Hnc. rewrite Hl.
    eexists. split; [reflexivity|]. reflexivity. }
  assert (forall s', tasks s' = tasks s ++ [Started] -> cyclesInFlight s' = 1%nat) as Hcount.
  { intros s' Ht. unfold cyclesInFlight in *. rewrite Ht.
    fold (flightCount (tasks s ++ [Started])).
    rewrite flightCount_app, flightCount_started, Hzero. reflexivity. }
  destruct (loop s) eqn:Hl.
  - exists [LoopStep; LoopStep]. cbn [run]. unfold exec at 1.
    rewrite bool_decide_eq_false_2 by exact Hnc. rewrite Hl.
    replace (semaphore s <? semaphoreCap)%nat with true
      by (symmetry; apply Nat.ltb_lt; unfold semaphoreCap; lia).
    destruct (Hlaunch (mkSystem (S (semaphore s)) AtLaunch (tasks s) (sleeps s))
                eq_refl eq_refl) as (s' & Hrun & Ht).
    cbn [run] in Hrun. exists s'. split; [repeat constructor|].
    split; [exact Hrun|]. split; [exact Ht|apply Hcount; exact Ht].
  - destruct (Hlaunch s eq_refl Hl) as (s' & Hrun & Ht).
    exists [LoopStep], s'. split; [repeat constructor|].
    split; [exact Hrun|]. split; [exact Ht|apply Hcount; exact Ht].
  - exists [LoopStep; LoopStep; LoopStep]. cbn [run]. unfold exec at 1.
    rewrite bool_decide_eq_false_2 by exact Hnc. rewrite Hl.
    unfold exec at 1. cbn [tasks loop semaphore sleeps].
    rewrite bool_decide_eq_false_2 by exact Hnc.
    replace (semaphore s <? semaphoreCap)%nat with true
      by (symmetry; apply Nat.ltb_lt; unfold semaphoreCap; lia).
    destruct (Hlaunch (mkSystem (S (semaphore s)) AtLaunch (tasks s)
                                (sleeps s ++ [waitNextCheck cfg]))
                eq_refl eq_refl) as (s' & Hrun & Ht).
    cbn [run] in Hrun. exists s'. split; [repeat constructor|].
    split; [exact Hrun|]. split; [exact Ht|apply Hcount; exact Ht].
Qed.



Lemma exec_task s i m t t' sem' :
  Unrecovered ∉ tasks s ->
  tasks s !! i = Some t ->
  taskStep m t (semaphore s) = Some (t', sem') ->
  exec cfg (TaskStep i m) s
  = Some (mkSystem sem' (loop s) (<[i := t']> (tasks s)) (sleeps s)).
Proof.
  intros Hnc Hi Hstep. unfold exec.
  rewrite bool_decide_eq_false_2 by exact Hnc. rewrite Hi, Hstep. reflexivity.
Qed.

Lemma run_app acts1 acts2 s :
  run cfg (acts1 ++ acts2) s
  = match run cfg acts1 s with
    | Some s1 => run cfg acts2 s1
    | None => None
    end.
Proof.
  revert s. induction acts1 as [|a acts1 IH]; intros s; [reflexivity|].
  cbn [app run]. destruct (exec cfg a s); [apply IH|reflexivity].
Qed.

(** From the point where its deferred calls start to run, a cycle
    goroutine that still holds the slot ends after releasing it. *)
Lemma exit_releases s i p ds :
  invariant s ->
  tasks s !! i = Some (Exiting p ds) ->
  existsb releasesSlot ds = true ->
  exists s',
    run cfg (repeat (TaskStep i Proceed) (S (length ds))) s = Some s'
    /\ tasks s' = <[i := Finished]> (tasks s)
    /\ S (semaphore s') = semaphore s
    /\ loop s' = loop s
    /\ sleeps s' = sleeps s.
Proof.
  intros Hinv Hi Hrel.
  pose proof (invariant_no_crash s Hinv) as Hnc.
  pose proof Hinv as (Hok & Hsem & Hcap).
  assert (taskOK (Exiting p ds)) as Ht.
  { rewrite Forall_forall in Hok. apply Hok. apply list_elem_of_lookup. eauto. }
  assert (1 <= semaphore s)%nat as Hpos.
  { rewrite Hsem. unfold cyclesInFlight. fold (flightCount (tasks s)).
    pose proof (flightCount_pos (tasks s) i _ Hi Hrel). lia. }
  assert (i < length (tasks s))%nat as Hlen by (apply lookup_lt_Some in Hi; exact Hi).
  destruct (semaphore s) as [|n] eqn:Hs; [lia|].
  assert (forall ts (x y : task), (i < length ts)%nat ->
            <[i := y]> (<[i := x]> ts) = <[i := y]> ts) as Hii.
  { intros ts x y _. apply list_insert_insert_eq. }
  assert (forall ts, Unrecovered ∉ tasks s -> forall x, x <> Unrecovered ->
            ts = <[i := x]> (tasks s) -> Unrecovered ∉ ts) as Hnc'.
  { intros ts Hn x Hx -> Hin. apply list_elem_of_lookup in Hin as [j Hj].
    destruct (decide (i = j)) as [<-|Hne].
    - rewrite list_lookup_insert_eq in Hj by exact Hlen. congruence.
    - rewrite list_lookup_insert_ne in Hj by exact Hne.
      apply Hn. apply list_elem_of_lookup. eauto. }
  cbn [taskOK] in Ht.
  destruct Ht as [->|[->|[->|[-> ->]]]]; cbn in Hrel; try discriminate;
    cbn [length repeat run].
  - (* ComshimDone; ReleaseSlot; RecoverSilently *)
    erewrite exec_task; [|exact Hnc|exact Hi|destruct p; reflexivity].
    erewrite exec_task;
      [|eapply Hnc'; [exact Hnc| |reflexivity]; discriminate
       |cbn [tasks]; apply list_lookup_insert_eq; exact Hlen
       |cbn [semaphore]; rewrite Hs; destruct p; reflexivity].
    cbn [tasks semaphore loop sleeps]. rewrite Hii by exact Hlen.
    erewrite exec_task;
      [|eapply Hnc'; [exact Hnc| |reflexivity]; discriminate
       |cbn [tasks]; apply list_lookup_insert_eq; exact Hlen
       |destruct p; reflexivity].
    cbn [tasks semaphore loop sleeps]. rewrite Hii by exact Hlen.
    erewrite exec_task;
      [|eapply Hnc'; [exact Hnc| |reflexivity]; discriminate
       |cbn [tasks]; apply list_lookup_insert_eq; exact Hlen
       |reflexivity].
    cbn [tasks semaphore loop sleeps]. rewrite Hii by exact Hlen.
    eexists. split; [reflexivity|]. cbn. repeat split; reflexivity.
  - (* ReleaseSlot; RecoverSilently *)
    erewrite exec_task; [|exact Hnc|exact Hi|rewrite Hs; destruct p; reflexivity].
    erewrite exec_task;
      [|eapply Hnc'; [exact Hnc| |reflexivity]; discriminate
       |cbn [tasks]; apply list_lookup_insert_eq; exact Hlen
       |destruct p; reflexivity].
    cbn [tasks semaphore loop sleeps]. rewrite Hii by exact Hlen.
    erewrite exec_task;
      [|eapply Hnc'; [exact Hnc| |reflexivity]; discriminate
       |cbn [tasks]; apply list_lookup_insert_eq; exact Hlen
       |reflexivity].
    cbn [tasks semaphore loop sleeps]. rewrite Hii by exact Hlen.
    eexists. split; [reflexivity|]. cbn. repeat split; reflexivity.
Qed.

(** A cycle that returns or panics, before or after [comshim.Add], ends
    with the slot released. *)
Lemma cycle_end_releases s i t m :
  invariant s ->
  tasks s !! i = Some t ->
  t = Entered \/ t = Working ->
  m = Return \/ m = Panic ->
  exists n s',
    run cfg (TaskStep i m :: repeat (TaskStep i Proceed) n) s = Some s'
    /\ tasks s' = <[i := Finished]> (tasks s)
    /\ S (semaphore s') = semaphore s
    /\ loop s' = loop s
    /\ sleeps s' = sleeps s.
Proof.
  intros Hinv Hi Ht Hm.
  pose proof (invariant_no_crash s Hinv) as Hnc.
  assert (i < length (tasks s))%nat as Hlen by (apply lookup_lt_Some in Hi; exact Hi).
  assert (exists p ds s1,
            exec cfg (TaskStep i m) s = Some s1
            /\ s1 = mkSystem (semaphore s) (loop s)
                             (<[i := Exiting p ds]> (tasks s)) (sleeps s)
            /\ existsb releasesSlot ds = true) as (p & ds & s1 & Hexec & Hs1 & Hrel).
  { destruct Ht as [-> | ->], Hm as [-> | ->];
      eexists _, _, _;
      (split; [eapply exec_task; [exact Hnc|exact Hi|reflexivity]|]);
      split; reflexivity. }
  assert (invariant s1) as Hinv1 by exact (exec_invariant _ s s1 Hinv Hexec).
  assert (tasks s1 !! i = Some (Exiting p ds)) as Hi1.
  { rewrite Hs1. cbn [tasks]. apply list_lookup_insert_eq. exact Hlen. }
  destruct (exit_releases s1 i p ds Hinv1 Hi1 Hrel)
    as (s' & Hrun & Htasks & Hsem & Hloop & Hsl).
  exists (S (length ds)), s'. cbn [run]. rewrite Hexec.
  split; [exact Hrun|]. rewrite Hs1 in Htasks, Hsem, Hloop, Hsl.
  cbn [tasks semaphore loop sleeps] in Htasks, Hsem, Hloop, Hsl.
  rewrite list_insert_insert_eq in Htasks. auto.
Qed.

End SchedulerFacts.

(** Claim C7. In every state the scheduler can reach, at most one cycle
    is in flight; no panic has left a cycle goroutine; the loop can take the
    slot exactly when no cycle is in flight; an unfinished cycle goroutine
    can always go on, its deferred release never blocking; a cycle that
    returns or panics runs its deferred calls to the end, releasing the slot
    and leaving the loop where it was; and with no cycle in flight the loop
    launches the next cycle. *)
Theorem single_flight_guard cfg s :
  reachable cfg s ->
  (cyclesInFlight s <= 1)%nat
  /\ (Unrecovered ∉ tasks s)
  /\ (loop s = AtAcquire ->
      ((exists s', exec cfg LoopStep s = Some s') <-> cyclesInFlight s = 0%nat))
  /\ (forall i t, tasks s !! i = Some t -> t <> Finished ->
                  exists m s', exec cfg (TaskStep i m) s = Some s')
  /\ (forall i t m,
        tasks s !! i = Some t ->
        t = Entered \/ t = Working ->
        m = Return \/ m = Panic ->
        exists n s',
          run cfg (TaskStep i m :: repeat (TaskStep i Proceed) n) s = Some s'
          /\ tasks s' = <[i := Finished]> (tasks s)
          /\ S (semaphore s') = semaphore s
          /\ loop s' = loop s)
  /\ (cyclesInFlight s = 0%nat ->
      exists acts s',
        Forall (fun a => a = LoopStep) acts
        /\ run cfg acts s = Some s'
        /\ tasks s' = tasks s ++ [Started]
        /\ cyclesInFlight s' = 1%nat).
Proof.
  intros Hreach. pose proof (reachable_invariant cfg s Hreach) as Hinv.
  pose proof (invariant_no_crash s Hinv) as Hnc.
  pose proof Hinv as (Hok & Hsem & Hcap). unfold semaphoreCap in Hcap.
  split; [lia|]. split; [exact Hnc|]. split.
  { intros Hl. unfold exec. rewrite bool_decide_eq_false_2 by exact Hnc.
    rewrite Hl. unfold launchPending in Hsem. rewrite Hl in Hsem.
    unfold semaphoreCap. split.
    - intros [s' Hs']. destruct (semaphore s <? 1)%nat eqn:E; [|discriminate].
      apply Nat.ltb_lt in E. lia.
    - intros Hz. replace (semaphore s <? 1)%nat with true
        by (symmetry; apply Nat.ltb_lt; lia).
      eexists. reflexivity. }
  split; [intros i t; apply invariant_task_progress; exact Hinv|].
  split.
  { intros i t m Hi Ht Hm.
    destruct (cycle_end_releases cfg s i t m Hinv Hi Ht Hm)
      as (n & s' & H1 & H2 & H3 & H4 & _).
    exists n, s'. auto. }
  apply invariant_next_cycle. exact Hinv.
Qed.

Lemma single_flight_guard_witness :
  reachable plainConfig (mkSystem 1 AtWait [Working] [])
  /\ (cyclesInFlight (mkSystem 1 AtWait [Working] []) <= 1)%nat
  /\ (Unrecovered ∉ tasks (mkSystem 1 AtWait [Working] [])).
Proof.
  assert (reachable plainConfig (mkSystem 1 AtWait [Working] [])) as Hr.
  { exists [LoopStep; LoopStep; TaskStep 0 Proceed; TaskStep 0 Proceed]. reflexivity. }
  split; [exact Hr|].
  destruct (single_flight_guard plainConfig _ Hr) as (H1 & H2 & _).
  split; [exact H1|exact H2].
Defined.

(** Claim C9 as stated fails on when the sleep happens: the loop sleeps
    right after it has launched a cycle, not after the cycle has completed.
    Here the first sleep of ten seconds is over and the cycle launched
    before it has not run a statement. *)
Lemma sleep_overlaps_cycle :
  run plainConfig [LoopStep; LoopStep; LoopStep] initial
  = Some (mkSystem 1 AtAcquire [Started] [10 * Second])
  /\ ~ sleepsAfterCycleCompletes plainConfig.
Proof.
  split; [reflexivity|].
  intros H.
  assert (reachable plainConfig (mkSystem 1 AtWait [Started] [])) as Hr.
  { exists [LoopStep; LoopStep]. reflexivity. }
  specialize (H _ _ Hr eq_refl eq_refl). discriminate H.
Qed.

Section WaitFacts.
#[local] Ltac Zify.zify_post_hook ::= Z.to_euclidean_division_equations.

Lemma wrapInt64_small z : - 2 ^ 63 <= z < 2 ^ 63 -> wrapInt64 z = z.
Proof. unfold wrapInt64. intros H. lia. Qed.

End WaitFacts.

(** Claim C9, amended. After launching each cycle the loop of
    [mainLogic] calls [waitNextCheck], which sleeps for the configured number
    of seconds, or for ten seconds when that number is zero or negative,
    before the loop tries to take the slot again. The number of seconds is
    exact up to 9223372036, beyond which the int64 duration wraps around;
    a validated configuration has at most 1000. *)
Theorem waitNextCheck_after_launch cfg :
  (CheckIntervalSeconds cfg <= 0 -> waitNextCheck cfg = 10 * Second)
  /\ (0 < CheckIntervalSeconds cfg <= 9223372036 ->
      waitNextCheck cfg = CheckIntervalSeconds cfg * Second)
  /\ (forall s s',
        loop s = AtLaunch -> exec cfg LoopStep s = Some s' ->
        loop s' = AtWait /\ tasks s' = tasks s ++ [Started]
        /\ sleeps s' = sleeps s)
  /\ (forall s s',
        loop s = AtWait -> exec cfg LoopStep s = Some s' ->
        loop s' = AtAcquire /\ tasks s' = tasks s
        /\ sleeps s' = sleeps s ++ [waitNextCheck cfg]).
Proof.
  unfold waitNextCheck, Second. split; [|split; [|split]].
  - intros H. replace (CheckIntervalSeconds cfg <=? 0) with true by (symmetry; lia).
    apply wrapInt64_small. lia.
  - intros H. replace (CheckIntervalSeconds cfg <=? 0) with false by (symmetry; lia).
    apply wrapInt64_small. lia.
  - intros s s' Hl. unfold exec. case_bool_decide; [discriminate|].
    rewrite Hl. intros [= <-]. repeat split; reflexivity.
  - intros s s' Hl. unfold exec. case_bool_decide; [discriminate|].
    rewrite Hl. intros [= <-]. repeat split; reflexivity.
Qed.

(** * Further properties *)

Import Boundaries Mailbox Handles Effects Pacing Logging Processes Validation Cycle.

(** ** Round trips between text and runes *)

Section Utf8RoundTrip.
#[local] Ltac Zify.zify_post_hook ::= Z.to_euclidean_division_equations.

(** A decoding step that [utf8.ValidString] accepts. *)
Lemma EncodeRune_DecodeRune c t :
  ~ (fst (DecodeRune (c :: t)) = RuneError /\ snd (DecodeRune (c :: t)) = 1%nat) ->
  EncodeRune (fst (DecodeRune (c :: t))) = take (snd (DecodeRune (c :: t))) (c :: t).
Proof.
  intros Hok.
  pose proof (b2z_range c) as R0.
  destruct (Z_lt_dec (b2z c) 0x80) as [Ha|Ha].
  { rewrite DecodeRune_1 by exact Ha. cbn [fst snd take].
    rewrite EncodeRune_1 by lia. rewrite z2b_b2z, take_0. reflexivity. }
  destruct (leadClass (b2z c)) as [[[sz lo] hi]|] eqn:Hl.
  2:{ exfalso. apply Hok. unfold DecodeRune, byteAt. cbn [length nth]. rewrite Hl.
      repeat split_if; split; reflexivity. }
  pose proof (leadClass_spec _ _ _ _ Hl) as Hs.
  destruct t as [|c1 t1].
  { exfalso. apply Hok. unfold DecodeRune, byteAt. cbn [length nth]. rewrite Hl.
    repeat split_if; split; reflexivity. }
  pose proof (b2z_range c1) as R1.
  destruct (Z_lt_dec (b2z c1) lo) as [Hlo|Hlo].
  { exfalso. apply Hok. unfold DecodeRune, byteAt. cbn [length nth]. rewrite Hl.
    repeat split_if; split; reflexivity. }
  destruct (Z_lt_dec hi (b2z c1)) as [Hhi|Hhi].
  { exfalso. apply Hok. unfold DecodeRune, byteAt. cbn [length nth]. rewrite Hl.
    repeat split_if; split; reflexivity. }
  destruct Hs as [(-> & -> & -> & Hr)|Hs].
  { rewrite DecodeRune_2 by lia. cbn [fst snd take]. rewrite take_0.
    rewrite EncodeRune_2 by lia.
    rewrite <- (z2b_b2z c) at 3. rewrite <- (z2b_b2z c1) at 3.
    f_equal; [f_equal; lia|f_equal; f_equal; lia]. }
  destruct t1 as [|c2 t2].
  { exfalso. apply Hok. unfold DecodeRune, byteAt. cbn [length nth]. rewrite Hl.
    destruct Hs as [Hs|Hs]; repeat split_if; split; reflexivity. }
  pose proof (b2z_range c2) as R2.
  destruct (Z_lt_dec (b2z c2) 0x80) as [H2|H2].
  { exfalso. apply Hok. unfold DecodeRune, byteAt, locb, hicb. cbn [length nth]. rewrite Hl.
    destruct Hs as [Hs|Hs]; repeat split_if; split; reflexivity. }
  destruct (Z_lt_dec 0xBF (b2z c2)) as [H2'|H2'].
  { exfalso. apply Hok. unfold DecodeRune, byteAt, locb, hicb. cbn [length nth]. rewrite Hl.
    destruct Hs as [Hs|Hs]; repeat split_if; split; reflexivity. }
  destruct Hs as [(-> & Hr & Elo & Ehi)|(-> & Hr & Elo & Ehi)].
  { erewrite DecodeRune_3; [|exact Hl|lia|lia]. cbn [fst snd take]. rewrite take_0.
    assert (lo = 0xA0 /\ b2z c = 0xE0 \/ lo = 0x80 /\ b2z c <> 0xE0) as Hlo'
      by (subst lo; split_if).
    assert (hi = 0x9F /\ b2z c = 0xED \/ hi = 0xBF /\ b2z c <> 0xED) as Hhi'
      by (subst hi; split_if).
    clear Elo Ehi.
    rewrite EncodeRune_3 by (unfold surrogateMin, surrogateMax; lia).
    rewrite <- (z2b_b2z c) at 4. rewrite <- (z2b_b2z c1) at 4.
    rewrite <- (z2b_b2z c2) at 4.
    f_equal; [f_equal; lia|f_equal; [f_equal; lia|f_equal; f_equal; lia]]. }
  destruct t2 as [|c3 t3].
  { exfalso. apply Hok. unfold DecodeRune, byteAt, locb, hicb. cbn [length nth]. rewrite Hl.
    repeat split_if; split; reflexivity. }
  pose proof (b2z_range c3) as R3.
  destruct (Z_lt_dec (b2z c3) 0x80) as [H3|H3].
  { exfalso. apply Hok. unfold DecodeRune, byteAt, locb, hicb. cbn [length nth]. rewrite Hl.
    repeat split_if; split; reflexivity. }
  destruct (Z_lt_dec 0xBF (b2z c3)) as [H3'|H3'].
  { exfalso. apply Hok. unfold DecodeRune, byteAt, locb, hicb. cbn [length nth]. rewrite Hl.
    repeat split_if; split; reflexivity. }
  erewrite DecodeRune_4; [|exact Hl|lia|lia|lia]. cbn [fst snd take]. rewrite take_0.
  assert (lo = 0x90 /\ b2z c = 0xF0 \/ lo = 0x80 /\ b2z c <> 0xF0) as Hlo'
    by (subst lo; split_if).
  assert (hi = 0x8F /\ b2z c = 0xF4 \/ hi = 0xBF /\ b2z c <> 0xF4) as Hhi'
    by (subst hi; split_if).
  clear Elo Ehi.
  rewrite EncodeRune_4 by (unfold MaxRune; lia).
  rewrite <- (z2b_b2z c) at 5. rewrite <- (z2b_b2z c1) at 5.
  rewrite <- (z2b_b2z c2) at 5. rewrite <- (z2b_b2z c3) at 5.
  f_equal; [f_equal; lia|f_equal; [f_equal; lia|f_equal; [f_equal; lia|f_equal; f_equal; lia]]].
Qed.

End Utf8RoundTrip.

Lemma validFrom_skip k s :
  (k <= length s)%nat -> validFrom k s = ValidString (drop k s).
Proof.
  revert k. induction s as [|c t IH]; intros k Hk.
  - destruct k; reflexivity.
  - destruct k as [|k]; [reflexivity|].
    cbn [validFrom drop]. apply IH. cbn [length] in Hk. lia.
Qed.


Lemma ValidString_step c t :
  ValidString (c :: t)
  = stepOK (c :: t) && ValidString (drop (snd (DecodeRune (c :: t))) (c :: t)).
Proof.
  pose proof (DecodeRune_width (c :: t) ltac:(discriminate)) as Hw.
  unfold ValidString at 1. cbn [validFrom]. unfold stepOK. f_equal.
  destruct (snd (DecodeRune (c :: t))) as [|w]; [lia|].
  cbn [drop]. replace (S w - 1)%nat with w by lia.
  apply validFrom_skip. cbn [length] in Hw. lia.
Qed.

Lemma stepOK_spec s :
  stepOK s = true <->
  ~ (fst (DecodeRune s) = RuneError /\ snd (DecodeRune s) = 1%nat).
Proof.
  unfold stepOK. rewrite negb_true_iff, andb_false_iff, Z.eqb_neq, Nat.eqb_neq.
  split; [intros [H|H] [H1 H2]; contradiction|].
  intros H. destruct (Z.eq_dec (fst (DecodeRune s)) RuneError) as [E|E]; [|left; exact E].
  right. intros E2. apply H. split; assumption.
Qed.

(** Decoding a valid string and encoding the runes gives the string back. *)
Lemma stringOfRunes_runes s : ValidString s = true -> stringOfRunes (runes s) = s.
Proof.
  remember (length s) as n eqn:Hn. revert s Hn.
  induction n as [n IH] using lt_wf_ind. intros s Hn Hv.
  destruct s as [|c t]; [reflexivity|].
  rewrite ValidString_step in Hv. apply andb_true_iff in Hv as [Hok Hrest].
  apply stepOK_spec in Hok.
  pose proof (DecodeRune_width (c :: t) ltac:(discriminate)) as Hw.
  rewrite runes_step by discriminate. unfold stringOfRunes. cbn [flat_map].
  fold (stringOfRunes (runes (drop (snd (DecodeRune (c :: t))) (c :: t)))).
  rewrite (IH (length (drop (snd (DecodeRune (c :: t))) (c :: t)))); 
    [|rewrite length_drop; subst n; lia|reflexivity|exact Hrest].
  rewrite EncodeRune_DecodeRune by exact Hok. apply take_drop.
Qed.

(** Encoded runes are a valid string, whatever follows decides the rest. *)
Lemma ValidString_encode_app r rest :
  validRune r -> ValidString (EncodeRune r ++ rest) = ValidString rest.
Proof.
  intros Hr. pose proof (EncodeRune_nonempty r) as Hne.
  destruct (EncodeRune r ++ rest) as [|c t] eqn:E.
  { destruct (EncodeRune r); [congruence|discriminate]. }
  rewrite ValidString_step, <- E. 
  assert (stepOK (EncodeRune r ++ rest) = true) as ->.
  { apply stepOK_spec. rewrite DecodeRune_EncodeRune by exact Hr. cbn [fst snd].
    intros [H1 H2]. subst r.
    change (length (EncodeRune RuneError)) with 3%nat in H2. discriminate. }
  rewrite DecodeRune_EncodeRune by exact Hr. cbn [snd andb].
  rewrite drop_app_length. reflexivity.
Qed.

Lemma ValidString_stringOfRunes_app rs rest :
  Forall validRune rs -> ValidString (stringOfRunes rs ++ rest) = ValidString rest.
Proof.
  induction 1 as [|r rs Hr _ IH]; [reflexivity|].
  unfold stringOfRunes in *. cbn [flat_map]. rewrite <- app_assoc.
  rewrite ValidString_encode_app by exact Hr. exact IH.
Qed.

Lemma ValidString_app s1 s2 :
  ValidString s1 = true -> ValidString (s1 ++ s2) = ValidString s2.
Proof.
  intros H1. rewrite <- (stringOfRunes_runes s1 H1).
  apply ValidString_stringOfRunes_app, runes_valid.
Qed.

Lemma stringOfRunes_app rs1 rs2 :
  stringOfRunes (rs1 ++ rs2) = stringOfRunes rs1 ++ stringOfRunes rs2.
Proof. unfold stringOfRunes. apply flat_map_app. Qed.

(** Property X1. [truncateByRunes] with a bound that is not negative returns;
    a text it shortens comes out as valid UTF-8, and a valid text comes out
    valid, the shortened one being a proper prefix of the text, cut between
    two characters, followed by the three dots. *)
Theorem truncateByRunes_utf8_safe text maxRunes :
  0 <= maxRunes ->
  exists out,
    truncateByRunes text maxRunes = Returns out
    /\ (maxRunes < runeCount text -> ValidString out = true)
    /\ (ValidString text = true ->
        ValidString out = true
        /\ (maxRunes < runeCount text ->
            exists k, (k < length text)%nat /\ out = take k text ++ lit "...")).
Proof.
  intros Hn. rewrite truncateByRunes_nonneg by exact Hn. eexists. split; [reflexivity|].
  destruct (truncated_cases text maxRunes Hn) as [Hshort Hlong].
  assert (maxRunes < runeCount text -> ValidString (truncated text maxRunes) = true) as Hv.
  { intros Hlt. destruct (Hlong Hlt) as (-> & _).
    rewrite ValidString_stringOfRunes_app by (apply Forall_take, runes_valid).
    reflexivity. }
  split; [exact Hv|]. intros Hvalid. split.
  - destruct (Z_lt_dec maxRunes (runeCount text)) as [Hlt|Hge]; [exact (Hv Hlt)|].
    rewrite Hshort by lia. exact Hvalid.
  - intros Hlt. destruct (Hlong Hlt) as (-> & _ & Hlen).
    pose proof (stringOfRunes_runes text Hvalid) as Hrt.
    rewrite <- (take_drop (Z.to_nat maxRunes) (runes text)) in Hrt.
    rewrite stringOfRunes_app in Hrt.
    assert (drop (Z.to_nat maxRunes) (runes text) <> []) as Hne.
    { intros E. apply (f_equal length) in E. rewrite length_drop in E.
      unfold runeCount in Hlt. cbn in E. lia. }
    set (kept := stringOfRunes (take (Z.to_nat maxRunes) (runes text))) in *.
    set (dropped := stringOfRunes (drop (Z.to_nat maxRunes) (runes text))) in *.
    assert (dropped <> []) as Hd.
    { subst dropped. destruct (drop (Z.to_nat maxRunes) (runes text)) as [|r rs];
        [congruence|].
      unfold stringOfRunes. cbn [flat_map]. pose proof (EncodeRune_nonempty r).
      destruct (EncodeRune r); [congruence|discriminate]. }
    exists (length kept). rewrite <- Hrt. split.
    + rewrite length_app. destruct dropped; [congruence|cbn [length]; lia].
    + rewrite take_app_length. reflexivity.
Qed.

(** A prefix that holds the whole first rune decodes to that rune. *)
Lemma DecodeRune_take k s :
  (snd (DecodeRune s) <= k)%nat -> DecodeRune (take k s) = DecodeRune s.
Proof.
  destruct s as [|c t]; [destruct k; reflexivity|].
  destruct k as [|k].
  { pose proof (DecodeRune_width (c :: t) ltac:(discriminate)). lia. }
  cbn [take].
  destruct (leadClass (b2z c)) as [[[sz lo] hi]|] eqn:Hl.
  2:{ intros _. unfold DecodeRune, byteAt. cbn [length nth]. rewrite Hl.
      repeat split_if; reflexivity. }
  pose proof (leadClass_spec _ _ _ _ Hl) as Hs.
  unfold DecodeRune, byteAt, locb, hicb. cbn [nth]. rewrite Hl.
  destruct t as [|c1 t]; [destruct k; cbn [take length nth]; intros;
                          repeat split_if; reflexivity|].
  destruct k as [|k];
    [cbn [take length nth]; repeat split_if; cbn [snd]; intros; try lia; reflexivity|].
  destruct t as [|c2 t]; [destruct k; cbn [take length nth]; intros;
                          repeat split_if; reflexivity|].
  destruct k as [|k];
    [cbn [take length nth]; repeat split_if; cbn [snd]; intros; try lia; reflexivity|].
  destruct t as [|c3 t]; [destruct k; cbn [take length nth]; intros;
                          repeat split_if; reflexivity|].
  destruct k as [|k];
    [cbn [take length nth]; repeat split_if; cbn [snd]; intros; try lia; reflexivity|].
  cbn [take length nth]. intros _. rewrite length_take.
  repeat split_if; reflexivity.
Qed.

(** ** Prefixes cut at a character boundary *)

Lemma runeStartsFrom_shift skip pos s :
  runeStartsFrom skip pos s
  = map (fun i => (pos + skip + i)%nat) (runeStarts (drop skip s)).
Proof.
  revert skip pos. induction s as [|c t IH]; intros skip pos.
  - destruct skip; reflexivity.
  - destruct skip as [|k].
    + unfold runeStarts. cbn [drop runeStartsFrom map].
      rewrite (IH _ (S pos)), (IH _ 1%nat), map_map.
      f_equal; [lia|]. apply map_ext. intros i. lia.
    + cbn [drop runeStartsFrom]. rewrite IH. apply map_ext. intros i. lia.
Qed.

Lemma runeStarts_step c t :
  runeStarts (c :: t)
  = 0%nat :: map (fun i => (snd (DecodeRune (c :: t)) + i)%nat)
                 (runeStarts (drop (snd (DecodeRune (c :: t))) (c :: t))).
Proof.
  pose proof (DecodeRune_width (c :: t) ltac:(discriminate)) as Hw.
  unfold runeStarts at 1. cbn [runeStartsFrom]. f_equal.
  rewrite runeStartsFrom_shift.
  destruct (snd (DecodeRune (c :: t))) as [|w]; [lia|].
  cbn [drop]. replace (S w - 1)%nat with w by lia.
  apply map_ext. intros i. lia.
Qed.

Lemma isStart_runeStarts s i : i ∈ runeStarts s <-> isStart s i.
Proof.
  split.
  - remember (length s) as n eqn:Hn. revert s i Hn.
    induction n as [n IH] using lt_wf_ind. intros s i Hn Hi.
    destruct s as [|c t]; [inversion Hi|].
    rewrite runeStarts_step in Hi.
    apply elem_of_cons in Hi as [->|Hi]; [constructor; discriminate|].
    apply list_elem_of_fmap in Hi as (i' & -> & Hi').
    pose proof (DecodeRune_width (c :: t) ltac:(discriminate)) as Hw.
    constructor; [discriminate|].
    eapply IH; [|reflexivity|exact Hi']. rewrite length_drop. subst n. lia.
  - induction 1 as [s Hs|s i Hs _ IH].
    + destruct s as [|c t]; [congruence|]. rewrite runeStarts_step. left.
    + destruct s as [|c t]; [congruence|]. rewrite runeStarts_step. right.
      apply list_elem_of_fmap. exists i. split; [reflexivity|exact IH].
Qed.

Lemma isStart_lt s i : isStart s i -> (i < length s)%nat.
Proof.
  induction 1 as [s Hs|s i Hs _ IH].
  - destruct s; [congruence|cbn; lia].
  - pose proof (DecodeRune_width s Hs). rewrite length_drop in IH. lia.
Qed.

(** Cutting a string where a rune starts keeps the runes before the cut. *)
Lemma take_isStart_step s i :
  isStart s i -> i <> 0%nat ->
  exists i', i = (snd (DecodeRune s) + i')%nat
             /\ isStart (drop (snd (DecodeRune s)) s) i'.
Proof.
  intros H Hne. inversion H as [s0 Hs|s0 i' Hs Hi']; subst; [congruence|].
  eauto.
Qed.


Lemma take_plus_drop {A} (w i : nat) (s : list A) :
  take (w + i) s = take w s ++ take i (drop w s).
Proof.
  revert s. induction w as [|w IH]; intros s; [rewrite drop_0; reflexivity|].
  destruct s as [|x s]; [cbn; rewrite take_nil; reflexivity|].
  cbn [Nat.add take drop app]. f_equal. apply IH.
Qed.

Lemma drop_take_width {A} (w i : nat) (s : list A) :
  drop w (take (w + i) s) = take i (drop w s).
Proof.
  revert s. induction w as [|w IH]; intros s; [reflexivity|].
  destruct s as [|x s]; [cbn; rewrite take_nil; reflexivity|].
  cbn [Nat.add take drop]. apply IH.
Qed.

(** A cut at a rune start after the first rune leaves the first rune whole. *)
Lemma DecodeRune_take_start s i :
  s <> [] ->
  DecodeRune (take (snd (DecodeRune s) + i) s) = DecodeRune s.
Proof. intros Hs. apply DecodeRune_take. lia. Qed.

Lemma take_width_cons c t i :
  exists t', take (snd (DecodeRune (c :: t)) + i) (c :: t) = c :: t'.
Proof.
  pose proof (DecodeRune_width (c :: t) ltac:(discriminate)) as Hw.
  destruct (snd (DecodeRune (c :: t))) as [|w]; [lia|]. eexists. reflexivity.
Qed.

Lemma ValidString_take_step c t i :
  ValidString (take (snd (DecodeRune (c :: t)) + i) (c :: t))
  = stepOK (c :: t)
    && ValidString (take i (drop (snd (DecodeRune (c :: t))) (c :: t))).
Proof.
  destruct (take_width_cons c t i) as [t' E].
  pose proof (DecodeRune_take_start (c :: t) i ltac:(discriminate)) as Hd.
  rewrite E in *. rewrite ValidString_step. unfold stepOK. rewrite Hd.
  rewrite <- E, drop_take_width. reflexivity.
Qed.

Lemma ValidString_take s i :
  isStart s i -> ValidString s = true -> ValidString (take i s) = true.
Proof.
  induction 1 as [s Hs|s i Hs Hi IH]; intros Hv.
  - rewrite take_0. reflexivity.
  - destruct s as [|c t]; [congruence|].
    rewrite ValidString_step in Hv. apply andb_true_iff in Hv as [Hok Hrest].
    rewrite ValidString_take_step, Hok. apply IH. exact Hrest.
Qed.

Lemma isStart_take s i j :
  isStart s i -> isStart (take i s) j -> isStart s j.
Proof.
  intros Hi. revert j. induction Hi as [s Hs|s i Hs Hi IH]; intros j Hj.
  - rewrite take_0 in Hj. inversion Hj; congruence.
  - destruct s as [|c t]; [congruence|].
    destruct (take_width_cons c t i) as [t' E].
    pose proof (DecodeRune_take_start (c :: t) i ltac:(discriminate)) as Hd.
    inversion Hj as [s0 Hs0|s0 j' Hs0 Hj' Es0]; subst.
    + constructor. discriminate.
    + rewrite Hd. constructor; [discriminate|].
      apply IH. rewrite Hd, drop_take_width in Hj'. exact Hj'.
Qed.

Section MatchPrefix.
Variable foldEq : Z -> Z -> bool.

(** A match inside a prefix cut at a rune start is a match in the string. *)
Lemma matchAt_take re s i :
  i = 0%nat \/ isStart s i ->
  matchAt foldEq re (take i s) = true -> matchAt foldEq re s = true.
Proof.
  revert s i. induction re as [|p re IH]; intros s i Hi Hm; [reflexivity|].
  destruct Hi as [->|Hi].
  { rewrite take_0 in Hm. discriminate Hm. }
  inversion Hi as [s0 Hs|s0 i' Hs Hi' Es0]; subst.
  { rewrite take_0 in Hm. discriminate Hm. }
  destruct s as [|c t]; [congruence|].
  destruct (take_width_cons c t i') as [t' E].
  pose proof (DecodeRune_take_start (c :: t) i' ltac:(discriminate)) as Hd.
  rewrite E in Hm, Hd. cbn [matchAt] in Hm |- *. rewrite Hd in Hm.
  apply andb_true_iff in Hm as [Hf Hrest]. rewrite Hf. cbn [andb].
  rewrite <- E, drop_take_width in Hrest.
  apply (IH _ i'); [right; exact Hi'|exact Hrest].
Qed.

(** A later rune start, seen from an earlier one. *)
Lemma isStart_drop s i j :
  isStart s i -> isStart s j -> (j <= i)%nat ->
  (i - j = 0)%nat \/ isStart (drop j s) (i - j).
Proof.
  intros Hi Hj. revert i Hi. induction Hj as [s Hs|s j Hs Hj IH]; intros i Hi Hle.
  - rewrite drop_0, Nat.sub_0_r. right. exact Hi.
  - pose proof (DecodeRune_width s Hs) as Hw.
    inversion Hi as [s0 Hs0|s0 i' Hs0 Hi' Es0]; subst; [lia|].
    replace (snd (DecodeRune s) + i' - (snd (DecodeRune s) + j))%nat
      with (i' - j)%nat by lia.
    rewrite <- drop_drop. apply IH; [exact Hi'|lia].
Qed.

(** The marker does not occur in what precedes its first occurrence. *)
Lemma firstOccurrence_prefix_clean re s i j :
  firstOccurrence foldEq re s i -> ~ occursAt foldEq re (take i s) j.
Proof.
  intros [[Hi Hmi] Hmin] [Hj Hmj].
  apply isStart_runeStarts in Hi. apply isStart_runeStarts in Hj.
  pose proof (isStart_lt _ _ Hj) as Hlt. rewrite length_take in Hlt.
  pose proof (isStart_take s i j Hi Hj) as Hj'.
  assert (occursAt foldEq re s j) as Hocc.
  { split; [apply isStart_runeStarts; exact Hj'|].
    apply (matchAt_take re (drop j s) (i - j)).
    - apply isStart_drop; [exact Hi|exact Hj'|lia].
    - rewrite <- (drop_take_width j (i - j) s) at 1.
      replace (j + (i - j))%nat with i by lia. exact Hmj. }
  specialize (Hmin j Hocc). lia.
Qed.

End MatchPrefix.

(** ** Occurrences of the marker, stated on the runes of the text *)

Section FoldedOccurrence.
Variable foldEq : Z -> Z -> bool.

(** The matcher accepts exactly the texts whose runes begin with the
    marker's runes up to folding. *)
Lemma matchAt_foldedPrefix re s :
  matchAt foldEq re s = true <-> foldedPrefix foldEq re (runes s).
Proof.
  revert s. induction re as [|p re IH]; intros s.
  - split; [|reflexivity]. intros _.
    exists [], (runes s). split; [reflexivity|constructor].
  - destruct s as [|c t].
    + cbn [matchAt]. split; [discriminate|].
      intros (matched & rest & E & Hall).
      inversion Hall as [|p' r re' m' Hf Hall']; subst.
      rewrite runes_nil in E. discriminate E.
    + rewrite runes_step by discriminate. cbn [matchAt].
      rewrite andb_true_iff, IH. split.
      * intros [Hf (matched & rest & E & Hall)].
        exists (fst (DecodeRune (c :: t)) :: matched), rest.
        split; [cbn [app]; rewrite E; reflexivity|].
        constructor; assumption.
      * intros (matched & rest & E & Hall).
        inversion Hall as [|p' r re' m' Hf Hall']; subst.
        cbn [app] in E. injection E as Er Em. subst r.
        split; [exact Hf|]. exists m', rest. split; [exact Em|exact Hall'].
Qed.

(** The positions the search of the code visits and accepts are the
    occurrences of the marker. *)
Lemma occursAt_occursFolded re s i :
  occursAt foldEq re s i <-> occursFolded foldEq re s i.
Proof.
  unfold occursAt, occursFolded.
  rewrite isStart_runeStarts, matchAt_foldedPrefix. reflexivity.
Qed.

End FoldedOccurrence.

(** ** Escaping and the bytes of the markup *)

Section EncodeBytes.
#[local] Ltac Zify.zify_post_hook ::= Z.to_euclidean_division_equations.

Lemma EncodeRune_invalid r :
  0x7FF < r -> MaxRune < r \/ surrogateMin <= r <= surrogateMax ->
  EncodeRune r = EncodeRune RuneError.
Proof.
  intros H Hs. unfold MaxRune, surrogateMin, surrogateMax in Hs. unfold EncodeRune at 1.
  replace ((0 <=? r) && (r <=? 127)) with false by (symmetry; apply andb_false_iff; lia).
  replace ((0 <=? r) && (r <=? 2047)) with false by (symmetry; apply andb_false_iff; lia).
  replace ((r <? 0) || (MaxRune <? r) || ((surrogateMin <=? r) && (r <=? surrogateMax)))
    with true; [reflexivity|].
  symmetry. unfold MaxRune, surrogateMin, surrogateMax.
  rewrite !orb_true_iff, andb_true_iff. lia.
Qed.

Lemma EncodeRune_high r :
  0x80 <= r -> Forall (fun b => ~ isASCII b) (EncodeRune r).
Proof.
  intros Hr. unfold isASCII.
  assert (forall z, 128 <= z < 256 -> ~ b2z (z2b z) < 128) as Hb
    by (intros z Hz; rewrite b2z_z2b by lia; lia).
  assert (Forall (fun b => ~ b2z b < 128) (EncodeRune RuneError)) as He
    by (repeat constructor; vm_compute; discriminate).
  destruct (Z_le_gt_dec r 0x7FF) as [H2|H2].
  { rewrite EncodeRune_2 by lia. repeat constructor; apply Hb; lia. }
  destruct (Z_le_gt_dec r MaxRune) as [Hm|Hm]; unfold MaxRune in Hm.
  2:{ rewrite EncodeRune_invalid by (unfold MaxRune; lia). exact He. }
  destruct (Z_le_gt_dec surrogateMin r) as [Hs1|Hs1];
    [destruct (Z_le_gt_dec r surrogateMax) as [Hs2|Hs2]|];
    unfold surrogateMin, surrogateMax in *.
  { rewrite EncodeRune_invalid by (unfold surrogateMin, surrogateMax; lia). exact He. }
  all: destruct (Z_le_gt_dec r 0xFFFF) as [H3|H3];
    [rewrite EncodeRune_3 by (unfold surrogateMin, surrogateMax; lia)
    |rewrite EncodeRune_4 by (unfold MaxRune; lia)];
    repeat constructor; apply Hb; lia.
Qed.

End EncodeBytes.

Lemma EscapeString_app s1 s2 :
  EscapeString (s1 ++ s2) = EscapeString s1 ++ EscapeString s2.
Proof. unfold EscapeString. apply flat_map_app. Qed.

Lemma EscapeString_high s :
  Forall (fun b => ~ isASCII b) s -> EscapeString s = s.
Proof.
  induction 1 as [|c t Hc _ IH]; [reflexivity|].
  rewrite EscapeString_cons, escapeByte_nonASCII, IH by exact Hc. reflexivity.
Qed.

Lemma z2b_inj_small r b : 0 <= r < 256 -> z2b r = b -> r = b2z b.
Proof. intros Hr <-. rewrite b2z_z2b by exact Hr. reflexivity. Qed.

(** Escaping the bytes of a rune gives the bytes of the escaped rune. *)
Lemma EscapeString_EncodeRune r :
  validRune r -> EscapeString (EncodeRune r) = stringOfRunes (escapeRune r).
Proof.
  intros Hv. destruct (Z_lt_dec r 0x80) as [Ha|Ha].
  - assert (0 <= r < 256) as Hr by (destruct Hv as [Hv|Hv];
      unfold surrogateMin, surrogateMax in Hv; lia).
    rewrite EncodeRune_1 by lia. unfold EscapeString. cbn [flat_map].
    rewrite app_nil_r.
    assert (r = 38 \/ r = 39 \/ r = 60 \/ r = 62 \/ r = 34
            \/ (r <> 38 /\ r <> 39 /\ r <> 60 /\ r <> 62 /\ r <> 34)) as Hc by lia.
    destruct Hc as [->|[->|[->|[->|[->|Hc]]]]]; [vm_compute; reflexivity ..|].
    unfold escapeByte, escapeRune.
    repeat (case_decide;
      [match goal with
       | H : z2b r = _ |- _ => apply (z2b_inj_small r _ Hr) in H; vm_compute in H; lia
       end|]).
    repeat split_if.
    unfold stringOfRunes. cbn [flat_map]. rewrite app_nil_r, EncodeRune_1 by lia.
    reflexivity.
  - rewrite EscapeString_high by (apply EncodeRune_high; lia).
    rewrite escapeRune_nonASCII by lia.
    unfold stringOfRunes. cbn [flat_map]. rewrite app_nil_r. reflexivity.
Qed.

Lemma EscapeString_stringOfRunes rs :
  Forall validRune rs ->
  EscapeString (stringOfRunes rs) = stringOfRunes (flat_map escapeRune rs).
Proof.
  induction 1 as [|r rs Hr _ IH]; [reflexivity|].
  unfold stringOfRunes in *. cbn [flat_map].
  rewrite EscapeString_app, flat_map_app, IH, EscapeString_EncodeRune by exact Hr.
  reflexivity.
Qed.

Lemma escapeRune_valid r : validRune r -> Forall validRune (escapeRune r).
Proof.
  intros Hv. unfold escapeRune.
  repeat split_if; try apply runes_valid. apply List.Forall_cons; [exact Hv|apply List.Forall_nil].
Qed.

(** HTML escaping keeps valid UTF-8 valid. *)
Lemma ValidString_EscapeString s :
  ValidString s = true -> ValidString (EscapeString s) = true.
Proof.
  intros Hv. rewrite <- (stringOfRunes_runes s Hv).
  rewrite EscapeString_stringOfRunes by apply runes_valid.
  rewrite <- (app_nil_r (stringOfRunes _)).
  rewrite ValidString_stringOfRunes_app; [reflexivity|].
  apply Forall_flat_map. eapply Forall_impl; [apply runes_valid|].
  intros r Hr. apply escapeRune_valid. exact Hr.
Qed.

Lemma ValidString_app_true s1 s2 :
  ValidString s1 = true -> ValidString s2 = true -> ValidString (s1 ++ s2) = true.
Proof. intros H1 H2. rewrite ValidString_app by exact H1. exact H2. Qed.

Lemma ValidString_truncated text n :
  0 <= n -> ValidString text = true -> ValidString (truncated text n) = true.
Proof.
  intros Hn Hv. destruct (truncated_cases text n Hn) as [Hshort Hlong].
  destruct (Z_lt_dec n (runeCount text)) as [Hlt|Hge].
  - destruct (Hlong Hlt) as (-> & _).
    rewrite ValidString_stringOfRunes_app by (apply Forall_take, runes_valid).
    reflexivity.
  - rewrite Hshort by lia. exact Hv.
Qed.

Lemma countByte_app a s1 s2 :
  countByte a (s1 ++ s2) = (countByte a s1 + countByte a s2)%nat.
Proof. unfold countByte. apply count_occ_app. Qed.

Lemma countByte_take a k s : (countByte a (take k s) <= countByte a s)%nat.
Proof.
  rewrite <- (take_drop k s) at 2. rewrite countByte_app. lia.
Qed.

Lemma countRune_take r k rs : (countRune r (take k rs) <= countRune r rs)%nat.
Proof.
  rewrite <- (take_drop k rs) at 2. unfold countRune. rewrite count_occ_app. lia.
Qed.

Lemma countByte_high a s :
  isASCII a -> Forall (fun b => ~ isASCII b) s -> countByte a s = 0%nat.
Proof.
  intros Ha Hs. unfold countByte. apply count_occ_not_In.
  intros Hin. rewrite List.Forall_forall in Hs. exact (Hs a Hin Ha).
Qed.

Lemma b2z_inj a b : b2z a = b2z b -> a = b.
Proof.
  unfold b2z. intros H. apply N2Z.inj in H.
  pose proof (Byte.of_to_N a) as Ea. pose proof (Byte.of_to_N b) as Eb.
  rewrite H in Ea. congruence.
Qed.



(** The bytes of one rune hold the ASCII byte [a] once when the rune is [a]
    and not at all otherwise. *)
Lemma countByte_EncodeRune a r :
  isASCII a -> validRune r ->
  countByte a (EncodeRune r) = if decide (r = b2z a) then 1%nat else 0%nat.
Proof.
  intros Ha Hv. unfold isASCII in Ha. pose proof (b2z_range a) as Hr.
  destruct (Z_lt_dec r 0x80) as [Hlt|Hge].
  - assert (0 <= r <= 0x7F) as Hr'
      by (destruct Hv as [Hv|Hv]; unfold surrogateMin, surrogateMax in Hv; lia).
    rewrite EncodeRune_1 by exact Hr'. unfold countByte. cbn [count_occ].
    case_decide as Hd; destruct (byte_eq_dec (z2b r) a) as [He|He]; try reflexivity.
    + exfalso. apply He. rewrite Hd. apply z2b_b2z.
    + exfalso. apply Hd. rewrite <- He. rewrite b2z_z2b by lia. reflexivity.
  - rewrite countByte_high by (try apply EncodeRune_high; unfold isASCII; lia).
    case_decide; [lia|reflexivity].
Qed.

Lemma countByte_stringOfRunes a rs :
  isASCII a -> Forall validRune rs ->
  countByte a (stringOfRunes rs) = countRune (b2z a) rs.
Proof.
  intros Ha. induction 1 as [|r rs Hr _ IH]; [reflexivity|].
  unfold stringOfRunes in *. cbn [flat_map]. rewrite countByte_app, IH.
  rewrite countByte_EncodeRune by assumption.
  unfold countRune. cbn [count_occ].
  case_decide; destruct (Z.eq_dec r (b2z a)); try reflexivity; contradiction.
Qed.

Lemma DecodeRune_tail_high c t :
  Forall (fun b => ~ isASCII b) (take (snd (DecodeRune (c :: t)) - 1) t).
Proof.
  apply Forall_forall. intros b Hb.
  apply list_elem_of_lookup in Hb as [i Hi].
  apply lookup_take_Some in Hi as [Hi Hlt].
  destruct (DecodeRune_continuation c t i ltac:(lia)) as (b' & Hb' & Hn).
  congruence.
Qed.

(** Decoding neither makes nor loses an ASCII character. *)
Lemma countRune_runesFrom a k s :
  isASCII a -> Forall (fun b => ~ isASCII b) (take k s) ->
  countRune (b2z a) (runesFrom k s) = countByte a s.
Proof.
  intros Ha. revert k. induction s as [|c t IH]; intros k Hk.
  - destruct k; reflexivity.
  - destruct k as [|k].
    + cbn [runesFrom]. unfold countRune, countByte in *. cbn [count_occ].
      destruct (Z_lt_dec (b2z c) 0x80) as [Hc|Hc].
      * pose proof (DecodeRune_1 c t) as Hd.
        assert (DecodeRune (c :: t) = (b2z c, 1%nat)) as E by (apply Hd; exact Hc).
        rewrite E. cbn [fst snd]. change (1 - 1)%nat with 0%nat.
        rewrite (IH 0%nat) by (rewrite take_0; constructor).
        destruct (Z.eq_dec (b2z c) (b2z a)) as [He|He];
          destruct (byte_eq_dec c a) as [Hb|Hb]; try reflexivity.
        -- exfalso. apply Hb. apply b2z_inj. exact He.
        -- exfalso. apply He. rewrite Hb. reflexivity.
      * pose proof (DecodeRune_nonASCII_ge c t Hc) as Hge.
        rewrite (IH _ (DecodeRune_tail_high c t)).
        destruct (Z.eq_dec (fst (DecodeRune (c :: t))) (b2z a)) as [He|He];
          [unfold isASCII in Ha; lia|].
        destruct (byte_eq_dec c a) as [Hb|Hb]; [|reflexivity].
        subst c. contradiction.
    + cbn [runesFrom]. cbn [take] in Hk. inversion Hk as [|? ? Hc Ht]; subst.
      rewrite (IH _ Ht). unfold countByte. cbn [count_occ].
      destruct (byte_eq_dec c a) as [Hb|Hb]; [|reflexivity].
      subst c. contradiction.
Qed.

Lemma countRune_runes a s :
  isASCII a -> countRune (b2z a) (runes s) = countByte a s.
Proof.
  intros Ha. apply (countRune_runesFrom a 0 s Ha). rewrite take_0. constructor.
Qed.

Lemma countByte_truncated a text n :
  isASCII a -> countByte a (lit "...") = 0%nat -> 0 <= n ->
  (countByte a (truncated text n) <= countByte a text)%nat.
Proof.
  intros Ha Hdots Hn. destruct (truncated_cases text n Hn) as [Hshort Hlong].
  destruct (Z_lt_dec n (runeCount text)) as [Hlt|Hge].
  - destruct (Hlong Hlt) as (-> & _).
    rewrite countByte_app, Hdots, countByte_stringOfRunes
      by (try apply Forall_take, runes_valid; exact Ha).
    rewrite <- (countRune_runes a text Ha).
    pose proof (countRune_take (b2z a) (Z.to_nat n) (runes text)). lia.
  - rewrite Hshort by lia. lia.
Qed.


Lemma tagByte_ascii a : tagByte a -> isASCII a.
Proof. intros [->| ->]; vm_compute; reflexivity. Qed.

Lemma countByte_escapeByte a c : tagByte a -> countByte a (escapeByte c) = 0%nat.
Proof.
  intros Ha. unfold escapeByte.
  repeat (case_decide; [destruct Ha as [->| ->]; vm_compute; reflexivity|]).
  unfold countByte. cbn [count_occ].
  destruct (byte_eq_dec c a) as [He|He]; [|reflexivity].
  subst c. destruct Ha as [->| ->]; contradiction.
Qed.

(** Escaped text holds no tag delimiter. *)
Lemma countByte_EscapeString a s : tagByte a -> countByte a (EscapeString s) = 0%nat.
Proof.
  intros Ha. induction s as [|c t IH]; [reflexivity|].
  rewrite EscapeString_cons, countByte_app, IH, countByte_escapeByte by exact Ha.
  reflexivity.
Qed.

Lemma countByte_headerLines a cfg folder sender subject :
  tagByte a -> countByte a (headerLines cfg folder sender subject) = 6%nat.
Proof.
  intros Ha. unfold headerLines.
  destruct (UseEmojis cfg);
    rewrite !countByte_app, !countByte_EscapeString by exact Ha;
    destruct Ha as [->| ->]; vm_compute; reflexivity.
Qed.

Lemma countByte_expectedSection a body maxLength :
  tagByte a ->
  countByte a (expectedSection body maxLength)
  = if maxLength =? 0 then 0%nat else 2%nat.
Proof.
  intros Ha. unfold expectedSection.
  destruct (maxLength =? 0) eqn:E0; [reflexivity|].
  assert (countByte a bodyLabel = 2%nat) as Hl
    by (destruct Ha as [->| ->]; vm_compute; reflexivity).
  destruct (0 <? maxLength) eqn:Epos; rewrite countByte_app, Hl.
  - pose proof (countByte_truncated a (EscapeString body) maxLength
                  (tagByte_ascii a Ha)) as Ht.
    rewrite countByte_EscapeString in Ht by exact Ha.
    assert (countByte a (lit "...") = 0%nat) as Hd
      by (destruct Ha as [->| ->]; vm_compute; reflexivity).
    specialize (Ht Hd ltac:(lia)). lia.
  - rewrite countByte_EscapeString by exact Ha. reflexivity.
Qed.

(** ** The formatter: marker, encoding and markup *)

Lemma messageBeforeCap_cases foldEq cfg folder sender subject body maxLength :
  ValidString (CutText cfg) = true ->
  let composed := headerLines cfg folder sender subject
                  ++ expectedSection body maxLength in
  exists m,
    messageBeforeCap foldEq cfg folder sender subject body maxLength = Returns m
    /\ (m = composed
        /\ (CutText cfg = [] \/ forall j, ~ occursAt foldEq (runes (CutText cfg)) composed j)
        \/ CutText cfg <> []
           /\ exists i, firstOccurrence foldEq (runes (CutText cfg)) composed i
                        /\ m = take i composed).
Proof.
  intros Hv composed. unfold messageBeforeCap.
  rewrite composeMessage_returns. cbn [bindOutcome].
  rewrite cutAtMarker_returns by exact Hv. fold composed.
  destruct (CutText cfg) as [|c0 cut] eqn:Ecut.
  { eexists. split; [reflexivity|]. left. split; [reflexivity|]. left. reflexivity. }
  cbn [length Nat.eqb].
  destruct (FindStringIndex foldEq (runes (c0 :: cut)) composed) as [i|] eqn:Ef.
  - eexists. split; [reflexivity|]. right. split; [discriminate|].
    exists i. split; [|reflexivity]. apply FindStringIndex_first. exact Ef.
  - eexists. split; [reflexivity|]. left. split; [reflexivity|]. right.
    apply FindStringIndex_none. exact Ef.
Qed.

(** Claim C4. When the configured cut marker is not empty and occurs, up
    to case folding, in the text composed of the header and the body section
    (the body already truncated to the folder's length), the message is cut
    at the first occurrence: what [formatMessage] then caps at 4000 runes is
    the part of the text that lies strictly before that occurrence, and it
    is returned as it is when it has at most 4000 runes. An occurrence is a
    place where a character of the text starts and the characters from
    there on begin with the marker's, each up to folding. *)
Theorem formatMessage_cut_marker foldEq cfg folder sender subject body maxLength j :
  CutText cfg <> [] ->
  ValidString (CutText cfg) = true ->
  let marker := runes (CutText cfg) in
  let msg := headerLines cfg folder sender subject ++ expectedSection body maxLength in
  occursFolded foldEq marker msg j ->
  exists i,
    occursFolded foldEq marker msg i
    /\ (forall k, occursFolded foldEq marker msg k -> (i <= k)%nat)
    /\ (i < length msg)%nat
    /\ composeMessage cfg folder sender subject body maxLength = Returns msg
    /\ messageBeforeCap foldEq cfg folder sender subject body maxLength
       = Returns (take i msg)
    /\ formatMessage foldEq cfg folder sender subject body maxLength
       = truncateByRunes (take i msg) 4000
    /\ (runeCount (take i msg) <= 4000 ->
        formatMessage foldEq cfg folder sender subject body maxLength
        = Returns (take i msg)).
Proof.
  intros Hne Hv marker msg Hj.
  apply occursAt_occursFolded in Hj.
  destruct (occurs_has_first foldEq _ _ _ Hj) as [i Hi].
  exists i. split; [apply occursAt_occursFolded; exact (proj1 Hi)|].
  split; [intros k Hk; apply (proj2 Hi); apply occursAt_occursFolded; exact Hk|].
  split; [apply (occursAt_lt foldEq _ _ _ (proj1 Hi))|].
  split; [apply composeMessage_returns|].
  assert (messageBeforeCap foldEq cfg folder sender subject body maxLength
          = Returns (take i msg)) as Hm.
  { unfold messageBeforeCap. rewrite composeMessage_returns. cbn [bindOutcome].
    rewrite cutAtMarker_returns by exact Hv.
    destruct (length (CutText cfg) =? 0)%nat eqn:El.
    - apply length_nil_iff in El. contradiction.
    - fold msg marker. rewrite (proj2 (FindStringIndex_first foldEq _ _ _) Hi).
      reflexivity. }
  split; [exact Hm|].
  unfold formatMessage. rewrite Hm. cbn [bindOutcome].
  split; [reflexivity|].
  intros Hle. rewrite truncateByRunes_nonneg by lia.
  rewrite (proj1 (truncated_cases (take i msg) 4000 ltac:(lia)) Hle). reflexivity.
Qed.

Lemma formatMessage_cut_marker_witness :
  let msg := headerLines invoiceConfig (lit "Invoices") (lit "Bob") (lit "Bill")
             ++ expectedSection invoiceBody 50 in
  let kept := lit "<b>Папка:</b> Invoices" ++ nl
              ++ lit "<b>Отправитель:</b> Bob" ++ nl
              ++ lit "<b>Тема:</b> Bill" ++ nl
              ++ lit "<i>Сообщение:</i>" ++ nl ++ lit "Please pay before " in
  occursFolded asciiFoldEq (runes (lit "--END--")) msg 130
  /\ runes (drop 130 msg) = runes (lit "--end--") ++ runes (lit " ignore this")
  /\ exists i,
       i = 130%nat
       /\ take i msg = kept
       /\ formatMessage asciiFoldEq invoiceConfig (lit "Invoices") (lit "Bob")
            (lit "Bill") invoiceBody 50 = Returns kept.
Proof.
  intros msg kept.
  assert (runes (drop 130 msg) = runes (lit "--end--") ++ runes (lit " ignore this"))
    as Hrunes by (vm_compute; reflexivity).
  assert (occursFolded asciiFoldEq (runes (lit "--END--")) msg 130) as Hocc.
  { split.
    - apply isStart_runeStarts. apply list_elem_of_In. vm_compute. tauto.
    - exists (runes (lit "--end--")), (runes (lit " ignore this")).
      split; [exact Hrunes|]. repeat constructor. }
  split; [exact Hocc|]. split; [exact Hrunes|].
  destruct (formatMessage_cut_marker asciiFoldEq invoiceConfig (lit "Invoices")
              (lit "Bob") (lit "Bill") invoiceBody 50 130
              ltac:(discriminate) eq_refl Hocc)
    as (i & _ & _ & Hlt & _ & Hm & _ & Hout).
  fold msg in Hlt, Hm, Hout.
  assert (messageBeforeCap asciiFoldEq invoiceConfig (lit "Invoices") (lit "Bob")
            (lit "Bill") invoiceBody 50 = Returns kept) as Hval
    by (vm_compute; reflexivity).
  assert (take i msg = kept) as Hkept by congruence.
  assert (i = 130%nat) as Hi.
  { apply (f_equal length) in Hkept. rewrite length_take in Hkept.
    change (length kept) with 130%nat in Hkept. lia. }
  exists i. split; [exact Hi|]. split; [exact Hkept|].
  rewrite <- Hkept. apply Hout. rewrite Hkept. vm_compute. discriminate.
Defined.

(** Property X4. [formatMessage], marker removal: with a cut marker
    configured, the message that reaches the 4000-character check is the
    composed text up to the first occurrence of the marker, or all of it when
    the marker does not occur, and no occurrence of the marker is left in it;
    that message is the result when it has at most 4000 characters. *)
Theorem formatMessage_marker_removed foldEq cfg folder sender subject body maxLength :
  CutText cfg <> [] ->
  ValidString (CutText cfg) = true ->
  let marker := runes (CutText cfg) in
  let composed := headerLines cfg folder sender subject
                  ++ expectedSection body maxLength in
  exists m i,
    messageBeforeCap foldEq cfg folder sender subject body maxLength = Returns m
    /\ m = take i composed
    /\ (occursFolded foldEq marker composed i
        \/ (i = length composed /\ forall k, ~ occursFolded foldEq marker composed k))
    /\ (forall k, occursFolded foldEq marker composed k -> (i <= k)%nat)
    /\ (forall k, ~ occursFolded foldEq marker m k)
    /\ (runeCount m <= 4000 ->
        formatMessage foldEq cfg folder sender subject body maxLength = Returns m).
Proof.
  intros Hne Hv marker composed.
  destruct (messageBeforeCap_cases foldEq cfg folder sender subject body maxLength Hv)
    as (m & Hm & Hcases). fold composed marker in Hcases.
  assert (runeCount m <= 4000 ->
          formatMessage foldEq cfg folder sender subject body maxLength = Returns m)
    as Hout.
  { intros Hlen. unfold formatMessage. rewrite Hm. cbn [bindOutcome].
    rewrite truncateByRunes_nonneg by lia.
    destruct (truncated_cases m 4000 ltac:(lia)) as [Hshort _].
    rewrite Hshort by exact Hlen. reflexivity. }
  destruct Hcases as [(-> & [Hnil|Hnone])|(_ & i & Hfirst & ->)].
  - contradiction.
  - assert (forall k, ~ occursFolded foldEq marker composed k) as Hnone'
      by (intros k Hk; apply (Hnone k); apply occursAt_occursFolded; exact Hk).
    exists composed, (length composed). split; [exact Hm|].
    split; [symmetry; apply firstn_all|].
    split; [right; split; [reflexivity|exact Hnone']|].
    split; [intros k Hk; destruct (Hnone' k Hk)|].
    split; [exact Hnone'|exact Hout].
  - exists (take i composed), i. split; [exact Hm|]. split; [reflexivity|].
    split; [left; apply occursAt_occursFolded; exact (proj1 Hfirst)|].
    split; [intros k Hk; apply (proj2 Hfirst); apply occursAt_occursFolded; exact Hk|].
    split; [|exact Hout].
    intros k Hk. apply occursAt_occursFolded in Hk.
    exact (firstOccurrence_prefix_clean foldEq _ _ _ _ Hfirst Hk).
Qed.

Lemma ValidString_headerLines cfg folder sender subject :
  ValidString folder = true -> ValidString sender = true ->
  ValidString subject = true ->
  ValidString (headerLines cfg folder sender subject) = true.
Proof.
  intros Hf Hs Hj. unfold headerLines.
  destruct (UseEmojis cfg);
    repeat (apply ValidString_app_true);
    try (apply ValidString_EscapeString; assumption);
    vm_compute; reflexivity.
Qed.

Lemma ValidString_expectedSection body maxLength :
  ValidString body = true -> ValidString (expectedSection body maxLength) = true.
Proof.
  intros Hb. unfold expectedSection.
  destruct (maxLength =? 0); [reflexivity|].
  assert (ValidString bodyLabel = true) as Hl by (vm_compute; reflexivity).
  destruct (0 <? maxLength) eqn:E; apply ValidString_app_true; try exact Hl.
  - apply ValidString_truncated; [lia|]. apply ValidString_EscapeString. exact Hb.
  - apply ValidString_EscapeString. exact Hb.
Qed.

(** Property X2. [formatMessage], encoding: when the folder name, the sender,
    the subject and the body are valid UTF-8, so is the message returned;
    neither the body limit, nor the cut at the marker, nor the 4000-character
    cap leaves a character cut in two. *)
Theorem formatMessage_valid_utf8 foldEq cfg folder sender subject body maxLength :
  ValidString (CutText cfg) = true ->
  ValidString folder = true -> ValidString sender = true ->
  ValidString subject = true -> ValidString body = true ->
  exists message,
    formatMessage foldEq cfg folder sender subject body maxLength = Returns message
    /\ ValidString message = true.
Proof.
  intros Hv Hf Hs Hj Hb.
  destruct (messageBeforeCap_cases foldEq cfg folder sender subject body maxLength Hv)
    as (m & Hm & Hcases).
  assert (ValidString (headerLines cfg folder sender subject
                       ++ expectedSection body maxLength) = true) as Hcomp.
  { apply ValidString_app_true.
    - apply ValidString_headerLines; assumption.
    - apply ValidString_expectedSection. exact Hb. }
  assert (ValidString m = true) as Hvm.
  { destruct Hcases as [(-> & _)|(_ & i & ((Hin & _) & _) & ->)]; [exact Hcomp|].
    apply ValidString_take; [|exact Hcomp]. apply isStart_runeStarts. exact Hin. }
  exists (truncated m 4000). split.
  - unfold formatMessage. rewrite Hm. cbn [bindOutcome].
    apply truncateByRunes_nonneg. lia.
  - apply ValidString_truncated; [lia|exact Hvm].
Qed.

(** Property X3. [formatMessage], markup: whatever the mail and the folder
    name contain, the composed message holds each of the bytes [<] and [>]
    exactly 6 times without a body part and 8 times with one (the three or
    four tag pairs of the template), and the message returned holds no more. *)
Theorem formatMessage_tags_from_template foldEq cfg folder sender subject body maxLength a :
  tagByte a ->
  ValidString (CutText cfg) = true ->
  let tags := if maxLength =? 0 then 6%nat else 8%nat in
  exists composed message,
    composeMessage cfg folder sender subject body maxLength = Returns composed
    /\ countByte a composed = tags
    /\ formatMessage foldEq cfg folder sender subject body maxLength = Returns message
    /\ (countByte a message <= tags)%nat.
Proof.
  intros Ha Hv tags.
  destruct (messageBeforeCap_cases foldEq cfg folder sender subject body maxLength Hv)
    as (m & Hm & Hcases).
  set (composed := headerLines cfg folder sender subject
                   ++ expectedSection body maxLength) in *.
  assert (countByte a composed = tags) as Hc.
  { unfold composed, tags.
    rewrite countByte_app, countByte_headerLines, countByte_expectedSection by exact Ha.
    destruct (maxLength =? 0); reflexivity. }
  assert (countByte a m <= tags)%nat as Hlm.
  { destruct Hcases as [(-> & _)|(_ & i & _ & ->)]; [lia|].
    pose proof (countByte_take a i composed). lia. }
  exists composed, (truncated m 4000). split; [apply composeMessage_returns|].
  split; [exact Hc|]. split.
  - unfold formatMessage. rewrite Hm. cbn [bindOutcome].
    apply truncateByRunes_nonneg. lia.
  - assert (countByte a (lit "...") = 0%nat) as Hd
      by (destruct Ha as [->| ->]; vm_compute; reflexivity).
    pose proof (countByte_truncated a m 4000 (tagByte_ascii a Ha) Hd ltac:(lia)). lia.
Qed.

(** ** The pass over the folders *)

Section MailboxFacts.

Variable foldEq : Z -> Z -> bool.
Variable unread : MAPIObject -> option (list (option MailItem)).
Variable cfg : Config.

Lemma omap_cons_Some {A B} (f : A -> option B) x y l :
  f x = Some y -> omap f (x :: l) = y :: omap f l.
Proof. intros H. cbn. rewrite H. reflexivity. Qed.

Lemma passEffect_nil w : passEffect [] w w.
Proof.
  unfold passEffect. cbn [length]. rewrite Nat.add_0_r.
  split; [reflexivity|]. split; [reflexivity|]. split; [reflexivity|].
  intros k e id Hk. rewrite lookup_nil in Hk. discriminate.
Qed.

Lemma passEffect_cons e id entries w w1 w2 :
  entryOf e = Some id ->
  id ∉ omap entryOf entries ->
  calls w1 = S (calls w) -> network w1 = network w ->
  (forall id', id' <> id -> isProcessed id' w1 = isProcessed id' w) ->
  (isProcessed id w1 = true <-> succeeds (network w (calls w))) ->
  passEffect entries w1 w2 ->
  passEffect (e :: entries) w w2.
Proof.
  intros He Hfresh Hc Hn Hframe Hid (Hc2 & Hn2 & Hframe2 & Hk2).
  unfold passEffect. cbn [length]. rewrite (omap_cons_Some _ _ _ _ He).
  split; [lia|]. split; [congruence|]. split.
  - intros id' Hnot. rewrite not_elem_of_cons in Hnot. destruct Hnot as [Hne Hnot].
    rewrite Hframe2 by exact Hnot. apply Hframe. exact Hne.
  - intros k e' id' Hlk He'. destruct k as [|k].
    + cbn in Hlk. inversion Hlk; subst e'. rewrite He in He'. inversion He'; subst id'.
      rewrite Nat.add_0_r. rewrite Hframe2 by exact Hfresh. exact Hid.
    + cbn in Hlk. rewrite (Hk2 k e' id' Hlk He'), Hn, Hc.
      replace (S (calls w) + k)%nat with (calls w + S k)%nat by lia. reflexivity.
Qed.

Lemma processEmail_step item folderName id w :
  EntryID item = Some id -> readable item ->
  ValidString (CutText cfg) = true ->
  isProcessed id w = false ->
  exists w1,
    processEmail foldEq cfg item folderName w = (Returns tt, w1)
    /\ calls w1 = S (calls w) /\ network w1 = network w
    /\ (forall id', id' <> id -> isProcessed id' w1 = isProcessed id' w)
    /\ (isProcessed id w1 = true <-> succeeds (network w (calls w))).
Proof.
  intros Hid Hr Hv Hnew.
  destruct (processEmail_readable foldEq cfg item folderName id w Hid Hr Hv Hnew)
    as (w1 & Hrun & Hc & Hn & Hframe & _ & Hok & Hfail).
  exists w1. repeat split; try assumption.
  - intros Hp. destruct (succeeds_dec (network w (calls w))) as [Hs|Hs]; [exact Hs|].
    specialize (Hfail Hs). unfold isProcessed in Hp. rewrite Hfail in Hp. discriminate.
  - intros Hs. apply Hok. exact Hs.
Qed.

Lemma processItems_effect folderName items w :
  ValidString (CutText cfg) = true ->
  Forall entryOK (map (pair folderName) items) ->
  NoDup (omap entryOf (map (pair folderName) items)) ->
  (forall id, id ∈ omap entryOf (map (pair folderName) items) ->
              isProcessed id w = false) ->
  exists w',
    processItems foldEq cfg folderName items w = (Returns tt, w')
    /\ passEffect (map (pair folderName) items) w w'.
Proof.
  intros Hv. revert w. induction items as [|o items IH]; intros w Hok Hnd Hnew.
  - exists w. split; [reflexivity|apply passEffect_nil].
  - cbn [map] in *. apply Forall_cons in Hok as [(item & id & Ho & Hid & Hr) Hok].
    cbn [snd] in Ho. subst o.
    assert (entryOf (folderName, Some item) = Some id) as He by exact Hid.
    rewrite (omap_cons_Some _ _ _ _ He) in Hnd, Hnew.
    apply NoDup_cons in Hnd as [Hfresh Hnd].
    destruct (processEmail_step item folderName id w Hid Hr Hv
                (Hnew id ltac:(left))) as (w1 & Hrun & Hc & Hn & Hframe & Hres).
    destruct (IH w1 Hok Hnd) as (w2 & Hrun2 & Heff).
    { intros id' Hin. rewrite Hframe; [apply Hnew; right; exact Hin|].
      intros ->. contradiction. }
    exists w2. split.
    + cbn [processItems]. unfold bind at 1, must. unfold bind at 1. rewrite Hrun.
      exact Hrun2.
    + eapply passEffect_cons; eassumption.
Qed.

Lemma passEffect_app e1 e2 w w1 w2 :
  (forall id, id ∈ omap entryOf e1 -> id ∉ omap entryOf e2) ->
  passEffect e1 w w1 -> passEffect e2 w1 w2 -> passEffect (e1 ++ e2) w w2.
Proof.
  intros Hdisj (Hc1 & Hn1 & Hf1 & Hk1) (Hc2 & Hn2 & Hf2 & Hk2).
  unfold passEffect. rewrite length_app, omap_app.
  split; [lia|]. split; [congruence|]. split.
  - intros id Hnot. rewrite not_elem_of_app in Hnot. destruct Hnot as [H1 H2].
    rewrite Hf2, Hf1 by assumption. reflexivity.
  - intros k e id Hlk He.
    destruct (lookup_app_Some e1 e2 k e) as [Hsplit _].
    destruct (Hsplit Hlk) as [Hl|[Hge Hl]].
    + rewrite Hf2; [exact (Hk1 k e id Hl He)|].
      apply Hdisj. apply list_elem_of_omap. exists e. split; [|exact He].
      eapply list_elem_of_lookup_2. exact Hl.
    + rewrite (Hk2 _ e id Hl He), Hn1, Hc1.
      replace (calls w + length e1 + (k - length e1))%nat with (calls w + k)%nat by lia.
      reflexivity.
Qed.

Lemma passReadable_cons folderName folder rest :
  passReadable unread ((folderName, folder) :: rest) ->
  exists items,
    unread folder = Some items
    /\ Forall entryOK (map (pair folderName) items)
    /\ passReadable unread rest.
Proof.
  intros [Hviews Hentries]. apply Forall_cons in Hviews as [[items Hu] Hviews].
  cbn [snd] in Hu. unfold itemsInOrder in Hentries. cbn [flat_map] in Hentries.
  rewrite Hu in Hentries. cbn [default] in Hentries.
  apply Forall_app in Hentries as [H1 H2].
  exists items. split; [exact Hu|]. split; [exact H1|]. split; assumption.
Qed.

Lemma processFolders_effect folders w :
  ValidString (CutText cfg) = true ->
  passReadable unread folders ->
  NoDup (omap entryOf (itemsInOrder unread folders)) ->
  (forall id, id ∈ omap entryOf (itemsInOrder unread folders) ->
              isProcessed id w = false) ->
  exists w',
    processFolders foldEq unread cfg folders w = (Returns tt, w')
    /\ passEffect (itemsInOrder unread folders) w w'.
Proof.
  intros Hv. revert w. induction folders as [|[folderName folder] rest IH];
    intros w Hok Hnd Hnew.
  - exists w. split; [reflexivity|apply passEffect_nil].
  - destruct (passReadable_cons _ _ _ Hok) as (items & Hu & Hitems & Hrest).
    unfold itemsInOrder in Hnd, Hnew |- *. cbn [flat_map] in Hnd, Hnew |- *.
    rewrite Hu in Hnd, Hnew |- *. cbn [default] in Hnd, Hnew |- *.
    fold (itemsInOrder unread rest) in Hnd, Hnew |- *.
    rewrite omap_app in Hnd, Hnew. apply NoDup_app in Hnd as (Hnd1 & Hdisj & Hnd2).
    destruct (processItems_effect folderName items w Hv Hitems Hnd1)
      as (w1 & Hrun1 & Heff1).
    { intros id Hin. apply Hnew. apply elem_of_app. left. exact Hin. }
    destruct (IH w1 Hrest Hnd2) as (w2 & Hrun2 & Heff2).
    { intros id Hin. destruct Heff1 as (_ & _ & Hf1 & _).
      rewrite Hf1; [apply Hnew; apply elem_of_app; right; exact Hin|].
      intros Hin1. exact (Hdisj id Hin1 Hin). }
    exists w2. split.
    + cbn [processFolders]. unfold bind at 1, must. rewrite Hu.
      unfold bind at 1. rewrite Hrun1. exact Hrun2.
    + eapply passEffect_app; eassumption.
Qed.

Lemma processItems_marked folderName items w :
  Forall (fun o => exists item id,
            o = Some item /\ EntryID item = Some id /\ isProcessed id w = true) items ->
  processItems foldEq cfg folderName items w = (Returns tt, w).
Proof.
  induction 1 as [|o items (item & id & -> & Hid & Hp) _ IH]; [reflexivity|].
  cbn [processItems]. unfold bind at 1, must. unfold bind at 1.
  rewrite (processEmail_skip foldEq cfg item folderName id w Hid Hp). exact IH.
Qed.

Lemma processFolders_marked folders w :
  Forall (fun e => exists items,
            unread (snd e) = Some items
            /\ Forall (fun o => exists item id,
                         o = Some item /\ EntryID item = Some id
                         /\ isProcessed id w = true) items) folders ->
  processFolders foldEq unread cfg folders w = (Returns tt, w).
Proof.
  induction 1 as [|[folderName folder] rest (items & Hu & Hitems) _ IH]; [reflexivity|].
  cbn [snd] in Hu. cbn [processFolders]. unfold bind at 1, must. rewrite Hu.
  unfold bind at 1. rewrite (processItems_marked folderName items w Hitems). exact IH.
Qed.

Lemma processEmail_unreadable item folderName id w :
  EntryID item = Some id -> ~ readable item -> isProcessed id w = false ->
  exists w1,
    processEmail foldEq cfg item folderName w = (Panics ComCallFailed, w1)
    /\ calls w1 = calls w /\ posted w1 = posted w /\ network w1 = network w
    /\ isProcessed id w1 = true
    /\ (forall id', id' <> id -> isProcessed id' w1 = isProcessed id' w).
Proof.
  intros Hid Hnr Hnew. unfold processEmail. rewrite Hid.
  unfold bind at 1, readProcessed. rewrite Hnew.
  unfold bind at 1, writeProcessed.
  set (w1 := mkWorld _ _ _ _ _).
  assert (isProcessed id w1 = true) as Hm
    by (unfold w1; rewrite isProcessed_insert; case_decide; [reflexivity|contradiction]).
  assert (forall id', id' <> id -> isProcessed id' w1 = isProcessed id' w) as Hf.
  { intros id' Hne. unfold w1. rewrite isProcessed_insert.
    case_decide; [congruence|reflexivity]. }
  exists w1.
  destruct (SenderName item) as [sn|] eqn:E1; cbn [must bind];
    [|unfold bind, must; auto 10].
  destruct (SenderEmailAddress item) as [se|] eqn:E2;
    [|unfold bind, must; auto 10].
  destruct (Subject item) as [sj|] eqn:E3;
    [|unfold bind, must; auto 10].
  destruct (Body item) as [bd|] eqn:E4;
    [|unfold bind, must; auto 10].
  exfalso. apply Hnr. unfold readable. rewrite E1, E2, E3, E4. repeat split; eexists; reflexivity.
Qed.

End MailboxFacts.

(** Property X7. [processFolders], one pass: when every collection and every
    item of the pass can be read, the identities are pairwise distinct and
    none is marked, the pass returns after exactly one exchange for each item,
    in order, whatever the exchanges answer; the k-th item is marked delivered
    exactly when the k-th exchange succeeded, and no other identity changes. A
    failed delivery does not stop the pass. *)
Theorem processFolders_one_exchange_each foldEq unread cfg folders w :
  ValidString (CutText cfg) = true ->
  passReadable unread folders ->
  NoDup (omap entryOf (itemsInOrder unread folders)) ->
  (forall id, id ∈ omap entryOf (itemsInOrder unread folders) ->
              isProcessed id w = false) ->
  exists w',
    processFolders foldEq unread cfg folders w = (Returns tt, w')
    /\ calls w' = (calls w + length (itemsInOrder unread folders))%nat
    /\ (forall k e id,
          itemsInOrder unread folders !! k = Some e -> entryOf e = Some id ->
          (isProcessed id w' = true <-> succeeds (network w (calls w + k)%nat)))
    /\ (forall id, id ∉ omap entryOf (itemsInOrder unread folders) ->
                   isProcessed id w' = isProcessed id w).
Proof.
  intros Hv Hok Hnd Hnew.
  destruct (processFolders_effect foldEq unread cfg folders w Hv Hok Hnd Hnew)
    as (w' & Hrun & Hc & _ & Hf & Hk).
  exists w'. auto.
Qed.

(** Property X8. [processFolders], repeated pass: when every item of the pass
    is marked delivered, the pass returns with the world as it was: nothing is
    sent, logged or written. *)
Theorem processFolders_all_marked_unchanged foldEq unread cfg folders w :
  Forall (fun e => exists items,
            unread (snd e) = Some items
            /\ Forall (fun o => exists item id,
                         o = Some item /\ EntryID item = Some id
                         /\ isProcessed id w = true) items) folders ->
  processFolders foldEq unread cfg folders w = (Returns tt, w).
Proof. apply processFolders_marked. Qed.

(** Property X9. [processFolders], unreadable item: an unmarked item with an
    identity and a property that cannot be read makes the pass panic at that
    item, with no exchange made and the item marked delivered; the items after
    it are not reached in this pass. In the world the panic leaves, the same
    pass skips the item and goes on with the items after it. *)
Theorem processFolders_unreadable_item_blocks_once
    foldEq unread cfg folderName folder rest item items id w :
  unread folder = Some (Some item :: items) ->
  EntryID item = Some id ->
  ~ readable item ->
  isProcessed id w = false ->
  exists w1,
    processFolders foldEq unread cfg ((folderName, folder) :: rest) w
    = (Panics ComCallFailed, w1)
    /\ calls w1 = calls w /\ posted w1 = posted w
    /\ isProcessed id w1 = true
    /\ processFolders foldEq unread cfg ((folderName, folder) :: rest) w1
       = (let! _ := processItems foldEq cfg folderName items in
          processFolders foldEq unread cfg rest) w1.
Proof.
  intros Hu Hid Hnr Hnew.
  destruct (processEmail_unreadable foldEq cfg item folderName id w Hid Hnr Hnew)
    as (w1 & Hrun & Hc & Hp & _ & Hm & _).
  exists w1. split; [|split; [exact Hc|split; [exact Hp|split; [exact Hm|]]]].
  - cbn [processFolders]. unfold bind at 1, must. rewrite Hu.
    cbn [processItems]. unfold bind at 1. unfold bind at 1. unfold bind at 1.
    unfold must. rewrite Hrun. reflexivity.
  - cbn [processFolders]. unfold bind at 1, must. rewrite Hu.
    cbn [processItems]. unfold bind at 1. unfold bind at 1. unfold bind at 1.
    unfold must. rewrite (processEmail_skip foldEq cfg item folderName id w1 Hid Hm). reflexivity.
Qed.

(** ** The target folders *)

Lemma omap_cons_None {A B} (f : A -> option B) x l :
  f x = None -> omap f (x :: l) = omap f l.
Proof. intros H. cbn. rewrite H. reflexivity. Qed.

Lemma getTargetFoldersLoop_spec ns rules folders :
  let r := getTargetFoldersLoop ns rules folders in
  (forall name,
     fst (fst r) !! name
     = match fst (getFolder ns name) with
       | inl f => if bool_decide (name ∈ map Name rules) then Some f
                  else folders !! name
       | inr _ => folders !! name
       end)
  /\ snd r = omap (resolveFailure ns) rules
  /\ snd (fst r) = flat_map (fun rule => snd (getFolder ns (Name rule))) rules.
Proof.
  revert folders. induction rules as [|rule rest IH]; intros folders r.
  - subst r. cbn. split; [|split; reflexivity].
    intros name. destruct (fst (getFolder ns name)); reflexivity.
  - subst r. cbn [getTargetFoldersLoop map flat_map].
    destruct (getFolder ns (Name rule)) as [[f|err] calls] eqn:Eg.
    + specialize (IH (<[Name rule := f]> folders)).
      destruct (getTargetFoldersLoop ns rest (<[Name rule := f]> folders))
        as [[m c] l]. cbn [fst snd] in *. destruct IH as (Hm & Hl & Hc).
      split; [|split].
      * intros name. rewrite Hm.
        destruct (fst (getFolder ns name)) as [f'|] eqn:En.
        -- destruct (decide (name = Name rule)) as [->|Hne].
           ++ rewrite Eg in En. cbn in En. inversion En; subst f'.
              rewrite lookup_insert_eq.
              rewrite (bool_decide_eq_true_2 (Name rule ∈ Name rule :: map Name rest))
                by (left).
              case_bool_decide; reflexivity.
           ++ rewrite lookup_insert_ne by congruence.
              rewrite (bool_decide_ext (name ∈ Name rule :: map Name rest)
                                       (name ∈ map Name rest))
                by (rewrite elem_of_cons; tauto).
              reflexivity.
        -- destruct (decide (name = Name rule)) as [->|Hne].
           ++ rewrite Eg in En. discriminate En.
           ++ rewrite lookup_insert_ne by congruence. reflexivity.
      * rewrite Hl. symmetry. apply omap_cons_None.
        unfold resolveFailure. rewrite Eg. reflexivity.
      * rewrite Hc. reflexivity.
    + specialize (IH folders).
      destruct (getTargetFoldersLoop ns rest folders) as [[m c] l].
      cbn [fst snd] in *. destruct IH as (Hm & Hl & Hc).
      split; [|split].
      * intros name. rewrite Hm.
        destruct (fst (getFolder ns name)) as [f'|] eqn:En; [|reflexivity].
        destruct (decide (name = Name rule)) as [->|Hne];
          [rewrite Eg in En; discriminate En|].
        rewrite (bool_decide_ext (name ∈ Name rule :: map Name rest)
                                 (name ∈ map Name rest))
          by (rewrite elem_of_cons; tauto).
        reflexivity.
      * rewrite Hl. symmetry. apply omap_cons_Some.
        unfold resolveFailure. rewrite Eg. reflexivity.
      * rewrite Hc. reflexivity.
Qed.

(** Property X10. [getTargetFolders]: the map holds under a name exactly the
    folder that the name resolves to, for the names of the configured rules
    that resolve; a rule whose folder is not found is logged and does not stop
    the loop; the map is empty exactly when no rule resolves. *)
Theorem getTargetFolders_resolved_rules cfg ns :
  let folders := fst (fst (getTargetFolders cfg ns)) in
  let logged := snd (getTargetFolders cfg ns) in
  (forall name f,
     folders !! name = Some f
     <-> name ∈ map Name (Folders cfg) /\ fst (getFolder ns name) = inl f)
  /\ logged = omap (resolveFailure ns) (Folders cfg)
  /\ (folders = ∅ <->
      forall rule, rule ∈ Folders cfg -> is_Some (resolveFailure ns rule)).
Proof.
  intros folders logged.
  destruct (getTargetFoldersLoop_spec ns (Folders cfg) ∅) as (Hm & Hl & _).
  fold (getTargetFolders cfg ns) in Hm, Hl. fold folders in Hm. fold logged in Hl.
  assert (forall name f,
     folders !! name = Some f
     <-> name ∈ map Name (Folders cfg) /\ fst (getFolder ns name) = inl f) as Hlk.
  { intros name f. rewrite Hm.
    destruct (fst (getFolder ns name)) as [f'|err].
    - case_bool_decide as Hin.
      + split; [intros [= ->]; auto|intros [_ [= ->]]; reflexivity].
      + rewrite lookup_empty. split; [discriminate|tauto].
    - rewrite lookup_empty. split; [discriminate|intros [_ ?]; discriminate]. }
  split; [exact Hlk|]. split; [exact Hl|]. split.
  - intros He rule Hin. unfold resolveFailure.
    destruct (fst (getFolder ns (Name rule))) as [f|err] eqn:Eg; [|eexists; reflexivity].
    exfalso. assert (folders !! Name rule = Some f) as Hsome.
    { apply Hlk. split; [|exact Eg]. apply list_elem_of_fmap. exists rule. auto. }
    rewrite He, lookup_empty in Hsome. discriminate.
  - intros Hall. apply map_eq. intros name. rewrite lookup_empty.
    destruct (folders !! name) as [f|] eqn:E; [|reflexivity].
    apply Hlk in E as [Hin Hg]. apply list_elem_of_fmap in Hin as (rule & -> & Hin).
    destruct (Hall rule Hin) as [err Herr]. unfold resolveFailure in Herr.
    rewrite Hg in Herr. discriminate.
Qed.

(** ** The frame and the routing of [processEmail] *)

Lemma framed_refl keep w : framed keep w w.
Proof.
  unfold framed. split; [reflexivity|]. split; [left; reflexivity|].
  split; [exists []; rewrite app_nil_r; split; [reflexivity|cbn; lia]|].
  split; [reflexivity|]. split; [tauto|]. exists []. rewrite app_nil_r. reflexivity.
Qed.

Lemma framed_log keep entry w : framed keep w (logMessage entry w).
Proof.
  unfold framed, logMessage. cbn. split; [reflexivity|]. split; [left; reflexivity|].
  split; [exists []; rewrite app_nil_r; split; [reflexivity|cbn; lia]|].
  split; [reflexivity|]. split; [tauto|]. eexists. reflexivity.
Qed.

Lemma framed_write id b w :
  framed (Some id) w (snd (writeProcessed id b w)).
Proof.
  unfold framed, writeProcessed. cbn. split; [reflexivity|]. split; [left; reflexivity|].
  split; [exists []; rewrite app_nil_r; split; [reflexivity|cbn; lia]|].
  split; [|split].
  - intros id' Hne. apply lookup_insert_ne. congruence.
  - intros id' Hs. destruct (decide (id = id')) as [->|Hne].
    + rewrite lookup_insert_eq. eexists. reflexivity.
    + rewrite lookup_insert_ne by exact Hne. exact Hs.
  - eexists. reflexivity.
Qed.

(** A step that makes no exchange, after which steps may follow. *)
Lemma framed_trans_quiet keep w w1 w2 :
  framed keep w w1 -> calls w1 = calls w -> framed keep w1 w2 -> framed keep w w2.
Proof.
  intros (Hn1 & _ & (r1 & Hp1 & Hl1) & Hf1 & Hd1 & (h1 & Hh1)) Hc
         (Hn2 & Hc2 & (r2 & Hp2 & Hl2) & Hf2 & Hd2 & (h2 & Hh2)).
  assert (r1 = []) as -> by (destruct r1; [reflexivity|cbn in Hl1; lia]).
  rewrite app_nil_r in Hp1.
  unfold framed. split; [congruence|]. split; [rewrite <- Hc; exact Hc2|].
  split; [exists r2; rewrite Hp2, Hp1, <- Hc; auto|].
  split; [intros id Hne; rewrite Hf2, Hf1 by exact Hne; reflexivity|].
  split; [auto|]. exists (h1 ++ h2). rewrite Hh2, Hh1, app_assoc. reflexivity.
Qed.

(** A step that makes its exchange, after which only quiet steps follow. *)
Lemma framed_trans_after keep w w1 w2 :
  framed keep w w1 -> framed keep w1 w2 -> calls w2 = calls w1 -> framed keep w w2.
Proof.
  intros (Hn1 & Hc1 & (r1 & Hp1 & Hl1) & Hf1 & Hd1 & (h1 & Hh1))
         (Hn2 & _ & (r2 & Hp2 & Hl2) & Hf2 & Hd2 & (h2 & Hh2)) Hc.
  assert (r2 = []) as -> by (destruct r2; [reflexivity|cbn in Hl2; lia]).
  rewrite app_nil_r in Hp2.
  unfold framed. split; [congruence|]. split; [rewrite Hc; exact Hc1|].
  split; [exists r1; rewrite Hp2, Hp1, Hc; auto|].
  split; [intros id Hne; rewrite Hf2, Hf1 by exact Hne; reflexivity|].
  split; [auto|]. exists (h1 ++ h2). rewrite Hh2, Hh1, app_assoc. reflexivity.
Qed.

Lemma framed_postJSON keep url data w : framed keep w (snd (postJSON url data w)).
Proof.
  unfold framed, postJSON.
  destruct (network w (calls w)) as [| | | |status body];
    try destruct (negb (status =? StatusOK)); cbn [snd network calls posted
      processedEmails history];
    (split; [reflexivity|]); (split; [right; reflexivity|]);
    (split; [|split; [reflexivity|split; [tauto|exists []; rewrite app_nil_r; reflexivity]]]).
  1,2: exists []; rewrite app_nil_r; split; [reflexivity|cbn; lia].
  all: eexists; split; [reflexivity|cbn; lia].
Qed.

Lemma framed_send keep cfg id message chatID w :
  framed keep w (snd (send cfg id message chatID w)).
Proof.
  unfold send, sendTelegramMessage.
  pose proof (framed_postJSON keep
    (lit "https://api.telegram.org/bot" ++ BotToken cfg ++ lit "/sendMessage")
    (mkPayload chatID message (lit "HTML")) w) as Hp.
  destruct (postJSON _ _ w) as [[body|err] w1]; cbn [snd] in *.
  - apply framed_trans_after with w1; [exact Hp| |reflexivity].
    apply framed_trans_quiet with (logMessage (LogNotified chatID) w1);
      [apply framed_log|reflexivity|].
    unfold framed. cbn. split; [reflexivity|]. split; [left; reflexivity|].
    split; [exists []; rewrite app_nil_r; split; [reflexivity|cbn; lia]|].
    split; [reflexivity|]. split; [tauto|]. eexists. reflexivity.
  - apply framed_trans_after with w1; [exact Hp| |reflexivity].
    unfold framed. cbn. split; [reflexivity|]. split; [left; reflexivity|].
    split; [exists []; rewrite app_nil_r; split; [reflexivity|cbn; lia]|].
    split; [reflexivity|]. split; [tauto|]. eexists. reflexivity.
Qed.

Lemma send_returns cfg id message chatID w :
  exists err, fst (send cfg id message chatID w) = Returns err.
Proof.
  unfold send. destruct (sendTelegramMessage cfg message chatID w) as [err w1].
  exists err. reflexivity.
Qed.

Lemma send_calls cfg id message chatID w :
  calls (snd (send cfg id message chatID w)) = S (calls w).
Proof.
  unfold send, sendTelegramMessage, postJSON.
  destruct (network w (calls w)) as [| | | |status body];
    try destruct (negb (status =? StatusOK)); reflexivity.
Qed.

Section Frame.
Variable foldEq : Z -> Z -> bool.

Lemma processEmail_framed cfg item folderName w :
  framed (EntryID item) w (snd (processEmail foldEq cfg item folderName w)).
Proof.
  unfold processEmail. destruct (EntryID item) as [id|]; [|apply framed_log].
  unfold bind at 1, readProcessed.
  destruct (isProcessed id w); [apply framed_refl|].
  unfold bind at 1.
  pose proof (framed_write id true w) as Hw.
  destruct (writeProcessed id true w) as [o1 w1] eqn:E1.
  assert (o1 = Returns tt /\ calls w1 = calls w) as [-> Hc1]
    by (unfold writeProcessed in E1; inversion E1; subst; auto).
  cbn [snd] in Hw.
  apply framed_trans_quiet with w1; [exact Hw|exact Hc1|]. clear Hw Hc1 E1 w.
  unfold bind at 1, must.
  destruct (SenderName item) as [sn|]; [|apply framed_refl].
  unfold bind at 1.
  destruct (SenderEmailAddress item) as [se|]; [|apply framed_refl].
  unfold bind at 1.
  destruct (Subject item) as [sj|]; [|apply framed_refl].
  unfold bind at 1.
  destruct (Body item) as [bd|]; [|apply framed_refl].
  unfold bind at 1, liftOutcome.
  destruct (formatMessage _ _ _ _ _ _ _) as [message|p]; [|apply framed_refl].
  unfold bind at 1.
  match goal with
  | |- context [send ?c ?i ?m ?ch w1] =>
    pose proof (framed_send (Some id) c i m ch w1) as Hs;
    pose proof (send_returns c i m ch w1) as [err He];
    destruct (send c i m ch w1) as [o2 w2] eqn:E2
  end.
  cbn [fst snd] in *. subst o2.
  apply framed_trans_after with w2; [exact Hs| |].
  - destruct err as [e|].
    + unfold bind at 1.
      pose proof (framed_write id false w2) as Hw.
      destruct (writeProcessed id false w2) as [o3 w3] eqn:E3.
      assert (o3 = Returns tt /\ calls w3 = calls w2) as [-> Hc3]
        by (unfold writeProcessed in E3; inversion E3; subst; auto).
      cbn [snd] in Hw.
      apply framed_trans_quiet with w3; [exact Hw|exact Hc3|]. apply framed_log.
    + apply framed_log.
  - destruct err as [e|]; reflexivity.
Qed.

End Frame.

(** Property X5. [processEmail], frame: however a call ends, by return or by
    panic, it makes at most one exchange and hands at most one request to the
    client, it leaves the cache entries of all other identities as they were,
    it removes no key from the cache, and it only adds to the history. *)
Theorem processEmail_touches_own_entry_only foldEq cfg item folderName w :
  let w' := snd (processEmail foldEq cfg item folderName w) in
  network w' = network w
  /\ (calls w' = calls w \/ calls w' = S (calls w))
  /\ (exists reqs, posted w' = posted w ++ reqs
                   /\ (length reqs <= calls w' - calls w)%nat)
  /\ (forall id, EntryID item <> Some id ->
                 processedEmails w' !! id = processedEmails w !! id)
  /\ (forall id, is_Some (processedEmails w !! id) ->
                 is_Some (processedEmails w' !! id))
  /\ exists h, history w' = history w ++ h.
Proof. intros w'. exact (processEmail_framed foldEq cfg item folderName w). Qed.


Lemma folderConfigOf_first cfg folderName pre rule post :
  Folders cfg = pre ++ rule :: post ->
  Forall (fun f => Name f <> folderName) pre ->
  Name rule = folderName ->
  folderConfigOf cfg folderName = rule.
Proof.
  intros Hf Hpre Hname. unfold folderConfigOf. rewrite Hf. clear Hf.
  induction Hpre as [|f pre Hf _ IH].
  - cbn [app List.find]. rewrite bool_decide_eq_true_2 by exact Hname. reflexivity.
  - cbn [app List.find]. rewrite bool_decide_eq_false_2 by exact Hf. exact IH.
Qed.

Lemma folderConfigOf_none cfg folderName :
  Forall (fun f => Name f <> folderName) (Folders cfg) ->
  folderConfigOf cfg folderName = mkFolder [] [] 0.
Proof.
  unfold folderConfigOf. induction 1 as [|f l Hf _ IH]; [reflexivity|].
  cbn [List.find]. rewrite bool_decide_eq_false_2 by exact Hf. exact IH.
Qed.

Lemma processEmail_request foldEq cfg item folderName id sn se sj bd message w :
  EntryID item = Some id ->
  SenderName item = Some sn -> SenderEmailAddress item = Some se ->
  Subject item = Some sj -> Body item = Some bd ->
  isProcessed id w = false ->
  formatMessage foldEq cfg folderName (senderText sn se) sj bd
                (MessageLength (folderConfigOf cfg folderName)) = Returns message ->
  network w (calls w) <> MarshalFails ->
  network w (calls w) <> NewRequestFails ->
  posted (snd (processEmail foldEq cfg item folderName w))
  = posted w
    ++ [mkRequest (lit "https://api.telegram.org/bot" ++ BotToken cfg
                   ++ lit "/sendMessage")
                  (mkPayload (if bool_decide (ChatID (folderConfigOf cfg folderName) = [])
                              then DefaultChatID cfg
                              else ChatID (folderConfigOf cfg folderName))
                             message (lit "HTML"))].
Proof.
  intros Hid Hsn Hse Hsj Hbd Hnew Hfmt Hm Hr.
  unfold processEmail. rewrite Hid, Hsn, Hse, Hsj, Hbd.
  unfold bind at 1, readProcessed. rewrite Hnew.
  unfold bind at 1, writeProcessed.
  unfold bind at 1, must. unfold bind at 1. unfold bind at 1. unfold bind at 1.
  unfold bind at 1, liftOutcome. fold (senderText sn se). rewrite Hfmt.
  unfold bind at 1, send, sendTelegramMessage, postJSON.
  cbn [network calls posted processedEmails history].
  destruct (network w (calls w)) as [| | | |status body]; try contradiction;
    try destruct (negb (status =? StatusOK)); reflexivity.
Qed.

(** Property X6. [processEmail], routing: for an unmarked item whose
    properties can be read, the first rule of the configuration that has the
    folder's name decides the body limit of the message and the chat: the
    rule's chat when it is not empty, else the default chat. When the request
    can be built, exactly this one request is handed to the client, with parse
    mode HTML and the URL of the bot's [sendMessage] method. *)
Theorem processEmail_routes_by_first_rule
    foldEq cfg item folderName id sn se sj bd pre rule post w :
  EntryID item = Some id ->
  SenderName item = Some sn -> SenderEmailAddress item = Some se ->
  Subject item = Some sj -> Body item = Some bd ->
  isProcessed id w = false ->
  ValidString (CutText cfg) = true ->
  Folders cfg = pre ++ rule :: post ->
  Forall (fun f => Name f <> folderName) pre ->
  Name rule = folderName ->
  network w (calls w) <> MarshalFails ->
  network w (calls w) <> NewRequestFails ->
  exists message,
    formatMessage foldEq cfg folderName (senderText sn se) sj bd (MessageLength rule)
    = Returns message
    /\ posted (snd (processEmail foldEq cfg item folderName w))
       = posted w
         ++ [mkRequest (lit "https://api.telegram.org/bot" ++ BotToken cfg
                        ++ lit "/sendMessage")
                       (mkPayload (if bool_decide (ChatID rule = [])
                                   then DefaultChatID cfg else ChatID rule)
                                  message (lit "HTML"))].
Proof.
  intros Hid Hsn Hse Hsj Hbd Hnew Hv Hf Hpre Hname Hm Hr.
  destruct (formatMessage_returns foldEq cfg folderName (senderText sn se) sj bd
              (MessageLength rule) Hv) as [message Hfmt].
  exists message. split; [exact Hfmt|].
  pose proof (folderConfigOf_first cfg folderName pre rule post Hf Hpre Hname) as Hrule.
  rewrite <- Hrule in Hfmt |- *.
  eapply processEmail_request; eassumption.
Qed.

Lemma processEmail_routes_by_first_rule_witness :
  exists message,
    formatMessage asciiFoldEq invoiceConfig (lit "Invoices")
                  (senderText (lit "Bob") (lit "bob@example.org"))
                  (lit "Bill") (lit "Please pay") 50
    = Returns message
    /\ posted (snd (processEmail asciiFoldEq invoiceConfig sampleItem (lit "Invoices")
                                 (quietWorld DoFails)))
       = [mkRequest (lit "https://api.telegram.org/bot/sendMessage")
                    (mkPayload [] message (lit "HTML"))].
Proof.
  exact (processEmail_routes_by_first_rule asciiFoldEq invoiceConfig sampleItem
           (lit "Invoices") (lit "00000000A1B2") (lit "Bob") (lit "bob@example.org")
           (lit "Bill") (lit "Please pay") [] (mkFolder (lit "Invoices") [] 50) []
           (quietWorld DoFails)
           eq_refl eq_refl eq_refl eq_refl eq_refl eq_refl eq_refl eq_refl
           (Forall_nil_2 _) eq_refl
           ltac:(discriminate) ltac:(discriminate)).
Defined.

(** ** The handles of a search *)

Lemma releasedFolders_app c1 c2 :
  releasedFolders (c1 ++ c2) = releasedFolders c1 ++ releasedFolders c2.
Proof. apply omap_app. Qed.

Lemma openedCollections_app c1 c2 :
  openedCollections (c1 ++ c2) = openedCollections c1 ++ openedCollections c2.
Proof. apply omap_app. Qed.

Lemma releasedCollections_app c1 c2 :
  releasedCollections (c1 ++ c2) = releasedCollections c1 ++ releasedCollections c2.
Proof. apply omap_app. Qed.

Lemma findFolderLoop_balanced target pid i fs :
  Forall (fun f => balanced (findFolderRecursive f target)) fs ->
  balanced (findFolderLoop (fun f => findFolderRecursive f target) pid target i fs).
Proof.
  intros Hall. revert i. induction Hall as [|f fs [Hf1 Hf2] _ IH]; intros i.
  - split; reflexivity.
  - cbn [findFolderLoop]. case_decide as Hn.
    + split; cbn; reflexivity.
    + destruct (findFolderRecursive f target) as [sub subCalls].
      cbn [fst snd] in Hf1, Hf2. destruct sub as [subFolder|e].
      * unfold balanced. cbn [fst snd].
        rewrite !namesRead_app, !releasedFolders_app, !openedCollections_app,
          !releasedCollections_app.
        cbn [handedOver] in *. split.
        -- change (namesRead [CallItem pid i; CallName (objID f)]) with [objID f].
           change (releasedFolders [CallItem pid i; CallName (objID f)]) with (@nil nat).
           change (releasedFolders [ReleaseFolder (objID f)]) with [objID f].
           change (namesRead [ReleaseFolder (objID f)]) with (@nil nat).
           rewrite Hf1. cbn [app]. rewrite app_nil_r.
           rewrite <- !app_assoc. cbn [app].
           apply Permutation_middle.
        -- cbn. rewrite !app_nil_r. exact Hf2.
      * specialize (IH (i + 1)).
        destruct (findFolderLoop _ pid target (i + 1) fs) as [r restCalls].
        destruct IH as [IH1 IH2]. unfold balanced. cbn [fst snd] in *.
        rewrite !namesRead_app, !releasedFolders_app, !openedCollections_app,
          !releasedCollections_app.
        cbn [handedOver] in Hf1. rewrite app_nil_r in Hf1. split.
        -- change (namesRead [CallItem pid i; CallName (objID f)]) with [objID f].
           change (releasedFolders [CallItem pid i; CallName (objID f)]) with (@nil nat).
           change (releasedFolders [ReleaseFolder (objID f)]) with [objID f].
           change (namesRead [ReleaseFolder (objID f)]) with (@nil nat).
           rewrite Hf1, IH1. cbn [app]. rewrite app_nil_r.
           rewrite <- !app_assoc. cbn [app]. apply Permutation_middle.
        -- cbn. rewrite !app_nil_r, Hf2, IH2. reflexivity.
Qed.

Lemma findFolderRecursive_balanced target parent :
  balanced (findFolderRecursive parent target).
Proof.
  induction parent as [pid n fs IH] using MAPIObject_forall_ind.
  cbn [findFolderRecursive].
  pose proof (findFolderLoop_balanced target pid 1 fs IH) as [H1 H2].
  destruct (findFolderLoop _ pid target 1 fs) as [r calls].
  unfold balanced. cbn [fst snd] in *.
  rewrite !namesRead_app, !releasedFolders_app, !openedCollections_app,
    !releasedCollections_app.
  split.
  - cbn. rewrite !app_nil_r. exact H1.
  - change (openedCollections [CallFolders pid; CallCount pid]) with [pid].
    change (releasedCollections [CallFolders pid; CallCount pid]) with (@nil nat).
    change (openedCollections [ReleaseFolders pid]) with (@nil nat).
    change (releasedCollections [ReleaseFolders pid]) with [pid].
    cbn [app]. rewrite app_nil_r, H2. apply Permutation_cons_append.
Qed.

(** Property X11. [findFolderRecursive], handles: in a search, every folder
    obtained from a collection is released exactly once, except the folder
    that is returned, which is handed to the caller unreleased; every
    [Folders] collection obtained is released, on the path that finds the
    folder as on the path that does not. *)
Theorem findFolderRecursive_releases_handles parent target :
  let r := findFolderRecursive parent target in
  namesRead (snd r) ≡ₚ releasedFolders (snd r) ++ handedOver (fst r)
  /\ openedCollections (snd r) ≡ₚ releasedCollections (snd r).
Proof. intros r. exact (findFolderRecursive_balanced target parent). Qed.

(** ** The pacing of the loop *)

Lemma exec_paced cfg a s s' :
  paced cfg s -> exec cfg a s = Some s' -> paced cfg s'.
Proof.
  intros [Hlen Hall] Hex. unfold exec in Hex.
  case_bool_decide; [discriminate|].
  destruct a as [|i m].
  - unfold paced, sleepPending in *. destruct (loop s) eqn:El.
    + destruct (semaphore s <? semaphoreCap)%nat; [|discriminate].
      inversion Hex; subst s'. cbn. split; [lia|exact Hall].
    + inversion Hex; subst s'. cbn. rewrite length_app. cbn. split; [lia|exact Hall].
    + inversion Hex; subst s'. cbn. rewrite length_app. cbn. split; [lia|].
      apply Forall_app. split; [exact Hall|]. constructor; [reflexivity|constructor].
  - destruct (tasks s !! i) as [t|]; [|discriminate].
    destruct (taskStep m t (semaphore s)) as [[t' sem']|]; [|discriminate].
    inversion Hex; subst s'. unfold paced, sleepPending in *. cbn.
    rewrite length_insert. split; [exact Hlen|exact Hall].
Qed.

Lemma run_paced cfg acts s s' :
  paced cfg s -> run cfg acts s = Some s' -> paced cfg s'.
Proof.
  revert s. induction acts as [|a acts IH]; intros s Hp Hrun.
  - inversion Hrun; subst. exact Hp.
  - cbn [run] in Hrun. destruct (exec cfg a s) as [s1|] eqn:E; [|discriminate].
    exact (IH s1 (exec_paced cfg a s s1 Hp E) Hrun).
Qed.

(** Property X12. [mainLogic], pacing: in every state the scheduler can reach,
    each cycle launched has been followed by one sleep of [waitNextCheck],
    except the cycle just launched, whose sleep is the loop's next step; so a
    cycle beyond the first is launched only after as many full sleeps as there
    are cycles before it. *)
Theorem launches_paced_by_sleeps cfg s :
  reachable cfg s ->
  length (tasks s) = (length (sleeps s) + sleepPending s)%nat
  /\ Forall (fun d => d = waitNextCheck cfg) (sleeps s).
Proof.
  intros [acts Hrun]. apply (run_paced cfg acts initial s); [|exact Hrun].
  split; [reflexivity|constructor].
Qed.

Lemma launches_paced_by_sleeps_witness :
  reachable plainConfig (mkSystem 1 AtAcquire [Started] [10 * Second])
  /\ length [Started] = (length [10 * Second]%Z + 0)%nat.
Proof.
  assert (reachable plainConfig (mkSystem 1 AtAcquire [Started] [10 * Second])) as Hr
    by (exists [LoopStep; LoopStep; LoopStep]; reflexivity).
  split; [exact Hr|].
  exact (proj1 (launches_paced_by_sleeps plainConfig _ Hr)).
Defined.

(** ** The log writers *)

Lemma LogWriterWrite_step lw p :
  1 <= maxLines lw ->
  (Z.of_nat (length (lines lw)) <= maxLines lw) ->
  exists lw',
    LogWriterWrite lw p = Returns (Z.of_nat (length p), lw')
    /\ maxLines lw' = maxLines lw
    /\ lines lw'
       = drop (length (lines lw ++ [TrimSuffix p nl]) - Z.to_nat (maxLines lw))
              (lines lw ++ [TrimSuffix p nl])
    /\ entryText lw' = Join (lines lw') nl
    /\ Z.of_nat (length (lines lw')) <= maxLines lw.
Proof.
  intros Hmax Hlen. unfold LogWriterWrite.
  destruct (Z.of_nat (length (lines lw)) >=? maxLines lw) eqn:E.
  - destruct (lines lw) as [|l0 rest] eqn:El; [cbn in E; lia|].
    cbn [bindOutcome]. eexists. split; [reflexivity|]. cbn [maxLines lines entryText].
    split; [reflexivity|].
    assert (length (l0 :: rest) = Z.to_nat (maxLines lw)) as Hfull by lia.
    rewrite length_app. cbn [length] in *.
    replace (S (length rest) + 1 - Z.to_nat (maxLines lw))%nat with 1%nat by lia.
    cbn [app drop]. split; [reflexivity|]. split; [reflexivity|].
    rewrite ?length_app. cbn [length]. lia.
  - cbn [bindOutcome]. eexists. split; [reflexivity|]. cbn [maxLines lines entryText].
    split; [reflexivity|]. rewrite length_app. cbn [length].
    replace (length (lines lw) + 1 - Z.to_nat (maxLines lw))%nat with 0%nat by lia.
    cbn [drop]. split; [reflexivity|]. split; [reflexivity|].
    rewrite ?length_app. cbn [length]. lia.
Qed.

Lemma writeAll_latest lw ps :
  1 <= maxLines lw ->
  (Z.of_nat (length (lines lw)) <= maxLines lw) ->
  exists lw',
    writeAll lw ps = Returns lw'
    /\ maxLines lw' = maxLines lw
    /\ lines lw'
       = drop (length (lines lw ++ map (fun p => TrimSuffix p nl) ps)
               - Z.to_nat (maxLines lw))
              (lines lw ++ map (fun p => TrimSuffix p nl) ps)
    /\ (ps <> [] -> entryText lw' = Join (lines lw') nl).
Proof.
  revert lw. induction ps as [|p ps IH]; intros lw Hmax Hlen.
  - exists lw. split; [reflexivity|]. split; [reflexivity|]. split; [|congruence].
    cbn [map]. rewrite app_nil_r.
    replace (length (lines lw) - Z.to_nat (maxLines lw))%nat with 0%nat by lia.
    reflexivity.
  - destruct (LogWriterWrite_step lw p Hmax Hlen) as (lw1 & Hw & Hm1 & Hl1 & Ht1 & Hb1).
    destruct (IH lw1 ltac:(lia) ltac:(lia)) as (lw' & Hrun & Hm' & Hl' & Ht').
    exists lw'. cbn [writeAll]. rewrite Hw. cbn [bindOutcome snd].
    split; [exact Hrun|]. split; [congruence|]. split.
    + rewrite Hl', Hl1, Hm1. cbn [map].
      set (M := Z.to_nat (maxLines lw)).
      set (x := TrimSuffix p nl). set (r := map _ ps).
      set (L := lines lw ++ [x]).
      replace (lines lw ++ x :: r) with (L ++ r)
        by (unfold L; rewrite <- app_assoc; reflexivity).
      assert (length L - M <= length L)%nat as Hk by lia.
      rewrite <- (drop_app_le L r (length L - M)) by exact Hk.
      rewrite drop_drop. f_equal.
      rewrite !length_app, length_drop.
      assert (length (lines lw) <= M)%nat by (unfold M; lia).
      assert (1 <= M)%nat by (unfold M; lia).
      unfold L. rewrite ?length_app. cbn [length]. clearbody M. lia.
    + intros _. destruct ps as [|p' ps'].
      * cbn [writeAll] in Hrun. inversion Hrun; subst lw'. exact Ht1.
      * apply Ht'. discriminate.
Qed.

(** Property X13. [LogWriter.Write], bounded buffer: with a positive
    [maxLines] and a buffer within it, any sequence of writes returns without
    panic, the buffer then holds the last [maxLines] of the lines it held and
    the lines written, in order, each written line without its final line
    feed, and the label shows these lines joined by line feeds. *)
Theorem LogWriter_keeps_latest_lines lw ps :
  1 <= maxLines lw ->
  Z.of_nat (length (lines lw)) <= maxLines lw ->
  let all := lines lw ++ map (fun p => TrimSuffix p nl) ps in
  exists lw',
    writeAll lw ps = Returns lw'
    /\ lines lw' = drop (length all - Z.to_nat (maxLines lw)) all
    /\ Z.of_nat (length (lines lw')) <= maxLines lw
    /\ (ps <> [] -> entryText lw' = Join (lines lw') nl).
Proof.
  intros Hmax Hlen all.
  destruct (writeAll_latest lw ps Hmax Hlen) as (lw' & Hrun & Hm & Hl & Ht).
  exists lw'. split; [exact Hrun|]. split; [exact Hl|]. split; [|exact Ht].
  rewrite Hl. fold all. rewrite length_drop.
  assert (length all = length (lines lw) + length ps)%nat
    by (unfold all; rewrite length_app, length_map; reflexivity).
  lia.
Qed.

Lemma LogWriter_keeps_latest_lines_witness :
  exists lw',
    writeAll (mkLogWriter 2 [] []) [lit "a" ++ nl; lit "b" ++ nl; lit "c" ++ nl]
    = Returns lw'
    /\ lines lw' = [lit "b"; lit "c"]
    /\ Z.of_nat (length (lines lw')) <= 2
    /\ (entryText lw' = Join (lines lw') nl).
Proof.
  destruct (LogWriter_keeps_latest_lines (mkLogWriter 2 [] [])
              [lit "a" ++ nl; lit "b" ++ nl; lit "c" ++ nl]
              ltac:(cbn; lia) ltac:(cbn; lia)) as (lw' & Hrun & Hl & Hb & Ht).
  exists lw'. split; [exact Hrun|]. split; [exact Hl|]. split; [exact Hb|].
  apply Ht. discriminate.
Defined.

Lemma MultiWriterWrite_stops pre f post p n pre' :
  MultiWriterWrite pre p = Returns (n, None, pre') ->
  writable f = false ->
  MultiWriterWrite (pre ++ Some (FileWriter f) :: post) p
  = Returns (0, Some ErrFileWrite, pre' ++ Some (FileWriter f) :: post).
Proof.
  revert n pre'. induction pre as [|[w|] pre IH]; intros n pre' Hpre Hf.
  - cbn in Hpre. inversion Hpre; subst. cbn. rewrite Hf. reflexivity.
  - cbn [MultiWriterWrite app] in *.
    destruct (writerWrite w p) as [[[err|] w1]|pn]; cbn [bindOutcome fst snd] in *;
      try discriminate.
    destruct (MultiWriterWrite pre p) as [[[n1 e1] ws1]|pn] eqn:E;
      cbn [bindOutcome fst snd] in *; try discriminate.
    inversion Hpre; subst. rewrite (IH n ws1 eq_refl Hf). reflexivity.
  - cbn [MultiWriterWrite app] in *.
    destruct (MultiWriterWrite pre p) as [[[n1 e1] ws1]|pn] eqn:E;
      cbn [bindOutcome fst snd] in *; try discriminate.
    inversion Hpre; subst. rewrite (IH n ws1 eq_refl Hf). reflexivity.
Qed.

(** Property X14. [MultiWriter.Write], failing file: the loop stops at a log
    file whose write fails and returns the count 0 with the error, also when
    writers before it have taken the line; the file and the writers after it
    are left as they were. With the writers [initLogger] installs, the file
    first, a failing log file therefore keeps every line from the window's log
    as well. *)
Theorem MultiWriter_stops_at_failing_file f :
  writable f = false ->
  (forall pre post p n pre',
     MultiWriterWrite pre p = Returns (n, None, pre') ->
     MultiWriterWrite (pre ++ Some (FileWriter f) :: post) p
     = Returns (0, Some ErrFileWrite, pre' ++ Some (FileWriter f) :: post))
  /\ (forall console lw p,
        MultiWriterWrite (initLogger f console true lw) p
        = Returns (0, Some ErrFileWrite, initLogger f console true lw)).
Proof.
  intros Hf. split.
  - intros pre post p n pre' Hpre. exact (MultiWriterWrite_stops pre f post p n pre' Hpre Hf).
  - intros console lw p. unfold initLogger.
    exact (MultiWriterWrite_stops [] f _ p _ [] eq_refl Hf).
Qed.

Lemma MultiWriter_stops_at_failing_file_witness :
  MultiWriterWrite (initLogger (mkFile [] false) true true (Some (mkLogWriter 100 [] [])))
                   (lit "line" ++ nl)
  = Returns (0, Some ErrFileWrite,
             initLogger (mkFile [] false) true true (Some (mkLogWriter 100 [] []))).
Proof.
  exact (proj2 (MultiWriter_stops_at_failing_file (mkFile [] false) eq_refl)
           true (Some (mkLogWriter 100 [] [])) (lit "line" ++ nl)).
Defined.

(** ** The Outlook process *)

Lemma equalFoldRunes_refl foldEq rs : equalFoldRunes foldEq rs rs = true.
Proof.
  induction rs as [|r rs IH]; [reflexivity|].
  cbn [equalFoldRunes]. rewrite Z.eqb_refl, IH. reflexivity.
Qed.

Lemma killLoop_spec procs :
  forall pid, pid ∈ fst (killLoop procs)
              <-> exists p, p ∈ procs /\ Pid p = pid /\ procName p = Some outlookExe.
Proof.
  induction procs as [|p rest IH]; intros pid.
  - cbn. split; [intros H; inversion H|intros (p & H & _); inversion H].
  - cbn [killLoop]. destruct (killLoop rest) as [killed logged]. cbn [fst] in IH.
    assert ((exists q, q ∈ p :: rest /\ Pid q = pid /\ procName q = Some outlookExe)
            <-> (Pid p = pid /\ procName p = Some outlookExe) \/ pid ∈ killed) as Hsplit.
    { rewrite IH. split.
      - intros (q & Hq & H1 & H2). apply elem_of_cons in Hq as [->|Hq]; [left; auto|].
        right. exists q. auto.
      - intros [[H1 H2]|(q & Hq & H1 & H2)].
        + exists p. split; [left|auto].
        + exists q. split; [right; exact Hq|auto]. }
    rewrite Hsplit.
    destruct (procName p) as [name|] eqn:En.
    + case_bool_decide as Hn; cbn [fst].
      * rewrite elem_of_cons. subst name. split.
        -- intros [->|H]; [left; auto|right; exact H].
        -- intros [[H _]|H]; [left; auto|right; exact H].
      * split; [intros H; right; exact H|].
        intros [[_ H]|H]; [congruence|exact H].
    + cbn [fst]. split; [intros H; right; exact H|].
      intros [[_ H]|H]; [discriminate|exact H].
Qed.

(** Property X15. [killOutlookProcess], report and targets: when the process
    list can be read the call returns the nil error, whether or not a process
    was found and whether or not a kill failed. It calls [Kill] on exactly the
    processes whose name reads as the bytes [OUTLOOK.EXE]; each of them is a
    process that [isOutlookRunning] detects, whose comparison ignores case. *)
Theorem killOutlookProcess_reports_nil foldEq procs :
  let r := killOutlookProcess (Some procs) in
  fst (fst r) = None
  /\ (forall pid, pid ∈ snd (fst r)
                  <-> exists p, p ∈ procs /\ Pid p = pid
                                /\ procName p = Some outlookExe)
  /\ (snd (fst r) <> [] -> isOutlookRunning foldEq (Some procs) = true).
Proof.
  intros r. subst r. unfold killOutlookProcess.
  pose proof (killLoop_spec procs) as Hspec.
  destruct (killLoop procs) as [killed logged]. cbn [fst snd] in *.
  split; [reflexivity|]. split; [exact Hspec|].
  intros Hne. destruct killed as [|pid killed]; [congruence|].
  destruct (Hspec pid) as [Hin _].
  destruct (Hin ltac:(left)) as (p & Hp & _ & Hname).
  unfold isOutlookRunning. apply existsb_exists. exists p.
  split; [apply list_elem_of_In; exact Hp|].
  rewrite Hname. apply equalFoldRunes_refl.
Qed.

(** ** The validators *)

Lemma dead_nullable r : dead r = true -> nullable r = false.
Proof.
  induction r as [| |p|r1 IH1 r2 IH2|r1 IH1 r2 IH2|r IH]; cbn; try congruence.
  - intros H. apply orb_true_iff in H as [H|H];
      [rewrite (IH1 H)|rewrite (IH2 H), andb_false_r]; reflexivity.
  - intros H. apply andb_true_iff in H as [H1 H2]. rewrite (IH1 H1), (IH2 H2). reflexivity.
Qed.

Lemma dead_deriv a r : dead r = true -> dead (deriv a r) = true.
Proof.
  induction r as [| |p|r1 IH1 r2 IH2|r1 IH1 r2 IH2|r IH]; cbn; try congruence.
  - intros H. apply orb_true_iff in H as [H|H].
    + rewrite (IH1 H). cbn. rewrite (dead_nullable r1 H). reflexivity.
    + rewrite H, orb_true_r. cbn. destruct (nullable r1); [exact (IH2 H)|reflexivity].
  - intros H. apply andb_true_iff in H as [H1 H2]. rewrite (IH1 H1), (IH2 H2). reflexivity.
Qed.

Lemma dead_match r rs : dead r = true -> matchRunes r rs = false.
Proof.
  revert r. induction rs as [|a rs IH]; intros r H.
  - apply dead_nullable. exact H.
  - cbn. apply IH. apply dead_deriv. exact H.
Qed.

Lemma deriv_outside P a r : within P r -> P a = false -> dead (deriv a r) = true.
Proof.
  intros Hw Ha. induction r as [| |p|r1 IH1 r2 IH2|r1 IH1 r2 IH2|r IH]; cbn in *.
  - reflexivity.
  - reflexivity.
  - destruct (p a) eqn:E; [rewrite (Hw a E) in Ha; discriminate|reflexivity].
  - destruct Hw as [H1 H2]. rewrite (IH1 H1). cbn.
    destruct (nullable r1); [exact (IH2 H2)|reflexivity].
  - destruct Hw as [H1 H2]. rewrite (IH1 H1), (IH2 H2). reflexivity.
  - rewrite (IH Hw). reflexivity.
Qed.

Lemma within_deriv P a r : within P r -> within P (deriv a r).
Proof.
  induction r as [| |p|r1 IH1 r2 IH2|r1 IH1 r2 IH2|r IH]; cbn.
  - tauto.
  - tauto.
  - intros _. destruct (p a); exact I.
  - intros [H1 H2]. split; [split; [exact (IH1 H1)|exact H2]|].
    destruct (nullable r1); [exact (IH2 H2)|exact I].
  - intros [H1 H2]. split; [exact (IH1 H1)|exact (IH2 H2)].
  - intros H. split; [exact (IH H)|exact H].
Qed.

(** A text that matches holds runes of the pattern's classes only. *)
Lemma matchRunes_within P r rs :
  within P r -> matchRunes r rs = true -> Forall (fun a => P a = true) rs.
Proof.
  revert r. induction rs as [|a rs IH]; intros r Hw Hm; [constructor|].
  cbn in Hm. destruct (P a) eqn:Ha.
  - constructor; [exact Ha|]. exact (IH _ (within_deriv P a r Hw) Hm).
  - rewrite (dead_match _ rs (deriv_outside P a r Hw Ha)) in Hm. discriminate.
Qed.

(** A text whose runes are all of an ASCII class is made of the bytes of
    that class. *)
Lemma runes_ascii_bytes (P : Z -> bool) s :
  (forall a, P a = true -> 0 <= a < 0x80) ->
  Forall (fun a => P a = true) (runes s) ->
  Forall (fun b => P (b2z b) = true) s.
Proof.
  intros HP. remember (length s) as n eqn:Hn. revert s Hn.
  induction n as [n IH] using lt_wf_ind. intros s Hn Hall.
  destruct s as [|c t]; [constructor|].
  rewrite runes_step in Hall by discriminate.
  apply Forall_cons in Hall as [Hc Hrest].
  destruct (Z_lt_dec (b2z c) 0x80) as [Ha|Ha].
  - rewrite DecodeRune_1 in Hc, Hrest by exact Ha. cbn [fst snd drop] in *.
    constructor; [exact Hc|].
    apply (IH (length t)); [subst n; cbn; lia|reflexivity|exact Hrest].
  - pose proof (DecodeRune_nonASCII_ge c t Ha) as Hge.
    specialize (HP _ Hc). lia.
Qed.

Lemma tokenRune_ascii a : tokenRune a = true -> 0 <= a < 0x80.
Proof. unfold tokenRune, word, inRange. lia. Qed.

Lemma chatRune_ascii a : chatRune a = true -> 0 <= a < 0x80.
Proof. unfold chatRune, word, inRange. lia. Qed.

(** A text that matches a pattern whose classes lie in an ASCII class is
    made of the bytes of that class. *)
Lemma MatchWhole_within (P : Z -> bool) r s :
  (forall a, P a = true -> 0 <= a < 0x80) ->
  within P r ->
  MatchWhole r s = true -> Forall (fun b => P (b2z b) = true) s.
Proof.
  intros HP Hw Hm. unfold MatchWhole in Hm.
  apply (runes_ascii_bytes _ s HP).
  exact (matchRunes_within _ r (runes s) Hw Hm).
Qed.

Lemma forallb_Forall_true {A} (f : A -> bool) l :
  forallb f l = true -> Forall (fun x => f x = true) l.
Proof.
  induction l as [|x l IH]; [constructor|]. cbn. intros H.
  apply andb_true_iff in H as [H1 H2]. constructor; [exact H1|exact (IH H2)].
Qed.

(** Property X16. [isValidBotToken], alphabet: an accepted token is made of
    ASCII letters, digits and the signs [_ - :] only, so the URL that
    [sendTelegramMessage] builds from it holds, besides these, only slashes
    and dots: no byte of the token ends or splits its path. *)
Theorem isValidBotToken_plain_bytes token :
  isValidBotToken token = true ->
  Forall (fun b => tokenByte b = true) token
  /\ Forall (fun b => urlByte b = true)
            (lit "https://api.telegram.org/bot" ++ token ++ lit "/sendMessage").
Proof.
  intros H.
  assert (Forall (fun b => tokenByte b = true) token) as Ht.
  { apply (MatchWhole_within tokenRune botTokenPattern token tokenRune_ascii); [|exact H].
    cbn. unfold tokenRune, digit, wordOrDash, runeIs, word, inRange.
    repeat split; intros a Ha; lia. }
  split; [exact Ht|].
  apply Forall_app. split; [|apply Forall_app; split].
  - apply forallb_Forall_true. vm_compute. reflexivity.
  - eapply Forall_impl; [exact Ht|]. intros b Hb. unfold urlByte. rewrite Hb. reflexivity.
  - apply forallb_Forall_true. vm_compute. reflexivity.
Qed.

Lemma isValidBotToken_plain_bytes_witness :
  Forall (fun b => tokenByte b = true) (lit "123456:AB-cd_9")
  /\ Forall (fun b => urlByte b = true)
            (lit "https://api.telegram.org/bot" ++ lit "123456:AB-cd_9"
             ++ lit "/sendMessage").
Proof. exact (isValidBotToken_plain_bytes (lit "123456:AB-cd_9") eq_refl). Defined.

Lemma parseDigits_digits acc s v :
  parseDigits acc s = Some v -> Forall (fun b => chatByte b = true) s.
Proof.
  revert acc. induction s as [|c rest IH]; intros acc H; [constructor|].
  cbn [parseDigits] in H. destruct (inRange 0x30 0x39 (b2z c)) eqn:E; [|discriminate].
  constructor; [|exact (IH _ H)].
  unfold chatByte, chatRune, word. rewrite E. reflexivity.
Qed.

Lemma ParseInt10_plain s v :
  ParseInt10 s = Some v -> Forall (fun b => chatByte b = true) s.
Proof.
  unfold ParseInt10. destruct s as [|c rest]; [discriminate|].
  destruct (bool_decide (c = Byte.x2b) || bool_decide (c = Byte.x2d)) eqn:Es.
  - destruct (ParseUint10 rest) as [un|] eqn:Eu; [|discriminate]. intros _.
    constructor.
    + apply orb_true_iff in Es as [Hc|Hc]; apply bool_decide_eq_true_1 in Hc; subst c;
        reflexivity.
    + unfold ParseUint10 in Eu. destruct rest as [|c' rest']; [discriminate|].
      exact (parseDigits_digits _ _ _ Eu).
  - destruct (ParseUint10 (c :: rest)) as [un|] eqn:Eu; [|discriminate]. intros _.
    exact (parseDigits_digits _ _ _ Eu).
Qed.

(** Property X17. [isValidChatID], alphabet: an accepted chat id is empty or
    made of ASCII letters, digits and the signs [_ - + @] only. *)
Theorem isValidChatID_plain_bytes chatID :
  isValidChatID chatID = true -> Forall (fun b => chatByte b = true) chatID.
Proof.
  unfold isValidChatID.
  destruct (bool_decide (chatID = []) || bool_decide (chatID = lit "0")) eqn:E0.
  - intros _. apply orb_true_iff in E0 as [H|H]; apply bool_decide_eq_true_1 in H;
      subst chatID; [constructor|].
    apply forallb_Forall_true. vm_compute. reflexivity.
  - clear E0. case_bool_decide as Hp.
    + intros _. destruct Hp as [v Hv]. exact (ParseInt10_plain _ _ Hv).
    + apply (MatchWhole_within chatRune channelPattern chatID chatRune_ascii).
      cbn. unfold chatRune, runeIs, word, inRange. repeat split; intros a Ha; lia.
Qed.

Lemma isValidChatID_plain_bytes_witness :
  Forall (fun b => chatByte b = true) (lit "-1001234567890")
  /\ Forall (fun b => chatByte b = true) (lit "@invoices").
Proof.
  split.
  - exact (isValidChatID_plain_bytes (lit "-1001234567890") eq_refl).
  - exact (isValidChatID_plain_bytes (lit "@invoices") eq_refl).
Defined.

Lemma validateFolders_ok i folders :
  validateFolders i folders = None ->
  Forall (fun folder =>
            (1 <= length (Name folder) <= 150)%nat
            /\ isValidChatID (ChatID folder) = true
            /\ 0 <= MessageLength folder <= 4000) folders.
Proof.
  revert i. induction folders as [|folder rest IH]; intros i H; [constructor|].
  cbn [validateFolders] in H.
  destruct ((length (Name folder) =? 0)%nat || (150 <? length (Name folder))%nat) eqn:E1;
    [discriminate|].
  destruct (isValidChatID (ChatID folder)) eqn:E2; [|discriminate]. cbn [negb] in H.
  destruct ((MessageLength folder <? 0) || (4000 <? MessageLength folder)) eqn:E3;
    [discriminate|].
  constructor; [|exact (IH _ H)].
  split; [lia|]. split; [exact E2|lia].
Qed.

Lemma folderConfigOf_cases cfg folderName :
  folderConfigOf cfg folderName = mkFolder [] [] 0
  \/ folderConfigOf cfg folderName ∈ Folders cfg.
Proof.
  unfold folderConfigOf.
  destruct (List.find _ (Folders cfg)) as [f|] eqn:E; [right|left; reflexivity].
  apply find_some in E as [Hin _]. apply list_elem_of_In. exact Hin.
Qed.

(** Property X18. [validateConfig], what acceptance gives the notifier: for an
    accepted configuration [waitNextCheck] sleeps the configured number of
    seconds, ten for zero, and never more than 1000 seconds; for every folder
    name the body limit that [processEmail] passes to [formatMessage] lies
    between 0 and 4000 and the chat id it sends to is accepted by
    [isValidChatID]; the cut marker is empty or has at least four bytes. *)
Theorem validateConfig_accepted st answer :
  validateConfig st answer = None ->
  let config := coreConfig st in
  waitNextCheck config
  = (if CheckIntervalSeconds config =? 0 then 10 else CheckIntervalSeconds config) * Second
  /\ 0 < waitNextCheck config <= 1000 * Second
  /\ (forall folderName,
        let rule := folderConfigOf config folderName in
        0 <= MessageLength rule <= 4000
        /\ isValidChatID (if bool_decide (ChatID rule = []) then DefaultChatID config
                          else ChatID rule) = true)
  /\ (CutText config = [] \/ (4 <= length (CutText config))%nat)
  /\ isValidBotToken (BotToken config) = true
  /\ answer = GetResponds 200 (Some (Some true)).
Proof.
  intros H config. unfold validateConfig in H. fold config in H.
  destruct (isValidBotToken (BotToken config)) eqn:Etok; [|discriminate]. cbn [negb] in H.
  destruct (checkBotAccess answer) as [err|] eqn:Eacc; [discriminate|].
  destruct (isValidChatID (DefaultChatID config)) eqn:Edef; [|discriminate].
  cbn [negb] in H.
  destruct ((CheckIntervalSeconds config <? 0) || (1000 <? CheckIntervalSeconds config))
    eqn:Eint; [discriminate|].
  destruct (negb (length (CutText config) =? 0)%nat && (length (CutText config) <? 4)%nat)
    eqn:Ecut; [discriminate|].
  destruct (validateFolders 0 (Folders config)) as [err|] eqn:Efold; [discriminate|].
  clear H.
  assert (0 <= CheckIntervalSeconds config <= 1000) as Hint by lia.
  assert (waitNextCheck config
          = (if CheckIntervalSeconds config =? 0 then 10
             else CheckIntervalSeconds config) * Second) as Hwait.
  { unfold waitNextCheck. fold config.
    destruct (CheckIntervalSeconds config =? 0) eqn:E0.
    - replace (CheckIntervalSeconds config <=? 0) with true by lia.
      apply wrapInt64_small. unfold Second. lia.
    - replace (CheckIntervalSeconds config <=? 0) with false by lia.
      apply wrapInt64_small. unfold Second. lia. }
  split; [exact Hwait|]. split.
  { rewrite Hwait. unfold Second. destruct (CheckIntervalSeconds config =? 0) eqn:E0; lia. }
  split; [|split; [|split]].
  - intros folderName rule.
    pose proof (validateFolders_ok 0 (Folders config) Efold) as Hall.
    destruct (folderConfigOf_cases config folderName) as [Hz|Hin]; fold rule in Hz || fold rule in Hin.
    + rewrite Hz. cbn. split; [lia|exact Edef].
    + rewrite List.Forall_forall in Hall.
      destruct (Hall rule (proj1 (list_elem_of_In _ _) Hin)) as (_ & Hchat & Hlen).
      split; [exact Hlen|]. case_bool_decide; [exact Edef|exact Hchat].
  - destruct (CutText config) as [|c cut]; [left; reflexivity|right].
    cbn [length] in *. lia.
  - reflexivity.
  - unfold checkBotAccess in Eacc. destruct answer as [|status decoded]; [discriminate|].
    destruct (negb (status =? 200)) eqn:Es; [discriminate|].
    destruct decoded as [[[|]|]|]; try discriminate.
    f_equal. lia.
Qed.

(** ** One cycle *)






(** Without its [Release] calls the traced pass is [processFolders]. *)
Lemma processItemsTraced_erase foldEq cfg folderName folder i items w :
  fst (processItemsTraced foldEq cfg folderName folder i items w)
  = processItems foldEq cfg folderName items w.
Proof.
  revert i w. induction items as [|[item|] rest IH]; intros i w; try reflexivity.
  cbn [processItemsTraced processItems]. unfold bind at 1. cbn [must].
  unfold bind at 1.
  destruct (processEmail foldEq cfg item folderName w) as [[[]|p] w1]; [|reflexivity].
  rewrite <- (IH (S i) w1).
  destruct (processItemsTraced foldEq cfg folderName folder (S i) rest w1) as [[o w2] rel].
  reflexivity.
Qed.

Lemma processFoldersLoop_erase foldEq cfg view folders w deferred :
  fst (fst (processFoldersLoop foldEq cfg view folders w deferred))
  = processFolders foldEq (fun folder => unreadItems (view folder)) cfg folders w.
Proof.
  revert w deferred.
  induction folders as [|[folderName folder] rest IH]; intros w deferred; [reflexivity|].
  cbn [processFoldersLoop processFolders]. unfold bind at 1.
  destruct (view folder) as [| | |items]; try reflexivity.
  cbn [unreadItems must]. unfold bind at 1.
  rewrite <- (processItemsTraced_erase foldEq cfg folderName (objID folder) 1 items w).
  destruct (processItemsTraced foldEq cfg folderName (objID folder) 1 items w)
    as [[[[]|p] w1] rel]; [|reflexivity].
  cbn [fst]. rewrite <- (IH w1 (HFilteredOf (objID folder) :: HItemsOf (objID folder)
                                   :: deferred)).
  destruct (processFoldersLoop foldEq cfg view rest w1 _) as [[[o w2] later] d].
  reflexivity.
Qed.

Lemma processFoldersTraced_erase foldEq cfg view folders w :
  fst (processFoldersTraced foldEq cfg view folders w)
  = processFolders foldEq (fun folder => unreadItems (view folder)) cfg folders w.
Proof.
  unfold processFoldersTraced.
  rewrite <- (processFoldersLoop_erase foldEq cfg view folders w []).
  destruct (processFoldersLoop foldEq cfg view folders w []) as [[[o w1] rel] d].
  reflexivity.
Qed.













(** A cycle on the sample namespace whose folder holds one unread item: the
    search releases the folder it entered and the two collections it read,
    the pass releases the item and then its two collections, and the
    application and the namespace come last. When the read of [Count] fails
    the pass panics, its deferred calls run, and the application and the
    namespace are not released. *)
Example cycleBody_release_order :
  (let '(o, _, evs) := cycleBody asciiFoldEq reportsConfig
                                 (sampleSurroundings (Unread [Some sampleItem]))
                                 (quietWorld (Responds 200 (lit "{}"))) in
   (o, releases evs))
  = (Returns tt,
     [HFoldersOf 1; HObject 1; HFoldersOf 0;
      HItem 2 1; HFilteredOf 2; HItemsOf 2;
      HObject 100; HObject 0])
  /\ (let '(o, _, evs) := cycleBody asciiFoldEq reportsConfig
                                    (sampleSurroundings CountFails)
                                    (quietWorld (Responds 200 (lit "{}"))) in
      (o, releases evs))
     = (Panics ComCallFailed,
        [HFoldersOf 1; HObject 1; HFoldersOf 0; HFilteredOf 2; HItemsOf 2]).
Proof. split; vm_compute; reflexivity. Qed.

(** ** The folder loop of the validation *)

Lemma validateFolders_first i folders err :
  validateFolders i folders = Some err ->
  exists k folder,
    folders !! k = Some folder
    /\ offends folder (i + k) err
    /\ Forall folderAccepted (take k folders).
Proof.
  revert i. induction folders as [|folder rest IH]; intros i H; [discriminate|].
  cbn [validateFolders] in H.
  destruct ((length (Name folder) =? 0)%nat || (150 <? length (Name folder))%nat) eqn:E1.
  { inversion H; subst err. exists 0%nat, folder. split; [reflexivity|].
    split; [|constructor]. rewrite Nat.add_0_r. left. split; [reflexivity|lia]. }
  destruct (isValidChatID (ChatID folder)) eqn:E2; cbn [negb] in H.
  2:{ inversion H; subst err. exists 0%nat, folder. split; [reflexivity|].
      split; [|constructor]. rewrite Nat.add_0_r. right. left.
      split; [reflexivity|]. split; [lia|exact E2]. }
  destruct ((MessageLength folder <? 0) || (4000 <? MessageLength folder)) eqn:E3.
  { inversion H; subst err. exists 0%nat, folder. split; [reflexivity|].
    split; [|constructor]. rewrite Nat.add_0_r. right. right.
    split; [reflexivity|]. split; [lia|]. split; [exact E2|lia]. }
  destruct (IH (S i) H) as (k & f & Hk & Hoff & Hpre).
  exists (S k), f. split; [exact Hk|]. split.
  - replace (i + S k)%nat with (S i + k)%nat by lia. exact Hoff.
  - cbn [take]. constructor; [|exact Hpre].
    split; [lia|]. split; [exact E2|lia].
Qed.

(** Property X20. [validateConfig], the folder it reports: when the loop over
    the folders returns an error, the index the error carries is the index of
    the first rule that fails a check, the error names the first check that
    rule fails (name, then chat id, then length), and every rule before it
    passes all three. *)
Theorem validateFolders_reports_first_offender folders err :
  validateFolders 0 folders = Some err ->
  exists i folder,
    folders !! i = Some folder
    /\ offends folder i err
    /\ Forall folderAccepted (take i folders).
Proof.
  intros H. destruct (validateFolders_first 0 folders err H) as (k & f & H1 & H2 & H3).
  exists k, f. auto.
Qed.

Lemma validateFolders_reports_first_offender_witness :
  let folders := [mkFolder (lit "Invoices") [] 50;
                  mkFolder (lit "Orders") (lit "not a chat") 50;
                  mkFolder [] (lit "also not a chat") 5000] in
  validateFolders 0 folders = Some (BadFolderChatID 1)
  /\ exists i folder,
       i = 1%nat
       /\ folder = mkFolder (lit "Orders") (lit "not a chat") 50
       /\ folders !! i = Some folder
       /\ offends folder i (BadFolderChatID 1)
       /\ Forall folderAccepted (take i folders).
Proof.
  intros folders. split; [reflexivity|].
  destruct (validateFolders_reports_first_offender folders (BadFolderChatID 1) eq_refl)
    as (i & folder & Hl & Hoff & Hpre).
  assert (i = 1%nat) as -> by (destruct Hoff as [[H _]|[[H _]|[H _]]]; congruence).
  exists 1%nat, folder. split; [reflexivity|].
  change (Some (mkFolder (lit "Orders") (lit "not a chat") 50) = Some folder) in Hl.
  split; [congruence|]. auto.
Defined.

(** ** Instances *)

Lemma truncateByRunes_utf8_safe_witness :
  exists out,
    truncateByRunes (lit "héllo") 2 = Returns out
    /\ ValidString out = true
    /\ exists k, (k < length (lit "héllo"))%nat /\ out = take k (lit "héllo") ++ lit "...".
Proof.
  destruct (truncateByRunes_utf8_safe (lit "héllo") 2 ltac:(lia))
    as (out & Hrun & _ & Hvalid).
  destruct (Hvalid eq_refl) as [Hv Hprefix].
  exists out. split; [exact Hrun|]. split; [exact Hv|].
  apply Hprefix. vm_compute. reflexivity.
Defined.

Lemma formatMessage_marker_removed_witness :
  let kept := lit "<b>Папка:</b> Invoices" ++ nl
              ++ lit "<b>Отправитель:</b> Bob" ++ nl
              ++ lit "<b>Тема:</b> Bill" ++ nl
              ++ lit "<i>Сообщение:</i>" ++ nl ++ lit "Please pay before " in
  exists m,
    messageBeforeCap asciiFoldEq invoiceConfig (lit "Invoices") (lit "Bob") (lit "Bill")
                     invoiceBody 50 = Returns m
    /\ m = kept
    /\ (forall k, ~ occursFolded asciiFoldEq (runes (lit "--END--")) m k)
    /\ formatMessage asciiFoldEq invoiceConfig (lit "Invoices") (lit "Bob") (lit "Bill")
                     invoiceBody 50 = Returns m.
Proof.
  intros kept.
  destruct (formatMessage_marker_removed asciiFoldEq invoiceConfig (lit "Invoices")
              (lit "Bob") (lit "Bill") invoiceBody 50 ltac:(discriminate) eq_refl)
    as (m & i & Hm & _ & _ & _ & Hclean & Hout).
  assert (messageBeforeCap asciiFoldEq invoiceConfig (lit "Invoices") (lit "Bob")
            (lit "Bill") invoiceBody 50 = Returns kept) as Hval
    by (vm_compute; reflexivity).
  assert (m = kept) as Hkept by congruence.
  exists m. split; [exact Hm|]. split; [exact Hkept|]. split; [exact Hclean|].
  apply Hout. rewrite Hkept. vm_compute. discriminate.
Defined.

Lemma formatMessage_valid_utf8_witness :
  exists message,
    formatMessage asciiFoldEq invoiceConfig (lit "Счета") (lit "Боб <bob@example.org>")
                  (lit "Счёт") (lit "Оплатите до пятницы, пожалуйста") 10
    = Returns message
    /\ ValidString message = true.
Proof.
  exact (formatMessage_valid_utf8 asciiFoldEq invoiceConfig (lit "Счета")
           (lit "Боб <bob@example.org>") (lit "Счёт")
           (lit "Оплатите до пятницы, пожалуйста") 10
           eq_refl eq_refl eq_refl eq_refl eq_refl).
Defined.

Lemma formatMessage_tags_from_template_witness :
  exists composed message,
    composeMessage plainConfig (lit "Inbox") (lit "Eve <eve@example.org>")
                   (lit "<b>bold</b>") (lit "<script>alert(1)</script>") 100
    = Returns composed
    /\ countByte Byte.x3c composed = 8%nat
    /\ formatMessage asciiFoldEq plainConfig (lit "Inbox") (lit "Eve <eve@example.org>")
                     (lit "<b>bold</b>") (lit "<script>alert(1)</script>") 100
       = Returns message
    /\ (countByte Byte.x3c message <= 8)%nat.
Proof.
  exact (formatMessage_tags_from_template asciiFoldEq plainConfig (lit "Inbox")
           (lit "Eve <eve@example.org>") (lit "<b>bold</b>")
           (lit "<script>alert(1)</script>") 100 Byte.x3c (or_introl eq_refl) eq_refl).
Defined.

Lemma sampleItem_readable : readable sampleItem.
Proof. repeat split; eexists; reflexivity. Qed.

Lemma secondItem_readable : readable secondItem.
Proof. repeat split; eexists; reflexivity. Qed.

Lemma processFolders_one_exchange_each_witness :
  exists w',
    processFolders asciiFoldEq (sampleUnread [sampleItem; secondItem]) plainConfig
                   sampleFolders recoveringWorld = (Returns tt, w')
    /\ calls w' = 2%nat
    /\ isProcessed (lit "00000000A1B2") w' = false
    /\ isProcessed (lit "00000000C3D4") w' = true.
Proof.
  assert (passReadable (sampleUnread [sampleItem; secondItem]) sampleFolders) as Hok.
  { split.
    - repeat constructor. eexists. reflexivity.
    - constructor; [|constructor; [|constructor]].
      + exists sampleItem, (lit "00000000A1B2").
        split; [reflexivity|]. split; [reflexivity|exact sampleItem_readable].
      + exists secondItem, (lit "00000000C3D4").
        split; [reflexivity|]. split; [reflexivity|exact secondItem_readable]. }
  assert (NoDup (omap entryOf (itemsInOrder (sampleUnread [sampleItem; secondItem])
                                            sampleFolders))) as Hnd.
  { apply NoDup_cons. split; [|apply NoDup_singleton].
    intros H. apply list_elem_of_singleton in H. discriminate H. }
  destruct (processFolders_one_exchange_each asciiFoldEq
              (sampleUnread [sampleItem; secondItem]) plainConfig sampleFolders
              recoveringWorld eq_refl Hok Hnd ltac:(intros; reflexivity))
    as (w' & Hrun & Hc & Hk & _).
  exists w'. split; [exact Hrun|]. split; [exact Hc|]. split.
  - destruct (isProcessed (lit "00000000A1B2") w') eqn:E; [|reflexivity].
    destruct (proj1 (Hk 0%nat (lit "Invoices", Some sampleItem) (lit "00000000A1B2")
                       eq_refl eq_refl) E) as [body Hb].
    discriminate Hb.
  - apply (Hk 1%nat (lit "Invoices", Some secondItem) (lit "00000000C3D4")
              eq_refl eq_refl).
    exists (lit "{}"). reflexivity.
Defined.

Lemma processFolders_all_marked_unchanged_witness :
  processFolders asciiFoldEq (sampleUnread [sampleItem]) plainConfig sampleFolders markedWorld
  = (Returns tt, markedWorld).
Proof.
  apply (processFolders_all_marked_unchanged asciiFoldEq (sampleUnread [sampleItem])
           plainConfig sampleFolders markedWorld).
  repeat constructor. exists [Some sampleItem]. split; [reflexivity|].
  repeat constructor. exists sampleItem, (lit "00000000A1B2").
  split; [reflexivity|]. split; [reflexivity|]. vm_compute. reflexivity.
Defined.

Lemma processFolders_unreadable_item_blocks_once_witness :
  exists w1,
    processFolders asciiFoldEq (sampleUnread [brokenItem]) plainConfig sampleFolders
                   (quietWorld DoFails) = (Panics ComCallFailed, w1)
    /\ calls w1 = 0%nat
    /\ isProcessed (lit "00000000A1B2") w1 = true
    /\ processFolders asciiFoldEq (sampleUnread [brokenItem]) plainConfig sampleFolders w1
       = (Returns tt, w1).
Proof.
  destruct (processFolders_unreadable_item_blocks_once asciiFoldEq
              (sampleUnread [brokenItem]) plainConfig (lit "Invoices")
              (mkObject 3 (lit "Invoices") []) [] brokenItem []
              (lit "00000000A1B2") (quietWorld DoFails) eq_refl eq_refl
              ltac:(intros (_ & _ & [x Hx] & _); discriminate Hx) eq_refl)
    as (w1 & Hrun & Hc & _ & Hm & Hagain).
  exists w1. split; [exact Hrun|]. split; [exact Hc|]. split; [exact Hm|].
  exact Hagain.
Defined.

Lemma validateConfig_accepted_witness :
  waitNextCheck (coreConfig sampleSettings) = 30 * Second
  /\ isValidChatID (lit "@invoices") = true.
Proof.
  destruct (validateConfig_accepted sampleSettings (GetResponds 200 (Some (Some true)))
              eq_refl) as (Hwait & _ & Hrules & _).
  split; [exact Hwait|]. exact (proj2 (Hrules (lit "Invoices"))).
Defined.
